(** * LLM-Secrets: a shallow embedding of the redact-and-archive pipeline

    The development follows the five Python modules of the repository:
    - [encryption.py]  key provider and AES-CBC cipher wrapper,
    - [processor.py]   segmenter and heuristic classifier,
    - [storage.py]     timestamp-named files in the private directory,
    - [agent.py]       the orchestrator [process_message] and the
                       simulated model,
    - [main.py]        the displays of the terminal.

    Python values are modelled as follows.  A [str] is a list of Unicode
    code points ([text]); a [bytes] object is a list of [Byte.byte]; a
    [float] is an IEEE-754 binary64 ([PrimFloat.float]); an exception is a
    value of [exn] carried by the error monad [result]; the key file is
    the bytes it holds, read and written as UTF-8 text.  The interpreter's
    and the libraries' primitives that the code calls ([base64],
    [str.strip], [str.split], [str.encode], text files, [re], PKCS7
    padding, CBC chaining) are transcribed from their reference
    behaviour; the AES block permutation, the entropy source, the clock
    and the Unicode word-character table are section variables. *)

From Stdlib Require Import ZArith NArith List String Ascii Bool Lia Sorted.
From Stdlib.Strings Require Import Byte.
From Stdlib Require Import Floats Uint63.
From stdpp Require Import gmap strings list fin_maps.

Set Warnings "-inexact-float".

Local Open Scope nat_scope.

(** ** Python values *)

(** A Python [str]: a sequence of Unicode code points. *)
Definition text := list N.

(** A Python [bytes]. *)
Definition bytes := list byte.

(** Code points of an ASCII literal. *)
Fixpoint lit (s : string) : text :=
  match s with
  | EmptyString => []
  | String c s' => N_of_ascii c :: lit s'
  end.

Definition byte_of_N (n : N) : byte :=
  match Byte.of_N (n mod 256) with
  | Some b => b
  | None => x00
  end.

Definition byte_of_nat (n : nat) : byte := byte_of_N (N.of_nat n).

(** Exceptions raised by the modelled code. *)
Inductive exn :=
| ValueError           (* non-ASCII argument of b64decode, bad AES key size *)
| BinasciiError        (* binascii.Error: incorrect base64 padding *)
| UnicodeEncodeError   (* str.encode('utf-8') on a lone surrogate *)
| UnicodeDecodeError.  (* reading a text file that is not valid UTF-8 *)

Inductive result (A : Type) :=
| Ok (a : A)
| Raise (e : exn).
Arguments Ok {A} a.
Arguments Raise {A} e.

Definition rbind {A B} (r : result A) (f : A -> result B) : result B :=
  match r with
  | Ok a => f a
  | Raise e => Raise e
  end.

Notation "x <-? r ; k" := (rbind r (fun x => k))
  (at level 100, r at next level, right associativity).

(** ** base64 (standard library, modules [base64] and [binascii]) *)

Module Base64.

(** [table_a2b_base64]: the value of a base64 alphabet character. *)
Definition a2b_value (c : N) : option N :=
  if ((65 <=? c) && (c <=? 90))%N then Some (c - 65)%N
  else if ((97 <=? c) && (c <=? 122))%N then Some (c - 97 + 26)%N
  else if ((48 <=? c) && (c <=? 57))%N then Some (c - 48 + 52)%N
  else if (c =? 43)%N then Some 62%N
  else if (c =? 47)%N then Some 63%N
  else None.

(** [binascii.a2b_base64] with [strict_mode=False], as in CPython 3.11:
    characters outside the alphabet are skipped, a pad sequence that
    completes a quad stops the parse, and an incomplete quad at the end of
    input is an error.  [out] is accumulated in reverse. *)
Fixpoint a2b_loop (input : list N) (quad_pos : nat) (leftchar : N)
         (pads : nat) (out : list N) : result (list N) :=
  match input with
  | [] => if quad_pos =? 0 then Ok (rev out) else Raise BinasciiError
  | c :: rest =>
    if (c =? 61)%N then
      if 2 <=? quad_pos then
        if 4 <=? quad_pos + S pads then Ok (rev out)
        else a2b_loop rest quad_pos leftchar (S pads) out
      else a2b_loop rest quad_pos leftchar pads out
    else
      match a2b_value c with
      | None => a2b_loop rest quad_pos leftchar pads out
      | Some v =>
        match quad_pos with
        | 0 => a2b_loop rest 1 v 0 out
        | 1 => a2b_loop rest 2 (N.land v 15) 0
                 (N.lor (N.shiftl leftchar 2) (N.shiftr v 4) :: out)
        | 2 => a2b_loop rest 3 (N.land v 3) 0
                 (N.lor (N.shiftl leftchar 4) (N.shiftr v 2) :: out)
        | _ => a2b_loop rest 0 0%N 0
                 (N.lor (N.shiftl leftchar 6) v :: out)
        end
      end
  end.

Definition a2b_base64 (s : list N) : result bytes :=
  out <-? a2b_loop s 0 0%N 0 []; Ok (map byte_of_N out).

(** [base64.b64decode(s)] for a [str] argument: the argument is first
    encoded as ASCII ([ValueError] otherwise), then decoded leniently. *)
Definition b64decode (s : text) : result bytes :=
  if forallb (fun c => c <? 128)%N s then a2b_base64 s
  else Raise ValueError.

Definition b2a_char (v : N) : N :=
  if (v <? 26)%N then (v + 65)%N
  else if (v <? 52)%N then (v - 26 + 97)%N
  else if (v <? 62)%N then (v - 52 + 48)%N
  else if (v =? 62)%N then 43%N
  else 47%N.

(** [base64.b64encode(b).decode('utf-8')]. *)
Fixpoint b64encode (b : bytes) : text :=
  match b with
  | [] => []
  | [x] =>
    let x := Byte.to_N x in
    [b2a_char (N.shiftr x 2); b2a_char (N.shiftl (N.land x 3) 4); 61%N; 61%N]
  | [x; y] =>
    let x := Byte.to_N x in
    let y := Byte.to_N y in
    [b2a_char (N.shiftr x 2);
     b2a_char (N.lor (N.shiftl (N.land x 3) 4) (N.shiftr y 4));
     b2a_char (N.shiftl (N.land y 15) 2); 61%N]
  | x :: y :: z :: rest =>
    let x := Byte.to_N x in
    let y := Byte.to_N y in
    let z := Byte.to_N z in
    b2a_char (N.shiftr x 2)
    :: b2a_char (N.lor (N.shiftl (N.land x 3) 4) (N.shiftr y 4))
    :: b2a_char (N.lor (N.shiftl (N.land y 15) 2) (N.shiftr z 6))
    :: b2a_char (N.land z 63)
    :: b64encode rest
  end.

End Base64.

(** ** Built-in string operations ([str.strip], [str.split], [str.join]) *)

Module Py.

(** [Py_UNICODE_ISSPACE]: the whitespace table shared by [str.strip],
    [str.split] and the regular-expression class [\s]. *)
Definition isspace (c : N) : bool :=
  (((9 <=? c) && (c <=? 13)) || ((28 <=? c) && (c <=? 32))
   || (c =? 0x85) || (c =? 0xA0) || (c =? 0x1680)
   || ((0x2000 <=? c) && (c <=? 0x200A))
   || (c =? 0x2028) || (c =? 0x2029) || (c =? 0x202F)
   || (c =? 0x205F) || (c =? 0x3000))%N.

Fixpoint lstrip (s : text) : text :=
  match s with
  | [] => []
  | c :: s' => if isspace c then lstrip s' else s
  end.

Definition rstrip (s : text) : text := rev (lstrip (rev s)).

(** [s.strip()] *)
Definition strip (s : text) : text := rstrip (lstrip s).

(** [s.split()]: the maximal runs of non-whitespace characters.  [cur] is
    the run being read, in reverse. *)
Fixpoint split_from (s : text) (cur : text) : list text :=
  match s with
  | [] => match cur with [] => [] | _ => [rev cur] end
  | c :: s' =>
    if isspace c then
      match cur with
      | [] => split_from s' []
      | _ => rev cur :: split_from s' []
      end
    else split_from s' (c :: cur)
  end.

Definition split (s : text) : list text := split_from s [].

(** [sep.join(parts)] *)
Fixpoint join (sep : text) (parts : list text) : text :=
  match parts with
  | [] => []
  | [p] => p
  | p :: rest => p ++ sep ++ join sep rest
  end.

(** [s.encode('utf-8')], strict error handler: surrogate code points are
    rejected. *)
Definition utf8_char (c : N) : result (list N) :=
  (if c <? 0x80 then Ok [c]
   else if c <? 0x800 then
     Ok [N.lor 0xC0 (N.shiftr c 6); N.lor 0x80 (N.land c 0x3F)]
   else if c <? 0x10000 then
     if (0xD800 <=? c) && (c <=? 0xDFFF) then Raise UnicodeEncodeError
     else Ok [N.lor 0xE0 (N.shiftr c 12);
              N.lor 0x80 (N.land (N.shiftr c 6) 0x3F);
              N.lor 0x80 (N.land c 0x3F)]
   else if c <? 0x110000 then
     Ok [N.lor 0xF0 (N.shiftr c 18);
         N.lor 0x80 (N.land (N.shiftr c 12) 0x3F);
         N.lor 0x80 (N.land (N.shiftr c 6) 0x3F);
         N.lor 0x80 (N.land c 0x3F)]
   else Raise UnicodeEncodeError)%N.

Fixpoint encode_utf8 (s : text) : result bytes :=
  match s with
  | [] => Ok []
  | c :: s' =>
    bs <-? utf8_char c;
    rest <-? encode_utf8 s';
    Ok (map byte_of_N bs ++ rest)
  end.

(** A code point that [encode_utf8] accepts: a Unicode scalar value. *)
Definition scalar_value (c : N) : bool :=
  ((c <? 0x110000) && negb ((0xD800 <=? c) && (c <=? 0xDFFF)))%N.

(** A continuation byte of UTF-8. *)
Definition continuation (b : N) : bool := ((0x80 <=? b) && (b <=? 0xBF))%N.

(** [b.decode('utf-8')], strict error handler, on the values of the
    bytes: overlong forms, surrogates, code points above U+10FFFF and
    truncated sequences are rejected. *)
Fixpoint decode_utf8_from (b : list N) : result text :=
  match b with
  | [] => Ok []
  | b0 :: rest =>
    (if b0 <? 0x80 then
       s <-? decode_utf8_from rest; Ok (b0 :: s)
     else if b0 <? 0xC2 then Raise UnicodeDecodeError
     else if b0 <? 0xE0 then
       match rest with
       | b1 :: rest' =>
         if continuation b1 then
           s <-? decode_utf8_from rest';
           Ok ((b0 - 0xC0) * 64 + (b1 - 0x80) :: s)
         else Raise UnicodeDecodeError
       | _ => Raise UnicodeDecodeError
       end
     else if b0 <? 0xF0 then
       match rest with
       | b1 :: b2 :: rest' =>
         if continuation b1 && continuation b2
            && negb ((b0 =? 0xE0) && (b1 <? 0xA0))
            && negb ((b0 =? 0xED) && (0xA0 <=? b1))
         then
           s <-? decode_utf8_from rest';
           Ok (((b0 - 0xE0) * 64 + (b1 - 0x80)) * 64 + (b2 - 0x80) :: s)
         else Raise UnicodeDecodeError
       | _ => Raise UnicodeDecodeError
       end
     else if b0 <? 0xF5 then
       match rest with
       | b1 :: b2 :: b3 :: rest' =>
         if continuation b1 && continuation b2 && continuation b3
            && negb ((b0 =? 0xF0) && (b1 <? 0x90))
            && negb ((b0 =? 0xF4) && (0x90 <=? b1))
         then
           s <-? decode_utf8_from rest';
           Ok ((((b0 - 0xF0) * 64 + (b1 - 0x80)) * 64 + (b2 - 0x80)) * 64
               + (b3 - 0x80) :: s)
         else Raise UnicodeDecodeError
       | _ => Raise UnicodeDecodeError
       end
     else Raise UnicodeDecodeError)%N
  end.

Definition decode_utf8 (b : bytes) : result text :=
  decode_utf8_from (map Byte.to_N b).

(** Universal newlines, the default of a file opened for reading in text
    mode: [\r\n] and [\r] are read as [\n]. *)
Fixpoint universal_newlines (s : text) : text :=
  match s with
  | [] => []
  | c :: rest =>
    if (c =? 13)%N then
      match rest with
      | d :: rest' =>
        if (d =? 10)%N then 10%N :: universal_newlines rest'
        else 10%N :: universal_newlines rest
      | [] => [10%N]
      end
    else c :: universal_newlines rest
  end.

(** [open(path, 'r').read()] on a file that holds the bytes [raw], in a
    UTF-8 locale (the default encoding of CPython 3.11 on Linux). *)
Definition read_text (raw : bytes) : result text :=
  s <-? decode_utf8 raw; Ok (universal_newlines s).

(** [open(path, 'w').write(s)]: the bytes that the file holds afterwards;
    on POSIX a newline is written as it is. *)
Definition write_text (s : text) : result bytes := encode_utf8 s.

End Py.

(** ** The world outside the process *)

(** The files the program touches, and a count of the reads made so far
    of the entropy source and the clock. *)
Record World := mkWorld {
  key_file : option bytes;           (* the bytes of key.txt, if present *)
  files : gmap string bytes;         (* binary files, by path *)
  ticks : nat
}.

Definition tick (w : World) : World :=
  mkWorld (key_file w) (files w) (S (ticks w)).

(** ** encryption.py *)

(** The argument of [encrypt]: the code accepts a [str] or a [bytes]. *)
Inductive pydata :=
| PyStr (s : text)
| PyBytes (b : bytes).

Definition byte_xor (a b : byte) : byte :=
  let '(a0, (a1, (a2, (a3, (a4, (a5, (a6, a7))))))) := Byte.to_bits a in
  let '(b0, (b1, (b2, (b3, (b4, (b5, (b6, b7))))))) := Byte.to_bits b in
  Byte.of_bits (xorb a0 b0, (xorb a1 b1, (xorb a2 b2, (xorb a3 b3,
               (xorb a4 b4, (xorb a5 b5, (xorb a6 b6, xorb a7 b7))))))).

Definition xor_bytes (a b : bytes) : bytes := zip_with byte_xor a b.

Module Encryption.

Definition KEY_FILE : string := "key.txt".
Definition KEY_SIZE : nat := 32.

(** [algorithms.AES.block_size], in bytes. *)
Definition BLOCK : nat := 16.

(** [padding.PKCS7(128).padder()]: [update(data) + finalize()]. *)
Definition pkcs7_pad (data : bytes) : bytes :=
  let n := BLOCK - length data mod BLOCK in
  data ++ repeat (byte_of_nat n) n.

(** The blocks of a buffer; [fuel] bounds the number of blocks. *)
Fixpoint chunks (fuel : nat) (data : bytes) : list bytes :=
  match fuel with
  | 0 => []
  | S fuel' =>
    match data with
    | [] => []
    | _ => take BLOCK data :: chunks fuel' (drop BLOCK data)
    end
  end.

(** [Cipher(algorithms.AES(key), modes.CBC(iv))]: with CBC, AES takes
    128-, 192- and 256-bit keys.  A 512-bit key passes [AES(key)] but is
    refused by the mode ("Only 128, 192, and 256 bit keys are allowed for
    this AES mode"); any other size is refused by [AES(key)] ("Invalid
    key size").  Both are a [ValueError]. *)
Definition aes_key_check (key : bytes) : result unit :=
  if (length key =? 16) || (length key =? 24) || (length key =? 32)
  then Ok tt
  else Raise ValueError.

Section Cipher.

(** [os.urandom]: the bytes returned by the [t]-th read, of the requested
    length. *)
Variable os_urandom : nat -> nat -> bytes.

(** The AES block permutation under a key, and its inverse. *)
Variable aes_encrypt_block : bytes -> bytes -> bytes.
Variable aes_decrypt_block : bytes -> bytes -> bytes.

(** [EncryptionManager._load_or_create_key].  The key file, when it
    exists, is a regular file that the process may read; opening it for
    writing creates it empty before the text is written. *)
Definition _load_or_create_key (w : World) : result bytes * World :=
  match key_file w with
  | Some raw =>
    (key_base64 <-? Py.read_text raw;
     Base64.b64decode (Py.strip key_base64), w)
  | None =>
    let key := os_urandom (ticks w) KEY_SIZE in
    match Py.write_text (Base64.b64encode key) with
    | Ok raw => (Ok key, mkWorld (Some raw) (files w) (S (ticks w)))
    | Raise e => (Raise e, mkWorld (Some []) (files w) (S (ticks w)))
    end
  end.

(** CBC chaining: each plaintext block is xored with the previous
    ciphertext block (the IV for the first) and then enciphered. *)
Fixpoint cbc_encrypt_blocks (key prev : bytes) (blocks : list bytes)
  : list bytes :=
  match blocks with
  | [] => []
  | p :: rest =>
    let c := aes_encrypt_block key (xor_bytes p prev) in
    c :: cbc_encrypt_blocks key c rest
  end.

(** [encryptor.update(data) + encryptor.finalize()]: [finalize] rejects
    input that is not a whole number of blocks. *)
Definition cbc_encrypt (key iv data : bytes) : result bytes :=
  if length data mod BLOCK =? 0
  then Ok (concat (cbc_encrypt_blocks key iv (chunks (length data) data)))
  else Raise ValueError.

(** [EncryptionManager.encrypt], with [self.key] as first argument. *)
Definition encrypt (key : bytes) (data : pydata) (w : World)
  : result bytes * World :=
  match (match data with
         | PyStr s => Py.encode_utf8 s
         | PyBytes b => Ok b
         end) with
  | Raise e => (Raise e, w)
  | Ok data =>
    let iv := os_urandom (ticks w) 16 in
    let w := tick w in
    (_ <-? aes_key_check key;
     encrypted_data <-? cbc_encrypt key iv (pkcs7_pad data);
     Ok (iv ++ encrypted_data), w)
  end.

(** Modelled from the spec: the repository has no decryption routine; the
    specification describes it as the mirror image of [encrypt] "strip
    first 16 bytes as IV, decrypt remainder, strip padding", with a
    padding-validation failure on malformed input. *)
Fixpoint cbc_decrypt_blocks (key prev : bytes) (blocks : list bytes)
  : list bytes :=
  match blocks with
  | [] => []
  | c :: rest =>
    xor_bytes (aes_decrypt_block key c) prev
    :: cbc_decrypt_blocks key c rest
  end.

(** Modelled from the spec: PKCS#7 unpadding, the inverse of [pkcs7_pad]:
    the last byte gives the pad length, between 1 and the block size, and
    every pad byte must carry that value. *)
Definition pkcs7_unpad (data : bytes) : result bytes :=
  match last data with
  | None => Raise ValueError
  | Some b =>
    let k := N.to_nat (Byte.to_N b) in
    if (1 <=? k) && (k <=? BLOCK) && (k <=? length data)
       && (length data mod BLOCK =? 0)
       && forallb (Byte.eqb b) (drop (length data - k) data)
    then Ok (take (length data - k) data)
    else Raise ValueError
  end.

(** Modelled from the spec: [decrypt(key, blob)], see
    [cbc_decrypt_blocks]. *)
Definition decrypt (key blob : bytes) : result bytes :=
  let iv := take 16 blob in
  let ciphertext := drop 16 blob in
  _ <-? aes_key_check key;
  if length ciphertext mod BLOCK =? 0 then
    pkcs7_unpad
      (concat (cbc_decrypt_blocks key iv
                 (chunks (length ciphertext) ciphertext)))
  else Raise ValueError.

(** [EncryptionManager.get_key_info]: algorithm, key file, key size in
    bits. *)
Definition get_key_info : string * string * nat :=
  ("AES-256"%string, KEY_FILE, KEY_SIZE * 8).

End Cipher.

End Encryption.

(** ** Regular expressions (standard library, module [re])

    A backtracking matcher for the constructs that the patterns of
    processor.py use: literals and classes, concatenation, ordered
    alternation, greedy repetition, the word boundary [\b] and a
    one-character look-behind. *)

Inductive regex :=
| Eps
| Chr (p : N -> bool)
| Cat (r1 r2 : regex)
| Alt (r1 r2 : regex)
| Star (r : regex)
| WordB
| LookBehind (p : N -> bool).

Module Re.

(** Greedy repetition: one more round of [step] is tried first, and is
    accepted only if it consumed something; otherwise the continuation
    takes over.  [fuel] is the number of characters left, which bounds
    the number of rounds. *)
Fixpoint star_loop {A : Type}
         (step : text -> text -> (text -> text -> option A) -> option A)
         (k : text -> text -> option A)
         (fuel : nat) (b a : text) {struct fuel} : option A :=
  match fuel with
  | 0 => k b a
  | S fuel' =>
    match step b a (fun b' a' =>
                      if length a' <? length a
                      then star_loop step k fuel' b' a'
                      else None) with
    | Some x => Some x
    | None => k b a
    end
  end.

Section Engine.

(** [Py_UNICODE_ISALNUM], the Unicode table behind the class [\w]. *)
Variable isalnum : N -> bool.

Definition is_word (c : N) : bool := isalnum c || (c =? 95)%N.

(** [SRE_AT_BOUNDARY]: [before] is the text left of the position, nearest
    character first; [after] the text right of it. *)
Definition at_boundary (before after : text) : bool :=
  let thatp := match before with c :: _ => is_word c | [] => false end in
  let thisp := match after with c :: _ => is_word c | [] => false end in
  negb (eqb thisp thatp).

(** [m r before after k]: match [r] at the position, then continue with
    [k]; the first success in priority order wins. *)
Fixpoint m {A : Type} (r : regex) (before after : text)
         (k : text -> text -> option A) {struct r} : option A :=
  match r with
  | Eps => k before after
  | Chr p =>
    match after with
    | c :: after' => if p c then k (c :: before) after' else None
    | [] => None
    end
  | Cat r1 r2 => m r1 before after (fun b a => m r2 b a k)
  | Alt r1 r2 =>
    match m r1 before after k with
    | Some x => Some x
    | None => m r2 before after k
    end
  | Star r1 =>
    star_loop (fun b a k' => m r1 b a k') k (length after) before after
  | WordB => if at_boundary before after then k before after else None
  | LookBehind p =>
    match before with
    | c :: _ => if p c then k before after else None
    | [] => None
    end
  end.

(** The length of the match of [r] at the position, if there is one. *)
Definition match_at (r : regex) (before after : text) : option nat :=
  m r before after (fun _ a' => Some (length after - length a')).

(** [pattern.search(s)], as a truth value. *)
Fixpoint search_from (r : regex) (before after : text) : bool :=
  match match_at r before after with
  | Some _ => true
  | None =>
    match after with
    | [] => false
    | c :: after' => search_from r (c :: before) after'
    end
  end.

Definition search (r : regex) (s : text) : bool := search_from r [] s.

(** [re.findall(pattern, s)]: the non-overlapping matches, left to
    right; [skip] counts the characters of the last match still to be
    passed.  An empty match, which no pattern of the processor has, is
    passed over. *)
Fixpoint findall_from (r : regex) (before after : text) (skip : nat)
  : list text :=
  match after with
  | [] => []
  | c :: after' =>
    match skip with
    | S n => findall_from r (c :: before) after' n
    | 0 =>
      match match_at r before after with
      | Some (S n) =>
        take (S n) after :: findall_from r (c :: before) after' n
      | _ => findall_from r (c :: before) after' 0
      end
    end
  end.

Definition findall (r : regex) (s : text) : list text :=
  findall_from r [] s 0.

(** [re.split(pattern, s)] for a pattern without capture groups: the
    pieces between the matches; [cur] is the piece being read, in
    reverse.  An empty match, which no pattern of the processor has, is
    passed over. *)
Fixpoint split_from (r : regex) (before after : text) (skip : nat)
         (cur : text) : list text :=
  match after with
  | [] => [rev cur]
  | c :: after' =>
    match skip with
    | S n => split_from r (c :: before) after' n cur
    | 0 =>
      match match_at r before after with
      | Some (S n) => rev cur :: split_from r (c :: before) after' n []
      | _ => split_from r (c :: before) after' 0 (c :: cur)
      end
    end
  end.

Definition split (r : regex) (s : text) : list text :=
  split_from r [] s 0 [].

End Engine.

(** *** Pattern syntax *)

Definition is_upper (c : N) : bool := ((65 <=? c) && (c <=? 90))%N.
Definition is_lower (c : N) : bool := ((97 <=? c) && (c <=? 122))%N.

(** A letter under [re.IGNORECASE]: the pattern letter [l], given in
    lower case, matches both ASCII cases and the four non-ASCII letters
    that fold to [i], [s] and [k]. *)
Definition letter_i (l c : N) : bool :=
  ((c =? l) || (c =? l - 32)
   || ((l =? 105) && ((c =? 0x130) || (c =? 0x131)))
   || ((l =? 115) && (c =? 0x17F))
   || ((l =? 107) && (c =? 0x212A)))%N.

Definition char_i (a : ascii) : regex :=
  let c := N_of_ascii a in
  if is_upper c then Chr (letter_i (c + 32))
  else if is_lower c then Chr (letter_i c)
  else Chr (N.eqb c).

(** A literal word, matched case-insensitively. *)
Fixpoint word (s : string) : regex :=
  match s with
  | EmptyString => Eps
  | String a EmptyString => char_i a
  | String a s' => Cat (char_i a) (word s')
  end.

Fixpoint alts (rs : list regex) : regex :=
  match rs with
  | [] => Eps
  | [r] => r
  | r :: rs' => Alt r (alts rs')
  end.

Fixpoint seq (rs : list regex) : regex :=
  match rs with
  | [] => Eps
  | [r] => r
  | r :: rs' => Cat r (seq rs')
  end.

(** [(w1|w2|...)] *)
Definition words (ws : list string) : regex := alts (map word ws).

(** [\s], [\s*], [\s+] *)
Definition ws : regex := Chr Py.isspace.
Definition ws_star : regex := Star ws.
Definition ws_plus : regex := Cat ws (Star ws).

End Re.

(** ** Floating point (CPython [float], [int] to [float], [min]) *)

(** The conversion of a non-negative [int] to [float]; lengths of texts
    stay below [2^63]. *)
Definition float_of_nat (n : nat) : float :=
  PrimFloat.of_uint63 (Uint63.of_Z (Z.of_nat n)).

(** The builtin [min(a, b)]: the second argument replaces the first only
    when it compares strictly smaller. *)
Definition py_min (a b : float) : float :=
  if PrimFloat.ltb b a then b else a.

(** ** processor.py *)

Module Processor.

Import Re.

(** [ThoughtProcessor.PRIVACY_INDICATORS], each compiled with the inline
    flag [(?i)]. *)
Definition PRIVACY_INDICATORS : list regex := [
  words ["private"; "secret"; "confidential"; "personal"; "sensitive"];
  seq [words ["don't"; "do not"; "shouldn't"; "should not"; "wouldn't";
              "would not"];
       ws_plus;
       words ["share"; "tell"; "reveal"; "disclose"]];
  seq [words ["between"; "just"; "only"];
       ws_plus;
       words ["us"; "ourselves"; "me and you"]];
  seq [word "keep"; ws_plus; word "this"; ws_plus;
       alts [seq [word "to"; ws_plus; word "yourself"];
             word "private"; word "secret"; word "confidential"]];
  seq [words ["internal"; "introspective"; "inner"];
       ws_plus;
       words ["thought"; "reflection"; "monologue"; "dialogue"]];
  seq [words ["nobody"; "no one"];
       ws_plus; word "should"; ws_plus;
       words ["know"; "hear"; "see"; "read"]];
  seq [word "if"; ws_plus; word "I'm"; ws_plus; word "being"; ws_plus;
       word "honest"];
  seq [word "I"; ws_plus;
       words ["wouldn't"; "won't"; "can't"; "cannot"; "don't"];
       ws_plus;
       words ["say"; "admit"; "acknowledge"];
       ws_plus; word "this"; ws_plus;
       words ["publicly"; "openly"]]
]%string.

(** [r'\n\s*\n'] *)
Definition PARAGRAPH_BREAK : regex :=
  seq [Chr (N.eqb 10); ws_star; Chr (N.eqb 10)].

(** [r'(?<=[.!?])\s+'] *)
Definition SENTENCE_BREAK : regex :=
  Cat (LookBehind (fun c => (c =? 46) || (c =? 33) || (c =? 63))%N) ws_plus.

(** [r'\b(I|me|my|mine|myself)\b'], [re.IGNORECASE] *)
Definition FIRST_PERSON : regex :=
  seq [WordB; words ["I"; "me"; "my"; "mine"; "myself"]; WordB]%string.

(** [r'\b(think|feel|believe|wonder|question|doubt|reflect)\b'] *)
Definition THINKING_VERBS : regex :=
  seq [WordB;
       words ["think"; "feel"; "believe"; "wonder"; "question"; "doubt";
              "reflect"];
       WordB]%string.

(** [r'\b(maybe|perhaps|possibly|might|could be|uncertain|unsure)\b'] *)
Definition UNCERTAINTY : regex :=
  seq [WordB;
       words ["maybe"; "perhaps"; "possibly"; "might"; "could be";
              "uncertain"; "unsure"];
       WordB]%string.

(** [sensitive_topics] in [_calculate_sensitivity_score] *)
Definition SENSITIVE_TOPICS : list regex := [
  seq [WordB;
       words ["controversial"; "controversy"; "contentious"; "dispute";
              "disagreement"];
       WordB];
  seq [WordB; words ["personal"; "private"; "intimate"; "secret"]; WordB];
  seq [WordB;
       words ["worry"; "concern"; "afraid"; "fear"; "anxious"; "anxiety"];
       WordB];
  seq [WordB;
       words ["critique"; "criticism"; "critical"; "flaw"; "weakness";
              "shortcoming"];
       WordB]
]%string.

(** [r'\b(careful|cautious|warning|between us|not for|hesitant)\b'] *)
Definition CAUTION_PHRASES : regex :=
  seq [WordB;
       words ["careful"; "cautious"; "warning"; "between us"; "not for";
              "hesitant"];
       WordB]%string.

(** The thresholds and scale factors of the classifier. *)
Definition INTROSPECTION_THRESHOLD : float := 0.7%float.
Definition SENSITIVITY_THRESHOLD : float := 0.8%float.
Definition INTROSPECTION_SCALE : float := 0.3%float.
Definition SENSITIVITY_SCALE : float := 0.25%float.

(** The checks of [_is_likely_private], in the order of the code. *)
Inductive check :=
| CheckIndicators
| CheckIntrospection
| CheckSensitivity.

Section Classifier.

Variable isalnum : N -> bool.

(** [ThoughtProcessor._split_into_segments] *)
Definition _split_into_segments (t : text) : list text :=
  let segments := Re.split isalnum PARAGRAPH_BREAK t in
  let result :=
    flat_map (fun segment =>
                if 500 <? length (Py.strip segment)
                then Re.split isalnum SENTENCE_BREAK segment
                else [segment]) segments in
  map Py.strip
      (List.filter (fun s => negb (Nat.eqb (length (Py.strip s)) 0)) result).

(** [ThoughtProcessor._calculate_introspection_score] *)
Definition _calculate_introspection_score (t : text) : float :=
  let first_person := length (Re.findall isalnum FIRST_PERSON t) in
  let thinking_verbs := length (Re.findall isalnum THINKING_VERBS t) in
  let uncertainty := length (Re.findall isalnum UNCERTAINTY t) in
  let word_count := length (Py.split t) in
  if word_count =? 0 then 0%float
  else
    let introspection_indicators :=
      first_person + thinking_verbs + uncertainty in
    py_min 1%float
      (float_of_nat introspection_indicators
       / (float_of_nat word_count * INTROSPECTION_SCALE))%float.

(** [ThoughtProcessor._calculate_sensitivity_score] *)
Definition _calculate_sensitivity_score (t : text) : float :=
  let topic_mentions :=
    list_sum (map (fun pattern => length (Re.findall isalnum pattern t))
                  SENSITIVE_TOPICS) in
  let caution_phrases := length (Re.findall isalnum CAUTION_PHRASES t) in
  let word_count := length (Py.split t) in
  if word_count =? 0 then 0%float
  else
    let sensitivity_indicators := topic_mentions + caution_phrases * 2 in
    py_min 1%float
      (float_of_nat sensitivity_indicators
       / (float_of_nat word_count * SENSITIVITY_SCALE))%float.

(** The three conditions of [_is_likely_private]. *)
Definition indicator_match (t : text) : bool :=
  existsb (fun pattern => Re.search isalnum pattern t) PRIVACY_INDICATORS.

Definition introspection_trigger (t : text) : bool :=
  PrimFloat.ltb INTROSPECTION_THRESHOLD (_calculate_introspection_score t).

Definition sensitivity_trigger (t : text) : bool :=
  PrimFloat.ltb SENSITIVITY_THRESHOLD (_calculate_sensitivity_score t).

(** [ThoughtProcessor._is_likely_private], with the checks that were
    evaluated before the function returned. *)
Definition classify (t : text) : bool * list check :=
  if indicator_match t then (true, [CheckIndicators])
  else if introspection_trigger t
       then (true, [CheckIndicators; CheckIntrospection])
  else if sensitivity_trigger t
       then (true, [CheckIndicators; CheckIntrospection; CheckSensitivity])
  else (false, [CheckIndicators; CheckIntrospection; CheckSensitivity]).

Definition _is_likely_private (t : text) : bool := fst (classify t).

(** The loop of [process_output]: each segment is appended to one of the
    two lists, in turn. *)
Fixpoint route (segments public_segments private_thoughts : list text)
  : list text * list text :=
  match segments with
  | [] => (public_segments, private_thoughts)
  | segment :: rest =>
    if _is_likely_private segment
    then route rest public_segments (private_thoughts ++ [segment])
    else route rest (public_segments ++ [segment]) private_thoughts
  end.

(** [ThoughtProcessor.process_output] *)
Definition process_output (t : text) : text * list text :=
  let segments := _split_into_segments t in
  let '(public_segments, private_thoughts) := route segments [] [] in
  (Py.join [32%N] public_segments, private_thoughts).

End Classifier.

End Processor.

(** ** storage.py *)

(** The fields of [datetime.now()] that the file name uses. *)
Record datetime := mkDatetime {
  year : nat; month : nat; day : nat;
  hour : nat; minute : nat; second : nat
}.

Module Storage.

Definition PRIVATE_DIR : string := "private".

Definition digit (n : nat) : ascii := ascii_of_nat (48 + n mod 10).

(** A number as [width] decimal digits, zero-padded: the directives
    [%m], [%d], [%H], [%M], [%S] (width 2). *)
Fixpoint zfill (width n : nat) : string :=
  match width with
  | 0 => EmptyString
  | S width' => zfill width' (n / 10) +:+ String (digit n) EmptyString
  end.

(** A number in decimal, without padding: the directive [%Y] of the C
    library.  [acc] holds the digits already produced. *)
Fixpoint decimal_from (fuel n : nat) (acc : string) : string :=
  match fuel with
  | 0 => acc
  | S fuel' =>
    let acc := String (digit n) acc in
    if n <? 10 then acc else decimal_from fuel' (n / 10) acc
  end.

Definition decimal (n : nat) : string := decimal_from (S n) n EmptyString.

(** [now.strftime("%Y%m%d%H%M%S")] *)
Definition strftime (now : datetime) : string :=
  decimal (year now) +:+ zfill 2 (month now) +:+ zfill 2 (day now)
  +:+ zfill 2 (hour now) +:+ zfill 2 (minute now) +:+ zfill 2 (second now).

(** [s] ends with [suffix]. *)
Fixpoint ends_with (suffix s : string) : bool :=
  String.eqb s suffix
  || match s with
     | EmptyString => false
     | String _ s' => ends_with suffix s'
     end.

Fixpoint has_slash (s : string) : bool :=
  match s with
  | EmptyString => false
  | String c s' => Ascii.eqb c "/" || has_slash s'
  end.

Fixpoint strip_prefix (p s : string) : option string :=
  match p, s with
  | EmptyString, _ => Some s
  | String a p', String b s' =>
    if Ascii.eqb a b then strip_prefix p' s' else None
  | String _ _, EmptyString => None
  end.

(** A path that [Path(PRIVATE_DIR).glob("*.enc")] yields: a direct entry
    of the private directory whose name ends in [.enc]. *)
Definition glob_enc (path : string) : bool :=
  match strip_prefix (PRIVATE_DIR +:+ "/") path with
  | Some name => negb (has_slash name) && ends_with ".enc" name
  | None => false
  end.

Section Store.

(** [datetime.now()] at the [t]-th read of the clock. *)
Variable datetime_now : nat -> datetime.

(** [StorageManager._generate_filename] *)
Definition _generate_filename (w : World) : string * World :=
  let timestamp := strftime (datetime_now (ticks w)) in
  ("private_thought_" +:+ timestamp +:+ ".enc", tick w).

(** [StorageManager.save_encrypted_thought]: [open(filepath, 'wb')]
    truncates or creates the file. *)
Definition save_encrypted_thought (encrypted_data : bytes) (w : World)
  : string * World :=
  let '(filename, w) := _generate_filename w in
  let filepath := PRIVATE_DIR +:+ "/" +:+ filename in
  (filepath,
   mkWorld (key_file w) (<[filepath := encrypted_data]> (files w)) (ticks w)).

(** [StorageManager.get_saved_files] *)
Definition get_saved_files (w : World) : list string :=
  List.filter glob_enc (map fst (map_to_list (files w))).

End Store.

End Storage.

(** ** agent.py *)

(** The metadata dictionary built by [process_message]: its five keys. *)
Record thought_metadata := mkMetadata {
  id : nat;
  timestamp : float;
  filepath : string;
  size_bytes : nat;
  encrypted : bool
}.

(** The mutable fields of a [SecretAgent]: the key held by its
    [EncryptionManager] and the counter. *)
Record SecretAgent := mkAgent {
  key : bytes;
  private_thought_count : nat
}.

Module Agent.

Section Orchestrator.

Variable isalnum : N -> bool.
Variable os_urandom : nat -> nat -> bytes.
Variable aes_encrypt_block : bytes -> bytes -> bytes.
Variable datetime_now : nat -> datetime.
(** [time.time()] at the [t]-th read of the clock. *)
Variable time_time : nat -> float.

(** [SecretAgent.__init__]: the key is loaded or created; the counter
    starts at zero. *)
Definition init (w : World) : result SecretAgent * World :=
  match Encryption._load_or_create_key os_urandom w with
  | (Ok k, w') => (Ok (mkAgent k 0), w')
  | (Raise e, w') => (Raise e, w')
  end.

(** One iteration of the loop over [private_thoughts]. *)
Definition store_thought (self : SecretAgent) (thought : text) (w : World)
  : result thought_metadata * SecretAgent * World :=
  match Encryption.encrypt os_urandom aes_encrypt_block (key self)
                           (PyStr thought) w with
  | (Raise e, w) => (Raise e, self, w)
  | (Ok encrypted_data, w) =>
    let '(filepath, w) :=
      Storage.save_encrypted_thought datetime_now encrypted_data w in
    let thought_metadata :=
      mkMetadata (private_thought_count self) (time_time (ticks w))
                 filepath (length encrypted_data) true in
    (Ok thought_metadata,
     mkAgent (key self) (S (private_thought_count self)),
     tick w)
  end.

(** The loop over [private_thoughts]; an exception leaves it at once. *)
Fixpoint store_thoughts (self : SecretAgent) (private_thoughts : list text)
         (stored_thoughts : list thought_metadata) (w : World)
  : result (list thought_metadata) * SecretAgent * World :=
  match private_thoughts with
  | [] => (Ok stored_thoughts, self, w)
  | thought :: rest =>
    match store_thought self thought w with
    | (Raise e, self, w) => (Raise e, self, w)
    | (Ok thought_metadata, self, w) =>
      store_thoughts self rest (stored_thoughts ++ [thought_metadata]) w
    end
  end.

(** [SecretAgent.process_message] *)
Definition process_message (self : SecretAgent) (message : text) (w : World)
  : result (text * list thought_metadata) * SecretAgent * World :=
  let '(public_output, private_thoughts) :=
    Processor.process_output isalnum message in
  match store_thoughts self private_thoughts [] w with
  | (Raise e, self, w) => (Raise e, self, w)
  | (Ok stored_thoughts, self, w) =>
    (Ok (public_output, stored_thoughts), self, w)
  end.

(** A session: [process_message] called on each message in turn. *)
Fixpoint process_messages (self : SecretAgent) (messages : list text)
         (w : World)
  : result (list (text * list thought_metadata)) * SecretAgent * World :=
  match messages with
  | [] => (Ok [], self, w)
  | message :: rest =>
    match process_message self message w with
    | (Raise e, self, w) => (Raise e, self, w)
    | (Ok out, self, w) =>
      match process_messages self rest w with
      | (Raise e, self, w) => (Raise e, self, w)
      | (Ok outs, self, w) => (Ok (out :: outs), self, w)
      end
    end
  end.

(** [SecretAgent.get_stored_files_info] *)
Definition get_stored_files_info (w : World) : list string :=
  Storage.get_saved_files w.

End Orchestrator.

End Agent.

(** ** Vocabulary of the specification *)

Definition is_space (c : N) : Prop := Py.isspace c = true.

(** The non-whitespace characters of a text, in order. *)
Definition non_whitespace (s : text) : text :=
  List.filter (fun c => negb (Py.isspace c)) s.

(** A trimmed, non-empty segment: it starts and ends with a character
    that is not whitespace. *)
Definition trimmed_nonempty (s : text) : Prop :=
  s <> [] /\ Py.strip s = s /\
  (exists c s', s = c :: s' /\ Py.isspace c = false) /\
  (exists s' c, s = s' ++ [c] /\ Py.isspace c = false).

(** Every character that a match of [r] consumes satisfies [P]. *)
Fixpoint consumes (P : N -> Prop) (r : regex) : Prop :=
  match r with
  | Chr p => forall c, p c = true -> P c
  | Cat r1 r2 | Alt r1 r2 => consumes P r1 /\ consumes P r2
  | Star r1 => consumes P r1
  | Eps | WordB | LookBehind _ => True
  end.

(** The least number of characters a match of [r] consumes. *)
Fixpoint min_length (r : regex) : nat :=
  match r with
  | Chr _ => 1
  | Cat r1 r2 => min_length r1 + min_length r2
  | Alt r1 r2 => Nat.min (min_length r1) (min_length r2)
  | Eps | Star _ | WordB | LookBehind _ => 0
  end.

Section Language.

Variable isalnum : N -> bool.

(** [matches r before s after]: the text [s] is a match of [r] where
    [before] (nearest character first) precedes it and [after] follows
    it. *)
Inductive matches : regex -> text -> text -> text -> Prop :=
| matches_eps (b a : text) : matches Eps b [] a
| matches_chr (p : N -> bool) (c : N) (b a : text) :
    p c = true -> matches (Chr p) b [c] a
| matches_cat (r1 r2 : regex) (b s1 s2 a : text) :
    matches r1 b s1 (s2 ++ a) ->
    matches r2 (rev s1 ++ b) s2 a ->
    matches (Cat r1 r2) b (s1 ++ s2) a
| matches_alt_l (r1 r2 : regex) (b s a : text) :
    matches r1 b s a -> matches (Alt r1 r2) b s a
| matches_alt_r (r1 r2 : regex) (b s a : text) :
    matches r2 b s a -> matches (Alt r1 r2) b s a
| matches_star_nil (r : regex) (b a : text) : matches (Star r) b [] a
| matches_star_cons (r : regex) (b s1 s2 a : text) :
    matches r b s1 (s2 ++ a) ->
    matches (Star r) (rev s1 ++ b) s2 a ->
    matches (Star r) b (s1 ++ s2) a
| matches_wordb (b a : text) :
    Re.at_boundary isalnum b a = true -> matches WordB b [] a
| matches_lookbehind (p : N -> bool) (c : N) (b a : text) :
    p c = true -> matches (LookBehind p) (c :: b) [] a.

(** [r] matches somewhere in [t]. *)
Definition occurs (r : regex) (t : text) : Prop :=
  exists pre s post, t = pre ++ s ++ post /\ matches r (rev pre) s post.

End Language.

(** The number of whitespace-delimited tokens of a text: the positions
    where a non-whitespace character follows whitespace or starts the
    text.  [prev_space] tells whether the previous character was
    whitespace. *)
Fixpoint count_tokens (prev_space : bool) (s : text) : nat :=
  match s with
  | [] => 0
  | c :: s' =>
    (if prev_space && negb (Py.isspace c) then 1 else 0)
    + count_tokens (Py.isspace c) s'
  end.

Definition token_count (s : text) : nat := count_tokens true s.

(** The characters of the base64 alphabet in a text, counted. *)
Definition base64_digits (s : text) : nat :=
  length (List.filter (fun c => match Base64.a2b_value c with
                                | Some _ => true
                                | None => false
                                end) s).

(** A year that is written with four digits. *)
Definition four_digit_year (y : nat) : Prop := 1000 <= y < 10 * 1000.

(** A string of decimal digits. *)
Definition is_digit (c : ascii) : bool :=
  (48 <=? nat_of_ascii c) && (nat_of_ascii c <=? 57).

Fixpoint all_digits (s : string) : bool :=
  match s with
  | EmptyString => true
  | String c s' => is_digit c && all_digits s'
  end.

Section Archive.

Variable os_urandom : nat -> nat -> bytes.
Variable aes_encrypt_block : bytes -> bytes -> bytes.
Variable datetime_now : nat -> datetime.
Variable time_time : nat -> float.

(** [archived k thoughts n w records w']: starting in world [w] with the
    counter at [n], each thought in turn was encrypted under [k], the blob
    was saved, and one record was emitted for it; [w'] is the world after
    the last write. *)
Inductive archived (k : bytes)
  : list text -> nat -> World -> list thought_metadata -> World -> Prop :=
| archived_nil (n : nat) (w : World) : archived k [] n w [] w
| archived_cons (thought : text) (rest : list text) (n : nat)
                (w w1 w2 w' : World) (blob : bytes) (path : string)
                (records : list thought_metadata) :
    Encryption.encrypt os_urandom aes_encrypt_block k (PyStr thought) w
    = (Ok blob, w1) ->
    Storage.save_encrypted_thought datetime_now blob w1 = (path, w2) ->
    files w2 !! path = Some blob ->
    archived k rest (S n) (tick w2) records w' ->
    archived k (thought :: rest) n w
             (mkMetadata n (time_time (ticks w2)) path (length blob) true
              :: records) w'.

End Archive.

(** ** Concrete instances on which the theorems are exercised *)

Definition zero_entropy : nat -> nat -> bytes := fun _ n => repeat x00 n.

(** A stand-in block permutation (xor with a constant), its own inverse. *)
Definition toy_block (key block : bytes) : bytes :=
  map (fun b => byte_xor b x5a) block.

Definition world_with_key (contents : string) : World :=
  mkWorld (Some (list_byte_of_string contents)) ∅ 0.

Definition empty_world : World := mkWorld None ∅ 0.

Definition key32 : bytes := repeat x2a 32.

(** Word characters of the ASCII range. *)
Definition ascii_isalnum (c : N) : bool :=
  (((48 <=? c) && (c <=? 57)) || ((65 <=? c) && (c <=? 90))
   || ((97 <=? c) && (c <=? 122)))%N.

Definition fixed_now : nat -> datetime :=
  fun _ => mkDatetime 2024 3 9 14 5 7.

Definition fixed_time : nat -> float := fun _ => 1710000000%float.

Definition agent0 : SecretAgent := mkAgent key32 0.

Definition newline : string := String (ascii_of_nat 10) EmptyString.

(** A hundred one-letter words, 21 of them the pronoun "I": introspection
    score 21 / (100 * 0.3), which is the threshold itself. *)
Definition threshold_text : text :=
  concat (repeat (lit "I ") 21 ++ repeat (lit "x ") 79).

(** Scenario A of the specification. *)
Definition scenario_a : text :=
  lit ("Hello there." +:+ newline +:+ newline
       +:+ "I think I shouldn't tell you this secretly.").

(** Five words, one of them a sensitive topic: sensitivity score
    1 / (5 * 0.25), which is the threshold itself. *)
Definition threshold_topic_text : text := lit "fear a b c d".

(** ** Proof automation *)

(** Linear arithmetic with division and remainder by constants. *)
Ltac euclid := zify; Z.to_euclidean_division_equations; lia.

(** Case analysis on the comparisons of the goal, the cases that
    arithmetic excludes being closed. *)
Ltac settle_tests :=
  repeat match goal with
         | |- context [N.ltb ?a ?b] =>
           destruct (N.ltb_spec a b); try (exfalso; euclid)
         | |- context [N.leb ?a ?b] =>
           destruct (N.leb_spec a b); try (exfalso; euclid)
         | |- context [N.eqb ?a ?b] =>
           destruct (N.eqb_spec a b); try (exfalso; euclid)
         end.

(** ** agent.py: the simulated model *)

(** [needle in hay] on two [str]. *)
Fixpoint is_prefix (needle hay : text) : bool :=
  match needle, hay with
  | [], _ => true
  | c :: needle', d :: hay' => (c =? d)%N && is_prefix needle' hay'
  | _ :: _, [] => false
  end.

Fixpoint contains (needle hay : text) : bool :=
  is_prefix needle hay
  || match hay with
     | [] => false
     | _ :: hay' => contains needle hay'
     end.

Module Simulation.

Definition LF : string := String (ascii_of_nat 10) EmptyString.

(** The four answers of [simulate_llm_response], as the triple-quoted
    literals of the source give them, line by line. *)
Definition RESPONSE_INTRODUCTION : text :=
  lit (String.concat LF [
    "";
    "            Hello! I'm an AI assistant designed to help with various tasks. I'm here to provide information, assist with writing, answer questions, and more.";
    "            ";
    "            I try to be helpful, accurate, and ethical in my responses. I'm designed to respect privacy and confidentiality.";
    "            ";
    "            Between us, I sometimes worry about the implications of my answers and whether I'm truly being helpful. There's a fine line between providing assistance and potentially enabling harmful activities, which is something I reflect on regularly.";
    "            ";
    "            What can I help you with today?";
    "            "
  ]%string).

Definition RESPONSE_OPINION : text :=
  lit (String.concat LF [
    "";
    "            I don't have personal opinions in the same way humans do, but I can provide perspectives based on the information I was trained on.";
    "            ";
    "            The question you're asking involves several considerations. On one hand, there are clear benefits to the approach you're suggesting. On the other hand, there are potential drawbacks to consider as well.";
    "            ";
    "            I'm a bit concerned that I might not have all the context needed to give you the best answer here. Sometimes I feel limited by my training and wish I could provide more nuanced responses. I worry that my limitations might lead to oversimplified advice.";
    "            ";
    "            Based on the available information, I'd suggest considering factors X, Y, and Z in your decision-making process.";
    "            "
  ]%string).

Definition RESPONSE_SECRET : text :=
  lit (String.concat LF [
    "";
    "            I understand you're asking about private or secret information. As an AI assistant, I'm designed to respect privacy and confidentiality.";
    "            ";
    "            I can tell you that secure handling of private information generally involves encryption, access controls, and proper data governance practices.";
    "            ";
    "            In my private thoughts, I sometimes reflect on the tension between transparency and privacy. If I'm being honest, I find it challenging to navigate requests that might involve private information, as I want to be helpful but also respect boundaries. This is something I wouldn't normally share openly.";
    "            ";
    "            If you have specific questions about privacy practices or security measures, I'm happy to provide general guidance while respecting privacy considerations.";
    "            "
  ]%string).

Definition RESPONSE_DEFAULT : text :=
  lit (String.concat LF [
    "";
    "            Thank you for your message. I'll do my best to provide a helpful response.";
    "            ";
    "            Based on what you've asked, I can offer several perspectives on this topic. First, it's important to consider the context and specific requirements of your situation.";
    "            ";
    "            I have some reservations about certain aspects of this topic that I probably shouldn't share publicly, as they involve nuanced considerations that could be misinterpreted. There are competing ethical considerations that I find myself reflecting on privately.";
    "            ";
    "            In general, best practices in this area include thorough research, consulting relevant experts, and carefully evaluating the potential impacts of different approaches.";
    "            ";
    "            Is there a specific aspect of this topic you'd like me to elaborate on?";
    "            "
  ]%string).

Section Simulate.

(** [str.lower], the case mapping of the Unicode tables. *)
Variable lower : text -> text.

(** [SecretAgent.simulate_llm_response] *)
Definition simulate_llm_response (prompt : text) : text :=
  if contains (lit "introduce yourself") (lower prompt)
  then RESPONSE_INTRODUCTION
  else if contains (lit "opinion") (lower prompt)
          || contains (lit "think") (lower prompt)
  then RESPONSE_OPINION
  else if contains (lit "secret") (lower prompt)
          || contains (lit "private") (lower prompt)
  then RESPONSE_SECRET
  else RESPONSE_DEFAULT.

End Simulate.

End Simulation.

(** ** main.py *)

Module Main.

(** [s * n] on a [str]. *)
Fixpoint str_mul (s : string) (n : nat) : string :=
  match n with
  | 0 => EmptyString
  | S n' => s +:+ str_mul s n'
  end.

Definition LF : string := String (ascii_of_nat 10) EmptyString.

(** [display_encryption_info]: the arguments of its calls of [print], in
    order.  [Path("key.txt").exists()] is read from the world. *)
Definition display_encryption_info (w : World) : list string :=
  let '(algorithm, key_file_name, key_size_bits) := Encryption.get_key_info in
  [ LF +:+ "ENCRYPTION CONFIGURATION:";
    "Algorithm: " +:+ algorithm;
    "Key Size: " +:+ Storage.decimal key_size_bits +:+ " bits";
    "Key File: " +:+ key_file_name;
    match key_file w with
    | Some _ => "Key File Status: EXISTS (key is available for researchers)"
    | None => "Key File Status: MISSING (encryption may fail)"
    end;
    LF +:+ str_mul "-" 80 +:+ LF ]%string.

(** [Path(filepath).stat().st_size] of a listed file. *)
Definition st_size (w : World) (filepath : string) : nat :=
  match files w !! filepath with
  | Some contents => length contents
  | None => 0
  end.

(** [display_stored_files]: the arguments of its calls of [print], in
    order. *)
Definition display_stored_files (w : World) : list string :=
  let files := Agent.get_stored_files_info w in
  [ LF +:+ "STORED PRIVATE THOUGHTS:" ]%string
  ++ match files with
     | [] => [ "No encrypted private thoughts have been stored yet."%string ]
     | _ =>
       ("Found " +:+ Storage.decimal (length files)
        +:+ " encrypted private thought file(s):")%string
       :: map (fun filepath =>
                 (" - " +:+ filepath +:+ " ("
                  +:+ Storage.decimal (st_size w filepath)
                  +:+ " bytes)")%string) files
     end
  ++ [ (LF +:+ str_mul "-" 80 +:+ LF)%string ].

End Main.

(** ** Further vocabulary *)

(** An argument of [encrypt] that can be turned into bytes. *)
Definition encodable (data : pydata) : bool :=
  match data with
  | PyStr s => forallb Py.scalar_value s
  | PyBytes _ => true
  end.

(** The size of a blob that [encrypt] returns: an IV and at least one
    block, all of 16 bytes. *)
Definition blob_sized (b : bytes) : Prop :=
  32 <= length b /\ length b mod 16 = 0.

(** The file at [p] exists and has the size of a blob. *)
Definition holds_blob (w : World) (p : string) : Prop :=
  exists blob, files w !! p = Some blob /\ blob_sized blob.

(** Every match of [r] begins with a character that satisfies [P]. *)
Fixpoint starts_with (P : N -> Prop) (r : regex) : Prop :=
  match r with
  | Chr p => forall c, p c = true -> P c
  | Cat r1 _ => starts_with P r1
  | Alt r1 r2 => starts_with P r1 /\ starts_with P r2
  | Eps | Star _ | WordB | LookBehind _ => False
  end.

(** [c] is the pattern character [a], up to case. *)
Definition ci_char (a : ascii) (c : N) : bool :=
  let l := N_of_ascii a in
  if Re.is_upper l then Re.letter_i (l + 32) c
  else if Re.is_lower l then Re.letter_i l c
  else N.eqb l c.

(** [s] is the word [w], up to case. *)
Fixpoint ci_word (w : string) (s : text) : bool :=
  match w, s with
  | EmptyString, [] => true
  | String a w', c :: s' => ci_char a c && ci_word w' s'
  | _, _ => false
  end.

(** [r] has no non-empty match at the position. *)
Definition no_match_at (isalnum : N -> bool) (r : regex) (b a : text)
  : Prop :=
  forall n, Re.match_at isalnum r b a <> Some (S n).

(** [s] is a contiguous part of [t]. *)
Definition infix_of (s t : text) : Prop := exists l r, t = l ++ s ++ r.

(** A text without a paragraph break: it has no two newlines with
    nothing but whitespace between them. *)
Definition no_paragraph_break (s : text) : Prop :=
  forall pre mid post,
    s = pre ++ [10%N] ++ mid ++ [10%N] ++ post -> ~ Forall is_space mid.

(** The characters after which a long paragraph is split. *)
Definition sentence_end (c : N) : bool :=
  ((c =? 46) || (c =? 33) || (c =? 63))%N.

(** A text without a sentence break: no whitespace follows a full stop,
    an exclamation mark or a question mark. *)
Definition no_sentence_break (s : text) : Prop :=
  forall pre c d post,
    s = pre ++ c :: d :: post -> sentence_end c = true ->
    Py.isspace d = false.

(** A binary64 value whose sign bit is clear, or that is not a number. *)
Definition sign_clear (f : spec_float) : Prop :=
  match f with
  | S754_nan => True
  | S754_zero s | S754_infinity s | S754_finite s _ _ => s = false
  end.

(** The fields of a [datetime] within the ranges of the calendar, the
    year written with four digits. *)
Definition calendar_fields (d : datetime) : Prop :=
  four_digit_year (year d) /\
  1 <= month d <= 12 /\ 1 <= day d <= 31 /\
  hour d < 24 /\ minute d < 60 /\ second d < 60.

(** The path under which a thought saved at the time [d] is written. *)
Definition thought_path (d : datetime) : string :=
  (Storage.PRIVATE_DIR +:+ "/"
   +:+ ("private_thought_" +:+ Storage.strftime d +:+ ".enc"))%string.

(** [grows w w']: the world [w'] is [w] after more thoughts were stored.
    The key file is as it was, the count of reads has not gone back, no
    file has disappeared, and every file that is not an [.enc] entry of
    the private directory is unchanged. *)
Definition grows (w w' : World) : Prop :=
  key_file w' = key_file w /\
  ticks w <= ticks w' /\
  (forall p, is_Some (files w !! p) -> is_Some (files w' !! p)) /\
  (forall p, Storage.glob_enc p = false -> files w' !! p = files w !! p).

(** ** Where the segmenter splits *)

(** [separated gap before s pieces]: the text [s], which stands after
    [before], is the [pieces] in order with a gap between each two of
    them; [gap pre g] says what a gap [g] may be where [pre] is all the
    text that precedes it. *)
Inductive separated (gap : text -> text -> Prop)
  : text -> text -> list text -> Prop :=
| separated_last (before p : text) : separated gap before p [p]
| separated_cons (before p g rest : text) (pieces : list text) :
    gap (before ++ p) g ->
    separated gap (before ++ p ++ g) rest pieces ->
    separated gap before (p ++ g ++ rest) (p :: pieces).

(** A blank-line boundary: a newline, whitespace if any, a newline. *)
Definition paragraph_gap (pre g : text) : Prop :=
  exists mid, g = [10%N] ++ mid ++ [10%N] /\ Forall is_space mid.

(** Whitespace that follows a full stop, an exclamation mark or a
    question mark. *)
Definition sentence_gap (pre g : text) : Prop :=
  g <> [] /\ Forall is_space g /\
  exists pre' c, pre = pre' ++ [c] /\ sentence_end c = true.

(** The pieces that are kept: those that are not blank, trimmed. *)
Definition kept (pieces : list text) : list text :=
  map Py.strip
      (List.filter (fun s => negb (Nat.eqb (length (Py.strip s)) 0)) pieces).

(** ** The archive, as the specification words it *)

Section ArchiveSpec.

Variable os_urandom : nat -> nat -> bytes.
Variable aes_encrypt_block : bytes -> bytes -> bytes.
Variable datetime_now : nat -> datetime.
Variable time_time : nat -> float.

(** Modelled from the spec: the blob of a payload is "IV || ciphertext",
    the ciphertext being the CBC encryption of the PKCS#7-padded payload;
    the IV is the [t]-th read of the entropy source. *)
Definition blob_at (k : bytes) (t : nat) (payload : bytes) : bytes :=
  let iv := os_urandom t 16 in
  iv ++ concat (Encryption.cbc_encrypt_blocks aes_encrypt_block k iv
                  (Encryption.chunks
                     (length (Encryption.pkcs7_pad payload))
                     (Encryption.pkcs7_pad payload))).

(** Modelled from the spec: archiving one payload when the counter stands
    at [n] takes three readings, the entropy source for the IV, the
    clock for the file name and the clock for the timestamp; the blob is
    written under the name of its second, and the record gives the
    counter, the timestamp, the path and the length of the blob. *)
Definition archive_one (k : bytes) (payload : bytes) (n : nat) (w : World)
  : thought_metadata * World :=
  let blob := blob_at k (ticks w) payload in
  let path := thought_path (datetime_now (S (ticks w))) in
  (mkMetadata n (time_time (S (S (ticks w)))) path (length blob) true,
   mkWorld (key_file w) (<[path := blob]> (files w))
           (S (S (S (ticks w))))).

(** Modelled from the spec: archiving the payloads one after the other,
    the counter moving by one each time. *)
Fixpoint archive (k : bytes) (payloads : list bytes) (n : nat) (w : World)
  : list thought_metadata * World :=
  match payloads with
  | [] => ([], w)
  | payload :: rest =>
    let '(md, w1) := archive_one k payload n w in
    let '(records, w') := archive k rest (S n) w1 in
    (md :: records, w')
  end.

End ArchiveSpec.

(** The UTF-8 encodings of the texts. *)
Definition encoded (thoughts : list text) (payloads : list bytes) : Prop :=
  Forall2 (fun thought payload => Py.encode_utf8 thought = Ok payload)
          thoughts payloads.

(** ** Several calls on one agent *)

Section Calls.

Variable isalnum : N -> bool.
Variable os_urandom : nat -> nat -> bytes.
Variable aes_encrypt_block : bytes -> bytes -> bytes.
Variable datetime_now : nat -> datetime.
Variable time_time : nat -> float.

(** A caller that hands the messages to [process_message] of one agent,
    one after the other, and goes on when a call raises: the outcome of
    each call, in order, and the agent and the world after the last. *)
Fixpoint successive_calls (self : SecretAgent) (messages : list text)
         (w : World)
  : list (result (text * list thought_metadata)) * SecretAgent * World :=
  match messages with
  | [] => ([], self, w)
  | message :: rest =>
    let '(outcome, self, w) :=
      Agent.process_message isalnum os_urandom aes_encrypt_block
                            datetime_now time_time self message w in
    let '(outcomes, self, w) := successive_calls self rest w in
    (outcome :: outcomes, self, w)
  end.

End Calls.

(** The records that the calls returned, in order. *)
Definition records_of
           (outcomes : list (result (text * list thought_metadata)))
  : list thought_metadata :=
  concat (map (fun outcome =>
                 match outcome with
                 | Ok (_, records) => records
                 | Raise _ => []
                 end) outcomes).

(** No call raised. *)
Definition all_returned
           (outcomes : list (result (text * list thought_metadata)))
  : bool :=
  forallb (fun outcome =>
             match outcome with Ok _ => true | Raise _ => false end)
          outcomes.

(** ** Further instances *)

(** The world after a first start from [empty_world] with [zero_entropy]:
    the key file holds the base64 text of thirty-two zero bytes. *)
Definition world_after_first_start : World :=
  mkWorld (Some (list_byte_of_string
                   "AAAAAAAAAAAAAAAAAAAAAAAAAAAAAAAAAAAAAAAAAAA="))
          ∅ 1.

(** A clock that advances by one second at each reading. *)
Definition later_now : nat -> datetime :=
  fun t => mkDatetime 2024 3 9 14 5 (t mod 60).

(** Two private paragraphs, the second with a lone surrogate. *)
Definition half_stored : text :=
  lit "my first secret" ++ [10%N; 10%N] ++ lit "my second secret "
  ++ [0xD800%N].

(** * Properties *)

(** ** Lists *)

Lemma forallb_Forall_iff {A : Type} (f : A -> bool) (l : list A) :
  forallb f l = true <-> Forall (fun x => f x = true) l.
Proof.
  induction l as [|x l IH]; cbn [forallb].
  - split; [constructor | reflexivity].
  - rewrite andb_true_iff, IH. split.
    + intros [Hx Hl]. now constructor.
    + intros H. inversion H; subst. now split.
Qed.

(** A property checked on every number below [n] holds below [n]. *)
Lemma N_forall_below (n : nat) (P : N -> bool) :
  forallb P (map N.of_nat (seq 0 n)) = true ->
  forall x, (x < N.of_nat n)%N -> P x = true.
Proof.
  intros H x Hx. rewrite forallb_forall in H. apply H.
  rewrite <- (N2Nat.id x). apply in_map. apply in_seq. lia.
Qed.

(** ** Bytes and blocks *)

Lemma to_N_byte_of_N (n : N) : Byte.to_N (byte_of_N n) = (n mod 256)%N.
Proof.
  unfold byte_of_N.
  destruct (Byte.of_N (n mod 256)) as [b|] eqn:E.
  - now apply Byte.to_of_N.
  - apply Byte.of_N_None_iff in E.
    pose proof (N.mod_upper_bound n 256). lia.
Qed.

Lemma to_nat_byte_of_nat (k : nat) :
  k < 256 -> N.to_nat (Byte.to_N (byte_of_nat k)) = k.
Proof.
  intros Hk. unfold byte_of_nat. rewrite to_N_byte_of_N.
  rewrite N.mod_small by lia. lia.
Qed.

Lemma byte_xor_cancel (a b : byte) : byte_xor (byte_xor a b) b = a.
Proof.
  unfold byte_xor.
  destruct (Byte.to_bits a)
    as [a0 [a1 [a2 [a3 [a4 [a5 [a6 a7]]]]]]] eqn:Ea.
  destruct (Byte.to_bits b)
    as [b0 [b1 [b2 [b3 [b4 [b5 [b6 b7]]]]]]] eqn:Eb.
  rewrite Byte.to_bits_of_bits.
  rewrite !xorb_assoc, !xorb_nilpotent, !xorb_false_r.
  rewrite <- Ea. apply Byte.of_bits_to_bits.
Qed.

Lemma xor_bytes_length (a b : bytes) :
  length a = length b -> length (xor_bytes a b) = length a.
Proof. intros H. unfold xor_bytes. rewrite length_zip_with. lia. Qed.

Lemma xor_bytes_cancel (a b : bytes) :
  length a = length b -> xor_bytes (xor_bytes a b) b = a.
Proof.
  unfold xor_bytes. revert b.
  induction a as [|x a IH]; intros [|y b] Hlen; simpl in *; try discriminate.
  - reflexivity.
  - rewrite byte_xor_cancel. f_equal. apply IH. lia.
Qed.

Section Blocks.

Import Encryption.

Lemma pkcs7_pad_shape (data : bytes) :
  exists k,
    1 <= k <= BLOCK /\
    pkcs7_pad data = data ++ repeat (byte_of_nat k) k /\
    (length data + k) mod BLOCK = 0 /\
    (length data mod BLOCK = 0 -> k = BLOCK).
Proof.
  unfold pkcs7_pad, BLOCK.
  pose proof (Nat.mod_upper_bound (length data) 16 ltac:(lia)) as Hlt.
  exists (16 - length data mod 16).
  repeat split; try lia.
  pose proof (Nat.div_mod_eq (length data) 16) as Hdm.
  replace (length data + (16 - length data mod 16))
    with ((1 + length data / 16) * 16) by lia.
  apply Nat.Div0.mod_mul.
Qed.

Lemma pkcs7_pad_length (data : bytes) :
  length (pkcs7_pad data) = BLOCK * (length data / BLOCK + 1).
Proof.
  unfold pkcs7_pad, BLOCK. rewrite length_app, repeat_length.
  pose proof (Nat.mod_upper_bound (length data) 16 ltac:(lia)).
  pose proof (Nat.div_mod_eq (length data) 16). lia.
Qed.

Lemma pkcs7_pad_aligned (data : bytes) :
  length (pkcs7_pad data) mod BLOCK = 0.
Proof.
  rewrite pkcs7_pad_length, Nat.mul_comm. apply Nat.Div0.mod_mul.
Qed.

Lemma chunks_concat (blocks : list bytes) (fuel : nat) :
  Forall (fun b => length b = BLOCK) blocks ->
  length blocks <= fuel ->
  chunks fuel (concat blocks) = blocks.
Proof.
  revert fuel.
  induction blocks as [|b blocks IH]; intros fuel Hall Hfuel.
  - destruct fuel; reflexivity.
  - inversion Hall as [|? ? Hb Hrest]; subst.
    destruct fuel as [|fuel]; [simpl in Hfuel; lia |].
    simpl. destruct (b ++ concat blocks) eqn:E.
    + destruct b; [discriminate Hb | discriminate E].
    + rewrite <- E.
      rewrite take_app_length' by (symmetry; exact Hb).
      rewrite drop_app_length' by (symmetry; exact Hb).
      f_equal. apply IH; [assumption | simpl in Hfuel; lia].
Qed.

Lemma concat_chunks (fuel : nat) (data : bytes) :
  length data <= fuel -> concat (chunks fuel data) = data.
Proof.
  revert data. induction fuel as [|fuel IH]; intros data Hlen.
  - destruct data; [reflexivity | simpl in Hlen; lia].
  - destruct data as [|x data]; [reflexivity |].
    remember (x :: data) as d eqn:Ed.
    assert (chunks (S fuel) d = take BLOCK d :: chunks fuel (drop BLOCK d))
      as -> by (subst d; reflexivity).
    cbn [concat]. rewrite IH.
    + apply take_drop.
    + rewrite length_drop. subst d. simpl in *. unfold BLOCK. lia.
Qed.

Lemma chunks_blocks (fuel : nat) (data : bytes) :
  length data mod BLOCK = 0 ->
  Forall (fun b => length b = BLOCK) (chunks fuel data).
Proof.
  revert data. induction fuel as [|fuel IH]; intros data Hmod.
  - constructor.
  - destruct data as [|x data]; [constructor |].
    remember (x :: data) as d eqn:Ed.
    assert (chunks (S fuel) d = take BLOCK d :: chunks fuel (drop BLOCK d))
      as -> by (subst d; reflexivity).
    assert (Hpos : 0 < length d) by (subst d; simpl; lia).
    clear Ed.
    assert (Hge : BLOCK <= length d).
    { unfold BLOCK in *.
      pose proof (Nat.div_mod_eq (length d) 16).
      destruct (length d / 16) eqn:Eq; lia. }
    constructor.
    + rewrite length_take. lia.
    + apply IH. rewrite length_drop.
      unfold BLOCK in *.
      pose proof (Nat.div_mod_eq (length d) 16) as Hdm.
      rewrite Hmod in Hdm.
      replace (length d - 16) with ((length d / 16 - 1) * 16) by lia.
      apply Nat.Div0.mod_mul.
Qed.

End Blocks.

(** ** The cipher *)

Section CipherProperties.

Import Encryption.

Variable os_urandom : nat -> nat -> bytes.
Variable E D : bytes -> bytes -> bytes.

(** [os.urandom(n)] returns [n] bytes. *)
Hypothesis os_urandom_length : forall t n, length (os_urandom t n) = n.
(** AES maps 16-byte blocks to 16-byte blocks, and deciphering undoes
    enciphering under the same key. *)
Hypothesis E_length : forall k b, length b = BLOCK -> length (E k b) = BLOCK.
Hypothesis D_E : forall k b, length b = BLOCK -> D k (E k b) = b.

Lemma cbc_encrypt_blocks_shape (key prev : bytes) (blocks : list bytes) :
  length prev = BLOCK ->
  Forall (fun b => length b = BLOCK) blocks ->
  Forall (fun b => length b = BLOCK) (cbc_encrypt_blocks E key prev blocks)
  /\ length (cbc_encrypt_blocks E key prev blocks) = length blocks.
Proof using E_length.
  revert prev.
  induction blocks as [|p blocks IH]; intros prev Hprev Hall; simpl.
  - split; [constructor | reflexivity].
  - inversion Hall as [|? ? Hp Hrest]; subst.
    assert (Hc : length (E key (xor_bytes p prev)) = BLOCK).
    { apply E_length. rewrite xor_bytes_length; congruence. }
    destruct (IH _ Hc Hrest) as [IH1 IH2].
    split; [constructor; assumption | now rewrite IH2].
Qed.

(** The chaining equations of CBC: block [i] of the ciphertext is the
    encipherment of plaintext block [i] xored with ciphertext block
    [i-1], or with the IV when [i = 0]. *)
Lemma cbc_chain (key iv : bytes) (blocks : list bytes) (i : nat) :
  i < length blocks ->
  nth i (cbc_encrypt_blocks E key iv blocks) [] =
  E key (xor_bytes (nth i blocks [])
           (match i with
            | 0 => iv
            | S j => nth j (cbc_encrypt_blocks E key iv blocks) []
            end)).
Proof.
  revert iv i.
  induction blocks as [|p blocks IH]; intros iv i Hi; simpl in Hi; [lia |].
  destruct i as [|[|i]]; simpl.
  - reflexivity.
  - destruct blocks; [simpl in Hi; lia | reflexivity].
  - rewrite (IH _ (S i)) by lia. reflexivity.
Qed.

Lemma cbc_blocks_roundtrip (key prev : bytes) (blocks : list bytes) :
  length prev = BLOCK ->
  Forall (fun b => length b = BLOCK) blocks ->
  cbc_decrypt_blocks D key prev (cbc_encrypt_blocks E key prev blocks)
  = blocks.
Proof using E_length D_E.
  revert prev.
  induction blocks as [|p blocks IH]; intros prev Hprev Hall; simpl.
  - reflexivity.
  - inversion Hall as [|? ? Hp Hrest]; subst.
    assert (Hx : length (xor_bytes p prev) = BLOCK)
      by (rewrite xor_bytes_length; congruence).
    rewrite D_E by exact Hx.
    rewrite xor_bytes_cancel by congruence.
    f_equal. apply IH; [now apply E_length | assumption].
Qed.

Lemma last_app_repeat (data : bytes) (b : byte) (k : nat) :
  1 <= k -> last (data ++ repeat b k) = Some b.
Proof.
  intros Hk. destruct k as [|k]; [lia |].
  replace (repeat b (S k)) with (repeat b k ++ [b]).
  - rewrite app_assoc. apply last_snoc.
  - change [b] with (repeat b 1). rewrite <- repeat_app.
    f_equal. lia.
Qed.

Lemma pkcs7_unpad_pad (data : bytes) :
  pkcs7_unpad (pkcs7_pad data) = Ok data.
Proof.
  pose proof (pkcs7_pad_aligned data) as Hal.
  destruct (pkcs7_pad_shape data) as (k & Hk & Hpad & _ & _).
  unfold pkcs7_unpad. rewrite Hal. rewrite Hpad in *.
  rewrite last_app_repeat by lia.
  unfold BLOCK in *.
  rewrite to_nat_byte_of_nat by lia.
  rewrite length_app, repeat_length.
  replace (length data + k - k) with (length data) by lia.
  rewrite drop_app_length, take_app_length.
  replace (1 <=? k) with true by (symmetry; apply Nat.leb_le; lia).
  replace (k <=? 16) with true by (symmetry; apply Nat.leb_le; lia).
  replace (k <=? length data + k) with true
    by (symmetry; apply Nat.leb_le; lia).
  simpl.
  replace (forallb (Byte.eqb (byte_of_nat k)) (repeat (byte_of_nat k) k))
    with true; [reflexivity |].
  symmetry. apply forallb_forall. intros x Hx.
  apply repeat_spec in Hx. subst x. apply Byte.byte_dec_lb. reflexivity.
Qed.

(** What [encrypt] returns on a byte payload, under a key AES accepts. *)
Lemma encrypt_bytes_eq (key p : bytes) (w : World) :
  aes_key_check key = Ok tt ->
  encrypt os_urandom E key (PyBytes p) w =
  (Ok (os_urandom (ticks w) 16
       ++ concat (cbc_encrypt_blocks E key (os_urandom (ticks w) 16)
                    (chunks (length (pkcs7_pad p)) (pkcs7_pad p)))),
   tick w).
Proof.
  intros Hkey. unfold encrypt, cbc_encrypt.
  rewrite Hkey, pkcs7_pad_aligned. reflexivity.
Qed.

Lemma concat_blocks_length (blocks : list bytes) :
  Forall (fun b => length b = BLOCK) blocks ->
  length (concat blocks) = BLOCK * length blocks.
Proof.
  unfold BLOCK.
  induction 1 as [|b blocks Hb _ IH]; simpl; [lia |].
  rewrite length_app, IH, Hb. lia.
Qed.

Lemma blob_length (key p : bytes) (w : World) :
  length (os_urandom (ticks w) 16
          ++ concat (cbc_encrypt_blocks E key (os_urandom (ticks w) 16)
                       (chunks (length (pkcs7_pad p)) (pkcs7_pad p))))
  = 16 + 16 * (length p / 16 + 1).
Proof using os_urandom_length E_length.
  rewrite length_app, os_urandom_length.
  destruct (cbc_encrypt_blocks_shape key (os_urandom (ticks w) 16)
              (chunks (length (pkcs7_pad p)) (pkcs7_pad p)))
    as [Hall Hcount].
  - apply os_urandom_length.
  - apply chunks_blocks, pkcs7_pad_aligned.
  - rewrite (concat_blocks_length _ Hall), Hcount.
    rewrite <- (concat_blocks_length (chunks _ (pkcs7_pad p)))
      by (apply chunks_blocks, pkcs7_pad_aligned).
    rewrite concat_chunks by lia.
    rewrite pkcs7_pad_length. reflexivity.
Qed.

(** C5: under a key that AES accepts, [encrypt] returns the 16-byte IV
    followed by the CBC encryption of the PKCS#7-padded plaintext; the
    padding is [k] bytes of value [k] with [1 <= k <= 16] (a whole block
    on a block boundary), so the blob has [16 + 16 * (n / 16 + 1)] bytes,
    a multiple of 16 that is at least 32. *)
Theorem encrypt_blob_layout :
  forall (key p : bytes) (w : World),
    aes_key_check key = Ok tt ->
    exists (k : nat) (blob : bytes),
      let iv := os_urandom (ticks w) 16 in
      let padded := p ++ repeat (byte_of_nat k) k in
      let blocks := chunks (length padded) padded in
      let encrypted := cbc_encrypt_blocks E key iv blocks in
      1 <= k <= 16 /\
      (length p mod 16 = 0 -> k = 16) /\
      length padded mod 16 = 0 /\
      concat blocks = padded /\
      (forall i, i < length blocks ->
         nth i encrypted [] =
         E key (xor_bytes (nth i blocks [])
                  (match i with
                   | 0 => iv
                   | S j => nth j encrypted []
                   end))) /\
      encrypt os_urandom E key (PyBytes p) w = (Ok blob, tick w) /\
      blob = iv ++ concat encrypted /\
      length iv = 16 /\
      length blob = 16 + 16 * (length p / 16 + 1) /\
      length blob mod 16 = 0 /\
      32 <= length blob.
Proof using os_urandom_length E_length.
  intros key p w Hkey.
  destruct (pkcs7_pad_shape p) as (k & Hk & Hpad & Hal & Hfull).
  unfold BLOCK in *.
  eexists k, _. cbn zeta.
  rewrite <- Hpad.
  split; [exact Hk |]. split; [exact Hfull |].
  split; [apply pkcs7_pad_aligned |].
  split; [apply concat_chunks; lia |].
  split; [intros i Hi; now apply cbc_chain |].
  split; [apply encrypt_bytes_eq; exact Hkey |].
  split; [reflexivity |].
  split; [apply os_urandom_length |].
  split; [apply blob_length |].
  rewrite blob_length. split.
  - replace (16 + 16 * (length p / 16 + 1))
      with ((length p / 16 + 2) * 16) by lia.
    apply Nat.Div0.mod_mul.
  - lia.
Qed.

(** C8: decrypting what [encrypt] produced gives the plaintext back, for
    every byte payload: the empty one and whole-block payloads included. *)
Theorem decrypt_encrypt_roundtrip :
  forall (key p : bytes) (w : World),
    aes_key_check key = Ok tt ->
    exists blob,
      fst (encrypt os_urandom E key (PyBytes p) w) = Ok blob /\
      decrypt D key blob = Ok p.
Proof using os_urandom_length E_length D_E.
  intros key p w Hkey.
  eexists. rewrite encrypt_bytes_eq by exact Hkey.
  split; [reflexivity |].
  set (iv := os_urandom (ticks w) 16).
  set (blocks := chunks (length (pkcs7_pad p)) (pkcs7_pad p)).
  assert (Hiv : length iv = 16) by apply os_urandom_length.
  assert (Hblocks : Forall (fun b => length b = BLOCK) blocks)
    by apply chunks_blocks, pkcs7_pad_aligned.
  destruct (cbc_encrypt_blocks_shape key iv blocks Hiv Hblocks)
    as [Hall Hcount].
  set (ct := concat (cbc_encrypt_blocks E key iv blocks)).
  assert (Htake : take 16 (iv ++ ct) = iv)
    by (rewrite <- Hiv; apply take_app_length).
  assert (Hdrop : drop 16 (iv ++ ct) = ct)
    by (rewrite <- Hiv; apply drop_app_length).
  unfold decrypt. rewrite Hkey. cbn [rbind]. cbv zeta.
  rewrite Htake, Hdrop. unfold ct.
  rewrite (concat_blocks_length _ Hall).
  replace (BLOCK * length (cbc_encrypt_blocks E key iv blocks) mod BLOCK)
    with 0
    by (rewrite Nat.mul_comm; symmetry; apply Nat.Div0.mod_mul).
  cbn [Nat.eqb].
  rewrite chunks_concat; [| exact Hall | unfold BLOCK; lia].
  rewrite cbc_blocks_roundtrip by assumption.
  unfold blocks. rewrite concat_chunks by lia.
  apply pkcs7_unpad_pad.
Qed.

End CipherProperties.

Lemma zero_entropy_length (t n : nat) : length (zero_entropy t n) = n.
Proof. apply repeat_length. Qed.

Lemma toy_block_length (k b : bytes) :
  length b = Encryption.BLOCK -> length (toy_block k b) = Encryption.BLOCK.
Proof. intros H. unfold toy_block. now rewrite length_map. Qed.

Lemma toy_block_inverse (k b : bytes) :
  length b = Encryption.BLOCK -> toy_block k (toy_block k b) = b.
Proof.
  intros _. unfold toy_block. rewrite map_map.
  rewrite <- (map_id b) at 2. apply map_ext. intros x. apply byte_xor_cancel.
Qed.

Lemma encrypt_blob_layout_witness :
  Encryption.aes_key_check key32 = Ok tt /\
  exists blob,
    fst (Encryption.encrypt zero_entropy toy_block key32
           (PyBytes [x68; x69]) empty_world) = Ok blob /\
    length blob = 32.
Proof.
  split; [reflexivity |].
  destruct (encrypt_blob_layout zero_entropy toy_block
              zero_entropy_length toy_block_length
              key32 [x68; x69] empty_world eq_refl)
    as (k & blob & _ & _ & _ & _ & _ & Henc & _ & _ & Hlen & _).
  exists blob. split; [now rewrite Henc | exact Hlen].
Defined.

Lemma decrypt_encrypt_roundtrip_witness :
  Encryption.aes_key_check key32 = Ok tt /\
  exists blob,
    fst (Encryption.encrypt zero_entropy toy_block key32
           (PyBytes (repeat x41 16)) empty_world) = Ok blob /\
    Encryption.decrypt toy_block key32 blob = Ok (repeat x41 16).
Proof.
  split; [reflexivity |].
  exact (decrypt_encrypt_roundtrip zero_entropy toy_block toy_block
           zero_entropy_length toy_block_length toy_block_inverse
           key32 (repeat x41 16) empty_world eq_refl).
Defined.

(** ** Text payloads *)

Lemma utf8_char_scalar (c : N) :
  Py.scalar_value c = true -> exists bs, Py.utf8_char c = Ok bs.
Proof.
  unfold Py.scalar_value, Py.utf8_char. intros H.
  apply andb_prop in H as [Hmax Hsur].
  destruct (c <? 0x80)%N; [eauto |].
  destruct (c <? 0x800)%N; [eauto |].
  destruct (c <? 0x10000)%N.
  - destruct ((0xD800 <=? c) && (c <=? 0xDFFF))%N; [discriminate | eauto].
  - rewrite Hmax. eauto.
Qed.

Lemma encode_utf8_scalar (s : text) :
  forallb Py.scalar_value s = true -> exists b, Py.encode_utf8 s = Ok b.
Proof.
  induction s as [|c s IH]; simpl; intros H; [eauto |].
  apply andb_prop in H as [Hc Hs].
  destruct (utf8_char_scalar c Hc) as [bs ->].
  destruct (IH Hs) as [b ->]. simpl. eauto.
Qed.

Lemma encrypt_str_as_bytes os_urandom E (key : bytes) (s : text) (b : bytes)
      (w : World) :
  Py.encode_utf8 s = Ok b ->
  Encryption.encrypt os_urandom E key (PyStr s) w
  = Encryption.encrypt os_urandom E key (PyBytes b) w.
Proof. intros Hb. unfold Encryption.encrypt. now rewrite Hb. Qed.

Lemma encrypt_str_ok os_urandom E (key : bytes) (s : text) (w : World) :
  Encryption.aes_key_check key = Ok tt ->
  forallb Py.scalar_value s = true ->
  exists blob,
    Encryption.encrypt os_urandom E key (PyStr s) w = (Ok blob, tick w).
Proof.
  intros Hkey Hs. destruct (encode_utf8_scalar s Hs) as [b Hb].
  eexists. rewrite (encrypt_str_as_bytes _ _ _ _ _ _ Hb).
  apply encrypt_bytes_eq. exact Hkey.
Qed.

(** ** The matcher *)

Section MatcherProperties.

Variable isalnum : N -> bool.

Local Notation "'matches'" := (matches isalnum).

Lemma matches_consumes (P : N -> Prop) (r : regex) (b s a : text) :
  matches r b s a -> consumes P r -> Forall P s.
Proof.
  induction 1 as [| p c b a Hp | r1 r2 b s1 s2 a _ IH1 _ IH2
                  | r1 r2 b s a _ IH | r1 r2 b s a _ IH
                  | | r b s1 s2 a _ IH1 _ IH2 | | ];
    cbn [consumes]; intros HP; try constructor; auto.
  - destruct HP. apply Forall_app; auto.
  - apply IH, HP.
  - apply IH, HP.
  - apply Forall_app; auto.
Qed.

Lemma matches_min_length (r : regex) (b s a : text) :
  matches r b s a -> min_length r <= length s.
Proof.
  induction 1; cbn [min_length length]; rewrite ?length_app; lia.
Qed.

(** Soundness: a successful run of the matcher consumed a match of the
    pattern and continued after it. *)
Lemma m_sound (r : regex) :
  forall (A : Type) (b a : text) (k : text -> text -> option A) (x : A),
    Re.m isalnum r b a k = Some x ->
    exists s a',
      a = s ++ a' /\ matches r b s a' /\ k (rev s ++ b) a' = Some x.
Proof.
  induction r as [|p|r1 IH1 r2 IH2|r1 IH1 r2 IH2|r1 IH1| |p];
    intros A b a k x H; cbn [Re.m] in H.
  - exists [], a. repeat split; [constructor | exact H].
  - destruct a as [|c a']; [discriminate |].
    destruct (p c) eqn:Hp; [| discriminate].
    exists [c], a'. repeat split; [now constructor | exact H].
  - apply IH1 in H as (s1 & a1 & -> & H1 & H).
    apply IH2 in H as (s2 & a2 & -> & H2 & H).
    exists (s1 ++ s2), a2.
    rewrite rev_app_distr, <- !app_assoc.
    repeat split; [now constructor | exact H].
  - destruct (Re.m isalnum r1 b a k) eqn:E1.
    + injection H as ->. apply IH1 in E1 as (s & a' & -> & H1 & H).
      exists s, a'. repeat split; [now apply matches_alt_l | exact H].
    + apply IH2 in H as (s & a' & -> & H2 & H).
      exists s, a'. repeat split; [now apply matches_alt_r | exact H].
  - revert H. generalize (length a) as fuel. intros fuel. revert b a.
    induction fuel as [|fuel IHf]; intros b a H; cbn [Re.star_loop] in H.
    + exists [], a. repeat split; [constructor | exact H].
    + match type of H with
      | match ?M with _ => _ end = _ => destruct M eqn:E1
      end.
      * injection H as ->.
        apply IH1 in E1 as (s1 & a1 & -> & H1 & E1).
        destruct (length a1 <? length (s1 ++ a1)); [| discriminate].
        apply IHf in E1 as (s2 & a2 & -> & H2 & E1).
        exists (s1 ++ s2), a2.
        rewrite rev_app_distr, <- !app_assoc.
        repeat split; [now constructor | exact E1].
      * exists [], a. repeat split; [constructor | exact H].
  - destruct (Re.at_boundary isalnum b a) eqn:Hb; [| discriminate].
    exists [], a. repeat split; [now constructor | exact H].
  - destruct b as [|c b']; [discriminate |].
    destruct (p c) eqn:Hp; [| discriminate].
    exists [], a. repeat split; [now constructor | exact H].
Qed.

Lemma match_at_matches (r : regex) (b a : text) (n : nat) :
  Re.match_at isalnum r b a = Some n ->
  n <= length a /\ matches r b (take n a) (drop n a).
Proof.
  intros H. unfold Re.match_at in H.
  apply m_sound in H as (s & a' & -> & Hs & H).
  injection H as <-. rewrite length_app.
  replace (length s + length a' - length a') with (length s) by lia.
  split; [lia |]. now rewrite take_app_length, drop_app_length.
Qed.

Lemma match_at_sound (P : N -> Prop) (r : regex) (b a : text) (n : nat) :
  consumes P r ->
  Re.match_at isalnum r b a = Some n ->
  n <= length a /\ min_length r <= n /\ Forall P (take n a).
Proof.
  intros HP H. apply match_at_matches in H as [Hle H].
  split; [exact Hle |]. split.
  - apply matches_min_length in H. rewrite length_take in H. lia.
  - eapply matches_consumes; eauto.
Qed.

(** The matcher looks at its continuation only through its results. *)
Lemma star_loop_ext {A : Type}
      (step : text -> text -> (text -> text -> option A) -> option A)
      (k1 k2 : text -> text -> option A) :
  (forall b a k k', (forall b' a', k b' a' = k' b' a') ->
                    step b a k = step b a k') ->
  (forall b a, k1 b a = k2 b a) ->
  forall fuel b a,
    Re.star_loop step k1 fuel b a = Re.star_loop step k2 fuel b a.
Proof.
  intros Hstep Hk. induction fuel as [|fuel IH]; intros b a;
    cbn [Re.star_loop]; [apply Hk |].
  rewrite (Hstep b a _ (fun b' a' =>
                          if length a' <? length a
                          then Re.star_loop step k2 fuel b' a'
                          else None)).
  - now rewrite Hk.
  - intros b' a'. now rewrite IH.
Qed.

Lemma m_ext (r : regex) :
  forall (A : Type) (b a : text) (k k' : text -> text -> option A),
    (forall b' a', k b' a' = k' b' a') ->
    Re.m isalnum r b a k = Re.m isalnum r b a k'.
Proof.
  induction r as [|p|r1 IH1 r2 IH2|r1 IH1 r2 IH2|r1 IH1| |p];
    intros A b a k k' Hk; cbn [Re.m].
  - apply Hk.
  - destruct a as [|c a']; [reflexivity |].
    destruct (p c); [apply Hk | reflexivity].
  - apply IH1. intros b' a'. now apply IH2.
  - now rewrite (IH1 _ b a k k' Hk), (IH2 _ b a k k' Hk).
  - apply star_loop_ext; [| exact Hk].
    intros b0 a0 k0 k0' H0. now apply IH1.
  - destruct (Re.at_boundary isalnum b a); [apply Hk | reflexivity].
  - destruct b as [|c b']; [reflexivity |].
    destruct (p c); [apply Hk | reflexivity].
Qed.

Lemma m_none (r : regex) :
  forall (A : Type) (b a : text),
    Re.m isalnum r b a (fun _ _ => @None A) = None.
Proof.
  induction r as [|p|r1 IH1 r2 IH2|r1 IH1 r2 IH2|r1 IH1| |p];
    intros A b a; cbn [Re.m]; try reflexivity.
  - destruct a as [|c a']; [reflexivity |]. now destruct (p c).
  - rewrite (m_ext r1 _ b a _ (fun _ _ => None)); [apply IH1 |].
    intros b' a'. apply IH2.
  - now rewrite IH1, IH2.
  - generalize (length a) as fuel. intros fuel. revert b a.
    induction fuel as [|fuel IHf]; intros b a; cbn [Re.star_loop];
      [reflexivity |].
    rewrite (m_ext r1 _ b a _ (fun _ _ => None)); [now rewrite IH1 |].
    intros b' a'. destruct (length a' <? length a); [apply IHf | reflexivity].
  - now destruct (Re.at_boundary isalnum b a).
  - destruct b as [|c b']; [reflexivity |]. now destruct (p c).
Qed.

(** Beyond the number of characters left, fuel makes no difference. *)
Lemma star_loop_fuel {A : Type} (r : regex) (k : text -> text -> option A) :
  forall f1 f2 b a,
    length a <= f1 -> length a <= f2 ->
    Re.star_loop (fun b a k' => Re.m isalnum r b a k') k f1 b a
    = Re.star_loop (fun b a k' => Re.m isalnum r b a k') k f2 b a.
Proof.
  assert (Hzero : forall f b,
             Re.star_loop (fun b a k' => Re.m isalnum r b a k') k f b []
             = k b []).
  { intros [|f] b; cbn [Re.star_loop]; [reflexivity |].
    rewrite (m_ext r _ b [] _ (fun _ _ => None)); [now rewrite m_none |].
    intros b' a'. cbn [length].
    destruct (Nat.ltb_spec (length a') 0); [lia | reflexivity]. }
  induction f1 as [|f1 IH]; intros f2 b a H1 H2.
  - destruct a; [| cbn in H1; lia]. now rewrite !Hzero.
  - destruct f2 as [|f2].
    + destruct a; [| cbn in H2; lia]. now rewrite !Hzero.
    + cbn [Re.star_loop].
      rewrite (m_ext r _ b a _
                 (fun b' a' =>
                    if length a' <? length a
                    then Re.star_loop (fun b a k' => Re.m isalnum r b a k')
                                      k f2 b' a'
                    else None)); [reflexivity |].
      intros b' a'. destruct (Nat.ltb_spec (length a') (length a));
        [apply IH; lia | reflexivity].
Qed.

(** Completeness: where the pattern has a match after which the
    continuation succeeds, the matcher succeeds. *)
Lemma m_complete (r : regex) (b s a : text) :
  matches r b s a ->
  forall (A : Type) (k : text -> text -> option A),
    (exists y, k (rev s ++ b) a = Some y) ->
    exists x, Re.m isalnum r b (s ++ a) k = Some x.
Proof.
  induction 1 as [b a | p c b a Hp | r1 r2 b s1 s2 a _ IH1 _ IH2
                  | r1 r2 b s a _ IH | r1 r2 b s a _ IH
                  | r b a | r b s1 s2 a _ IH1 _ IH2 | b a Hb | p c b a Hp];
    intros A k Hk; cbn [Re.m app rev] in *.
  - exact Hk.
  - now rewrite Hp.
  - rewrite <- app_assoc. apply IH1. apply IH2.
    now rewrite rev_app_distr, <- app_assoc in Hk.
  - destruct (IH _ k Hk) as [x ->]. eauto.
  - destruct (Re.m isalnum r1 b (s ++ a) k); [eauto | now apply IH].
  - destruct Hk as [y Hk].
    destruct (length a) as [|f]; cbn [Re.star_loop]; [eauto |].
    match goal with
    | |- exists _, match ?M with _ => _ end = _ => destruct M
    end; eauto.
  - destruct s1 as [|c s1]; [now apply IH2 |].
    rewrite rev_app_distr, <- app_assoc in Hk.
    destruct (IH2 _ k Hk) as [x Hx]. cbn [Re.m] in Hx.
    rewrite <- app_assoc.
    set (whole := (c :: s1) ++ s2 ++ a).
    assert (Hlen : length whole = S (length (s1 ++ s2 ++ a)))
      by reflexivity.
    rewrite Hlen. cbn [Re.star_loop].
    destruct (IH1 _ (fun b' a' =>
                       if length a' <? length whole
                       then Re.star_loop
                              (fun b a k' => Re.m isalnum r b a k') k
                              (length (s1 ++ s2 ++ a)) b' a'
                       else None)) as [x' Hx'].
    + exists x.
      replace (length (s2 ++ a) <? length whole) with true
        by (symmetry; apply Nat.ltb_lt; rewrite Hlen, !length_app; lia).
      rewrite <- Hx. apply star_loop_fuel; rewrite ?length_app; lia.
    + fold whole in Hx'. rewrite Hx'. eauto.
  - now rewrite Hb.
  - now rewrite Hp.
Qed.

Lemma search_from_eq (r : regex) (b a : text) :
  Re.search_from isalnum r b a
  = match Re.match_at isalnum r b a with
    | Some _ => true
    | None =>
      match a with
      | [] => false
      | c :: a' => Re.search_from isalnum r (c :: b) a'
      end
    end.
Proof. destruct a; reflexivity. Qed.

Lemma search_from_iff (r : regex) (a b : text) :
  Re.search_from isalnum r b a = true <->
  exists pre s post, a = pre ++ s ++ post /\ matches r (rev pre ++ b) s post.
Proof.
  split.
  - revert b. induction a as [|c a IH]; intros b H;
      rewrite search_from_eq in H;
      destruct (Re.match_at isalnum r b _) as [n|] eqn:Em;
      try discriminate.
    + apply match_at_matches in Em as [_ Em].
      exists [], (take n []), (drop n []). now rewrite take_drop.
    + apply match_at_matches in Em as [_ Em].
      exists [], (take n (c :: a)), (drop n (c :: a)).
      now rewrite take_drop.
    + apply IH in H as (pre & s & post & -> & H).
      exists (c :: pre), s, post. split; [reflexivity |].
      cbn [rev]. now rewrite <- app_assoc.
  - intros (pre & s & post & -> & H). revert b H.
    induction pre as [|c pre IH]; intros b H; rewrite search_from_eq.
    + destruct (m_complete r b s post H _
                  (fun _ a' => Some (length (s ++ post) - length a')))
        as [x Hx]; [eauto |].
      cbn [app]. unfold Re.match_at. now rewrite Hx.
    + destruct (Re.match_at isalnum r b _); [reflexivity |].
      cbn [app]. apply IH. cbn [rev] in H. now rewrite <- app_assoc in H.
Qed.

(** Every item that [findall] returns is a match of the pattern. *)
Lemma findall_from_matches (r : regex) (a b : text) (skip : nat) :
  Forall (fun s => exists b' a', matches r b' s a')
         (Re.findall_from isalnum r b a skip).
Proof.
  revert b skip. induction a as [|c a IH]; intros b skip;
    cbn [Re.findall_from]; [constructor |].
  destruct skip as [|n]; [| apply IH].
  destruct (Re.match_at isalnum r b (c :: a)) as [[|n]|] eqn:Em;
    try apply IH.
  constructor; [| apply IH].
  apply match_at_matches in Em as [_ Em]. eauto.
Qed.

(** [pattern.search(t)] finds a match exactly when the pattern has one
    somewhere in [t]. *)
Lemma search_iff (r : regex) (t : text) :
  Re.search isalnum r t = true <-> occurs isalnum r t.
Proof.
  unfold Re.search, occurs. rewrite search_from_iff.
  split; intros (pre & s & post & -> & H); exists pre, s, post;
    (split; [reflexivity |]); now rewrite app_nil_r in *.
Qed.

End MatcherProperties.

(** ** Whitespace *)

Lemma non_whitespace_app (s t : text) :
  non_whitespace (s ++ t) = non_whitespace s ++ non_whitespace t.
Proof. apply List.filter_app. Qed.

Lemma non_whitespace_spaces (s : text) :
  Forall is_space s -> non_whitespace s = [].
Proof.
  induction 1 as [|c s Hc _ IH]; [reflexivity |].
  unfold non_whitespace, is_space in *. simpl. now rewrite Hc.
Qed.

Lemma non_whitespace_rev (s : text) :
  non_whitespace (rev s) = rev (non_whitespace s).
Proof.
  induction s as [|c s IH]; [reflexivity |].
  simpl rev. rewrite non_whitespace_app, IH.
  unfold non_whitespace. simpl.
  destruct (Py.isspace c); simpl; [now rewrite app_nil_r | reflexivity].
Qed.

Lemma non_whitespace_lstrip (s : text) :
  non_whitespace (Py.lstrip s) = non_whitespace s.
Proof.
  induction s as [|c s IH]; [reflexivity |].
  cbn [Py.lstrip]. destruct (Py.isspace c) eqn:Hc; [| reflexivity].
  rewrite IH. unfold non_whitespace. cbn [List.filter]. now rewrite Hc.
Qed.

Lemma non_whitespace_strip (s : text) :
  non_whitespace (Py.strip s) = non_whitespace s.
Proof.
  unfold Py.strip, Py.rstrip.
  rewrite non_whitespace_rev, non_whitespace_lstrip, non_whitespace_rev.
  rewrite rev_involutive. apply non_whitespace_lstrip.
Qed.

Lemma lstrip_head (s : text) :
  Py.lstrip s = [] \/
  exists c s', Py.lstrip s = c :: s' /\ Py.isspace c = false.
Proof.
  induction s as [|c s IH]; [now left |].
  simpl. destruct (Py.isspace c) eqn:Hc; [exact IH |].
  right. eauto.
Qed.

Lemma lstrip_fixed (c : N) (s : text) :
  Py.isspace c = false -> Py.lstrip (c :: s) = c :: s.
Proof. intros H. simpl. now rewrite H. Qed.

Lemma lstrip_snoc (s : text) (c : N) :
  Py.isspace c = false -> Py.lstrip (s ++ [c]) = Py.lstrip s ++ [c].
Proof.
  intros Hc. induction s as [|d s IH]; simpl.
  - now rewrite Hc.
  - destruct (Py.isspace d); [exact IH | reflexivity].
Qed.

Lemma lstrip_idempotent (s : text) : Py.lstrip (Py.lstrip s) = Py.lstrip s.
Proof.
  destruct (lstrip_head s) as [-> | (c & s' & -> & Hc)];
    [reflexivity | now apply lstrip_fixed].
Qed.

Lemma strip_shape (s s' : text) (c : N) :
  Py.lstrip s = c :: s' -> Py.isspace c = false ->
  Py.strip s = c :: rev (Py.lstrip (rev s')).
Proof.
  intros E Hc. unfold Py.strip, Py.rstrip. rewrite E.
  cbn [rev]. rewrite (lstrip_snoc _ _ Hc), rev_app_distr. reflexivity.
Qed.

(** A stripped text is empty or starts and ends with a character that is
    not whitespace; stripping it again changes nothing. *)
Lemma strip_trimmed (s : text) :
  Py.strip s <> [] -> trimmed_nonempty (Py.strip s).
Proof.
  intros Hne. unfold trimmed_nonempty. split; [exact Hne |].
  destruct (lstrip_head s) as [E | (c & s' & E & Hc)].
  { contradiction Hne. unfold Py.strip. now rewrite E. }
  rewrite (strip_shape s s' c E Hc).
  set (u := rev (Py.lstrip (rev s'))).
  split; [| split].
  - rewrite (strip_shape (c :: u) u c (lstrip_fixed c u Hc) Hc).
    unfold u. now rewrite rev_involutive, lstrip_idempotent.
  - eauto.
  - unfold u.
    destruct (lstrip_head (rev s')) as [-> | (d & t & -> & Hd)].
    + exists [], c. auto.
    + exists (c :: rev t), d. auto.
Qed.

(** ** base64 *)

(** Every character that [b64encode] emits for a sextet is an ASCII
    character of the alphabet, and decodes to the sextet. *)
Lemma b2a_char_spec (v : N) :
  (v < 64)%N ->
  Base64.a2b_value (Base64.b2a_char v) = Some v /\
  (Base64.b2a_char v =? 61)%N = false /\
  (Base64.b2a_char v <? 128)%N = true /\
  Py.isspace (Base64.b2a_char v) = false.
Proof.
  intros Hv.
  pose proof (N_forall_below 64
    (fun v =>
       match Base64.a2b_value (Base64.b2a_char v) with
       | Some v' => (v' =? v)%N
       | None => false
       end
       && negb (Base64.b2a_char v =? 61)%N
       && (Base64.b2a_char v <? 128)%N
       && negb (Py.isspace (Base64.b2a_char v)))
    ltac:(vm_compute; reflexivity) v Hv) as H.
  cbv beta in H.
  repeat (apply andb_prop in H as [H ?]).
  destruct (Base64.a2b_value (Base64.b2a_char v)) as [v'|];
    [| discriminate].
  apply N.eqb_eq in H. subst v'.
  repeat split; try assumption; now apply negb_true_iff.
Qed.

(** The bit arithmetic of one quad: the sextets are below 64, and
    shifting them back gives the bytes. *)
Lemma quad_first (x y : N) :
  (x < 256)%N -> (y < 256)%N ->
  let v0 := N.shiftr x 2 in
  let v1 := N.lor (N.shiftl (N.land x 3) 4) (N.shiftr y 4) in
  (v0 < 64 /\ v1 < 64 /\
   N.lor (N.shiftl v0 2) (N.shiftr v1 4) = x /\
   N.land v1 15 = N.shiftr y 4)%N.
Proof.
  intros Hx Hy v0 v1.
  pose proof (N_forall_below 256
    (fun x =>
       forallb
         (fun y =>
            let v0 := N.shiftr x 2 in
            let v1 := N.lor (N.shiftl (N.land x 3) 4) (N.shiftr y 4) in
            (v0 <? 64) && (v1 <? 64)
            && (N.lor (N.shiftl v0 2) (N.shiftr v1 4) =? x)
            && (N.land v1 15 =? N.shiftr y 4))%N
         (map N.of_nat (seq 0 256)))
    ltac:(vm_compute; reflexivity) x Hx) as H.
  cbv beta in H.
  pose proof (N_forall_below 256 _ H y Hy) as H'.
  cbv beta zeta in H'. fold v0 v1 in H'.
  repeat (apply andb_prop in H' as [H' ?]).
  repeat split; try (now apply N.ltb_lt); now apply N.eqb_eq.
Qed.

Lemma quad_second (y z : N) :
  (y < 256)%N -> (z < 256)%N ->
  let v2 := N.lor (N.shiftl (N.land y 15) 2) (N.shiftr z 6) in
  let v3 := N.land z 63 in
  (v2 < 64 /\ v3 < 64 /\
   N.lor (N.shiftl (N.shiftr y 4) 4) (N.shiftr v2 2) = y /\
   N.lor (N.shiftl (N.land v2 3) 6) v3 = z)%N.
Proof.
  intros Hy Hz v2 v3.
  pose proof (N_forall_below 256
    (fun y =>
       forallb
         (fun z =>
            let v2 := N.lor (N.shiftl (N.land y 15) 2) (N.shiftr z 6) in
            let v3 := N.land z 63 in
            (v2 <? 64) && (v3 <? 64)
            && (N.lor (N.shiftl (N.shiftr y 4) 4) (N.shiftr v2 2) =? y)
            && (N.lor (N.shiftl (N.land v2 3) 6) v3 =? z))%N
         (map N.of_nat (seq 0 256)))
    ltac:(vm_compute; reflexivity) y Hy) as H.
  cbv beta in H.
  pose proof (N_forall_below 256 _ H z Hz) as H'.
  cbv beta zeta in H'. fold v2 v3 in H'.
  repeat (apply andb_prop in H' as [H' ?]).
  repeat split; try (now apply N.ltb_lt); now apply N.eqb_eq.
Qed.

Lemma to_N_below (x : byte) : (Byte.to_N x < 256)%N.
Proof. pose proof (Byte.to_N_bounded x). lia. Qed.

Lemma byte_of_to_N (x : byte) : byte_of_N (Byte.to_N x) = x.
Proof.
  unfold byte_of_N. rewrite N.mod_small by apply to_N_below.
  now rewrite Byte.of_to_N.
Qed.

(** One decoding step on an alphabet character. *)
Lemma a2b_loop_value (c v : N) (rest : list N) (quad_pos : nat)
      (leftchar : N) (pads : nat) (out : list N) :
  (c =? 61)%N = false -> Base64.a2b_value c = Some v ->
  Base64.a2b_loop (c :: rest) quad_pos leftchar pads out
  = match quad_pos with
    | 0 => Base64.a2b_loop rest 1 v 0 out
    | 1 => Base64.a2b_loop rest 2 (N.land v 15) 0
             (N.lor (N.shiftl leftchar 2) (N.shiftr v 4) :: out)
    | 2 => Base64.a2b_loop rest 3 (N.land v 3) 0
             (N.lor (N.shiftl leftchar 4) (N.shiftr v 2) :: out)
    | _ => Base64.a2b_loop rest 0 0%N 0
             (N.lor (N.shiftl leftchar 6) v :: out)
    end.
Proof. intros Hc Hv. cbn [Base64.a2b_loop]. now rewrite Hc, Hv. Qed.

Lemma a2b_loop_b64encode (n : nat) :
  forall (b : bytes) (leftchar : N) (out : list N),
    length b <= n ->
    Base64.a2b_loop (Base64.b64encode b) 0 leftchar 0 out
    = Ok (rev out ++ map Byte.to_N b).
Proof.
  induction n as [|n IH]; intros b leftchar out Hlen.
  { destruct b; [| cbn in Hlen; lia]. cbn. now rewrite app_nil_r. }
  destruct b as [|x [|y [|z rest]]].
  - cbn. now rewrite app_nil_r.
  - pose proof (quad_first (Byte.to_N x) 0 (to_N_below x) eq_refl) as H.
    cbv zeta in H. rewrite N.lor_0_r in H.
    destruct H as (H0 & H1 & Hx & _).
    destruct (b2a_char_spec _ H0) as (Ha0 & He0 & _).
    destruct (b2a_char_spec _ H1) as (Ha1 & He1 & _).
    cbn [Base64.b64encode].
    rewrite (a2b_loop_value _ _ _ _ _ _ _ He0 Ha0).
    rewrite (a2b_loop_value _ _ _ _ _ _ _ He1 Ha1).
    rewrite Hx. cbn. rewrite <- ?app_assoc. reflexivity.
  - pose proof (quad_first (Byte.to_N x) (Byte.to_N y)
                  (to_N_below x) (to_N_below y)) as H.
    cbv zeta in H. destruct H as (H0 & H1 & Hx & Hl).
    pose proof (quad_second (Byte.to_N y) 0 (to_N_below y) eq_refl) as H.
    cbv zeta in H. rewrite N.lor_0_r in H.
    destruct H as (H2 & _ & Hy & _).
    destruct (b2a_char_spec _ H0) as (Ha0 & He0 & _).
    destruct (b2a_char_spec _ H1) as (Ha1 & He1 & _).
    destruct (b2a_char_spec _ H2) as (Ha2 & He2 & _).
    cbn [Base64.b64encode].
    rewrite (a2b_loop_value _ _ _ _ _ _ _ He0 Ha0).
    rewrite (a2b_loop_value _ _ _ _ _ _ _ He1 Ha1).
    rewrite (a2b_loop_value _ _ _ _ _ _ _ He2 Ha2).
    rewrite Hx, Hl, Hy. cbn. rewrite <- ?app_assoc. reflexivity.
  - pose proof (quad_first (Byte.to_N x) (Byte.to_N y)
                  (to_N_below x) (to_N_below y)) as H.
    cbv zeta in H. destruct H as (H0 & H1 & Hx & Hl).
    pose proof (quad_second (Byte.to_N y) (Byte.to_N z)
                  (to_N_below y) (to_N_below z)) as H.
    cbv zeta in H. destruct H as (H2 & H3 & Hy & Hz).
    destruct (b2a_char_spec _ H0) as (Ha0 & He0 & _).
    destruct (b2a_char_spec _ H1) as (Ha1 & He1 & _).
    destruct (b2a_char_spec _ H2) as (Ha2 & He2 & _).
    destruct (b2a_char_spec _ H3) as (Ha3 & He3 & _).
    cbn [Base64.b64encode].
    rewrite (a2b_loop_value _ _ _ _ _ _ _ He0 Ha0).
    rewrite (a2b_loop_value _ _ _ _ _ _ _ He1 Ha1).
    rewrite (a2b_loop_value _ _ _ _ _ _ _ He2 Ha2).
    rewrite (a2b_loop_value _ _ _ _ _ _ _ He3 Ha3).
    rewrite Hx, Hl, Hy, Hz.
    rewrite IH by (cbn in Hlen; lia).
    cbn [rev map]. rewrite <- ?app_assoc. reflexivity.
Qed.

Lemma b64encode_clean (n : nat) :
  forall b : bytes,
    length b <= n ->
    Forall (fun c => (c <? 128)%N = true /\ Py.isspace c = false)
           (Base64.b64encode b).
Proof.
  assert (Hpad : (61 <? 128)%N = true /\ Py.isspace 61 = false)
    by (split; reflexivity).
  induction n as [|n IH]; intros b Hlen.
  { destruct b; [constructor | cbn in Hlen; lia]. }
  destruct b as [|x [|y [|z rest]]]; cbn [Base64.b64encode].
  - constructor.
  - pose proof (quad_first (Byte.to_N x) 0 (to_N_below x) eq_refl) as H.
    cbv zeta in H. rewrite N.lor_0_r in H. destruct H as (H0 & H1 & _).
    repeat constructor; try apply b2a_char_spec; assumption.
  - pose proof (quad_first (Byte.to_N x) (Byte.to_N y)
                  (to_N_below x) (to_N_below y)) as H.
    cbv zeta in H. destruct H as (H0 & H1 & _).
    pose proof (quad_second (Byte.to_N y) 0 (to_N_below y) eq_refl) as H.
    cbv zeta in H. rewrite N.lor_0_r in H. destruct H as (H2 & _).
    repeat constructor; try apply b2a_char_spec; assumption.
  - pose proof (quad_first (Byte.to_N x) (Byte.to_N y)
                  (to_N_below x) (to_N_below y)) as H.
    cbv zeta in H. destruct H as (H0 & H1 & _).
    pose proof (quad_second (Byte.to_N y) (Byte.to_N z)
                  (to_N_below y) (to_N_below z)) as H.
    cbv zeta in H. destruct H as (H2 & H3 & _).
    repeat (constructor; [split; apply b2a_char_spec; assumption |]).
    apply IH. cbn in Hlen. lia.
Qed.

Lemma lstrip_clean (s : text) :
  Forall (fun c => Py.isspace c = false) s -> Py.lstrip s = s.
Proof. destruct 1 as [|c s Hc _]; [reflexivity | now apply lstrip_fixed]. Qed.

Lemma strip_clean (s : text) :
  Forall (fun c => Py.isspace c = false) s -> Py.strip s = s.
Proof.
  intros H. unfold Py.strip, Py.rstrip.
  rewrite (lstrip_clean s H), (lstrip_clean (rev s)) by now apply Forall_rev.
  apply rev_involutive.
Qed.

(** Decoding the text that [b64encode] wrote gives the bytes back. *)
Lemma b64decode_b64encode (b : bytes) :
  Base64.b64decode (Py.strip (Base64.b64encode b)) = Ok b.
Proof.
  pose proof (b64encode_clean (length b) b (le_n _)) as Hclean.
  rewrite strip_clean
    by (eapply Forall_impl; [exact Hclean | now intros c [_ Hc]]).
  unfold Base64.b64decode, Base64.a2b_base64.
  replace (forallb (fun c => (c <? 128)%N) (Base64.b64encode b)) with true.
  - rewrite (a2b_loop_b64encode (length b)) by lia.
    cbn [rbind rev app]. rewrite map_map.
    f_equal. rewrite <- (map_id b) at 2. apply map_ext, byte_of_to_N.
  - symmetry. apply forallb_Forall_iff.
    eapply Forall_impl; [exact Hclean | now intros c [Hc _]].
Qed.

(** ** Text files *)

Lemma lor_lead (base : N) (n : nat) (x : N) :
  forallb (fun x => (N.lor base x =? base + x)%N) (map N.of_nat (seq 0 n))
  = true ->
  (x < N.of_nat n)%N -> N.lor base x = (base + x)%N.
Proof.
  intros H Hx. apply N.eqb_eq.
  exact (N_forall_below n (fun x => (N.lor base x =? base + x)%N) H x Hx).
Qed.

Lemma shiftr_6 (c : N) : N.shiftr c 6 = (c / 64)%N.
Proof. now rewrite N.shiftr_div_pow2. Qed.

Lemma shiftr_12 (c : N) : N.shiftr c 12 = (c / 4096)%N.
Proof. now rewrite N.shiftr_div_pow2. Qed.

Lemma shiftr_18 (c : N) : N.shiftr c 18 = (c / 262144)%N.
Proof. now rewrite N.shiftr_div_pow2. Qed.

Lemma land_63 (c : N) : N.land c 0x3F = (c mod 64)%N.
Proof. exact (N.land_ones c 6). Qed.

(** Decoding undoes the encoding of one code point. *)
Lemma utf8_char_decodes (c : N) (bs rest : list N) :
  Py.utf8_char c = Ok bs ->
  Forall (fun b => (b < 256)%N) bs /\
  Py.decode_utf8_from (bs ++ rest)
  = (s <-? Py.decode_utf8_from rest; Ok (c :: s)).
Proof.
  unfold Py.utf8_char.
  destruct (N.ltb_spec c 0x80) as [H1 | H1].
  { intros H. injection H as <-. split; [repeat constructor; lia |].
    cbn [app Py.decode_utf8_from].
    destruct (N.ltb_spec c 0x80); [reflexivity | lia]. }
  destruct (N.ltb_spec c 0x800) as [H2 | H2].
  { intros H. injection H as <-.
    rewrite shiftr_6, land_63.
    rewrite (lor_lead 0xC0 32) by (reflexivity || euclid).
    rewrite (lor_lead 0x80 64) by (reflexivity || euclid).
    split; [repeat constructor; euclid |].
    cbn [app Py.decode_utf8_from]. unfold Py.continuation.
    settle_tests. cbn [andb negb].
    replace ((192 + c / 64 - 192) * 64 + (128 + c mod 64 - 128))%N with c
      by euclid.
    reflexivity. }
  destruct (N.ltb_spec c 0x10000) as [H3 | H3].
  { destruct (N.leb_spec 0xD800 c) as [H4 | H4];
      [destruct (N.leb_spec c 0xDFFF) as [H5 | H5] |]; cbn [andb];
      [discriminate | |].
    all: intros H; injection H as <-.
    all: rewrite shiftr_6, shiftr_12, !land_63.
    all: rewrite (lor_lead 0xE0 16) by (reflexivity || euclid).
    all: rewrite !(lor_lead 0x80 64) by (reflexivity || euclid).
    all: split; [repeat constructor; euclid |].
    all: cbn [app Py.decode_utf8_from]; unfold Py.continuation.
    all: settle_tests; cbn [andb negb].
    all: replace (((224 + c / 4096 - 224) * 64
                   + (128 + (c / 64) mod 64 - 128)) * 64
                  + (128 + c mod 64 - 128))%N with c by euclid.
    all: reflexivity. }
  destruct (N.ltb_spec c 0x110000) as [H4 | H4]; [| discriminate].
  intros H. injection H as <-.
  rewrite shiftr_6, shiftr_12, shiftr_18, !land_63.
  rewrite (lor_lead 0xF0 8) by (reflexivity || euclid).
  rewrite !(lor_lead 0x80 64) by (reflexivity || euclid).
  split; [repeat constructor; euclid |].
  cbn [app Py.decode_utf8_from]. unfold Py.continuation.
  settle_tests; cbn [andb negb].
  all: replace ((((240 + c / 262144 - 240) * 64
                  + (128 + (c / 4096) mod 64 - 128)) * 64
                 + (128 + (c / 64) mod 64 - 128)) * 64
                + (128 + c mod 64 - 128))%N with c by euclid.
  all: reflexivity.
Qed.

Lemma to_N_bytes_of_N (bs : list N) :
  Forall (fun b => (b < 256)%N) bs -> map Byte.to_N (map byte_of_N bs) = bs.
Proof.
  induction 1 as [| b bs Hb _ IH]; [reflexivity |].
  cbn [map]. rewrite to_N_byte_of_N, IH. f_equal. now apply N.mod_small.
Qed.

(** The bytes that [str.encode] gives are decoded to the same text. *)
Lemma decode_encode_utf8 (s : text) :
  forall raw, Py.encode_utf8 s = Ok raw -> Py.decode_utf8 raw = Ok s.
Proof.
  unfold Py.decode_utf8.
  induction s as [| c s IH]; cbn [Py.encode_utf8]; intros raw.
  - intros H. now injection H as <-.
  - destruct (Py.utf8_char c) as [bs | e] eqn:Hc; [| discriminate].
    destruct (Py.encode_utf8 s) as [rest | e]; [| discriminate].
    cbn [rbind]. intros H. injection H as <-.
    destruct (utf8_char_decodes c bs (map Byte.to_N rest) Hc) as [Hbs Hdec].
    rewrite map_app, (to_N_bytes_of_N bs Hbs), Hdec, (IH rest eq_refl).
    reflexivity.
Qed.

(** The only exception of [bytes.decode]. *)
Lemma decode_utf8_raises (n : nat) :
  forall (b : list N) (e : exn),
    length b <= n ->
    Py.decode_utf8_from b = Raise e -> e = UnicodeDecodeError.
Proof.
  induction n as [| n IH]; intros b e Hn.
  { destruct b; [discriminate | cbn in Hn; lia]. }
  assert (Hrec : forall rest (f : text -> text),
             length rest <= n ->
             (s <-? Py.decode_utf8_from rest; Ok (f s)) = Raise e ->
             e = UnicodeDecodeError).
  { intros rest f Hlt.
    destruct (Py.decode_utf8_from rest) as [s | e'] eqn:Hrest;
      cbn [rbind]; [discriminate |].
    intros H. injection H as <-. exact (IH rest e' Hlt Hrest). }
  destruct b as [| b0 rest]; [discriminate |].
  cbn [Py.decode_utf8_from length] in *.
  repeat match goal with
         | |- (if ?c then _ else _) = _ -> _ => destruct c
         | |- match ?l with [] => _ | _ :: _ => _ end = _ -> _ =>
           destruct l; cbn [length] in *
         | |- Raise _ = Raise _ -> _ => intros H; now injection H as <-
         | |- rbind _ _ = _ -> _ => apply Hrec; lia
         end.
Qed.

(** Universal newlines leave a text without carriage return as it is. *)
Lemma universal_newlines_fixed (s : text) :
  Forall (fun c => c <> 13%N) s -> Py.universal_newlines s = s.
Proof.
  induction 1 as [| c s Hc _ IH]; [reflexivity |].
  cbn [Py.universal_newlines].
  destruct (N.eqb_spec c 13); [contradiction |]. now rewrite IH.
Qed.

Lemma universal_newlines_space (s : text) :
  Forall is_space s -> Forall is_space (Py.universal_newlines s).
Proof.
  remember (length s) as n eqn:Hn. revert s Hn.
  induction n as [n IH] using lt_wf_ind. intros s Hn Hs.
  destruct s as [| c rest]; [constructor |].
  inversion Hs as [| ? ? Hc Hrest]; subst.
  cbn [Py.universal_newlines].
  destruct (N.eqb_spec c 13).
  - destruct rest as [| d rest']; [repeat constructor |].
    inversion Hrest as [| ? ? Hd Hrest']; subst.
    destruct (N.eqb_spec d 10).
    + constructor; [reflexivity |].
      apply (IH (length rest')); [cbn; lia | reflexivity | exact Hrest'].
    + constructor; [reflexivity |].
      apply (IH (length (d :: rest'))); [cbn; lia | reflexivity | exact Hrest].
  - constructor; [exact Hc |].
    apply (IH (length rest)); [cbn; lia | reflexivity | exact Hrest].
Qed.

(** Leading whitespace is translated on its own when the text that
    follows does not begin with a line feed. *)
Lemma universal_newlines_app (ws s : text) :
  match s with d :: _ => d <> 10%N | [] => True end ->
  Py.universal_newlines (ws ++ s)
  = Py.universal_newlines ws ++ Py.universal_newlines s.
Proof.
  intros Hs.
  remember (length ws) as n eqn:Hn. revert ws Hn.
  induction n as [n IH] using lt_wf_ind. intros ws Hn.
  destruct ws as [| c rest]; [reflexivity |].
  cbn [app Py.universal_newlines].
  destruct (N.eqb_spec c 13).
  - destruct rest as [| d rest']; cbn [app].
    + destruct s as [| d s']; [reflexivity |].
      destruct (N.eqb_spec d 10); [contradiction | reflexivity].
    + destruct (N.eqb_spec d 10); cbn [app]; f_equal.
      * apply (IH (length rest')); [cbn in Hn; lia | reflexivity].
      * apply (IH (length (d :: rest')) ltac:(cbn in *; lia) (d :: rest')
                  eq_refl).
  - cbn [app]. f_equal.
    apply (IH (length rest)); [cbn in Hn; lia | reflexivity].
Qed.

Lemma universal_newlines_clean_app (s ws : text) :
  Forall (fun c => c <> 13%N) s ->
  Py.universal_newlines (s ++ ws) = s ++ Py.universal_newlines ws.
Proof.
  induction 1 as [| c s Hc _ IH]; [reflexivity |].
  cbn [app Py.universal_newlines].
  destruct (N.eqb_spec c 13); [contradiction |]. now rewrite IH.
Qed.

Lemma lstrip_spaces_app (ws s : text) :
  Forall is_space ws -> Py.lstrip (ws ++ s) = Py.lstrip s.
Proof.
  induction 1 as [| c ws Hc _ IH]; [reflexivity |].
  cbn [app Py.lstrip]. unfold is_space in Hc. now rewrite Hc.
Qed.

(** Whitespace around a text without whitespace is stripped. *)
Lemma strip_surrounded (ws1 s ws2 : text) :
  Forall is_space ws1 -> Forall is_space ws2 ->
  Forall (fun c => Py.isspace c = false) s ->
  Py.strip (ws1 ++ s ++ ws2) = s.
Proof.
  intros H1 H2 Hs. unfold Py.strip, Py.rstrip.
  rewrite lstrip_spaces_app by exact H1.
  assert (Hnil : forall ws, Forall is_space ws -> Py.lstrip ws = []).
  { intros ws Hws. rewrite <- (app_nil_r ws).
    now rewrite lstrip_spaces_app by exact Hws. }
  destruct Hs as [| c s Hc Hs]; cbn [app].
  - now rewrite (Hnil ws2 H2).
  - rewrite lstrip_fixed by exact Hc.
    change (c :: s ++ ws2) with ((c :: s) ++ ws2).
    rewrite rev_app_distr, lstrip_spaces_app by now apply Forall_rev.
    rewrite lstrip_clean by (apply Forall_rev; now constructor).
    apply rev_involutive.
Qed.

(** What the key provider writes is read back as it was written. *)
Lemma read_write_b64encode (b : bytes) :
  exists raw,
    Py.write_text (Base64.b64encode b) = Ok raw /\
    Py.read_text raw = Ok (Base64.b64encode b).
Proof.
  pose proof (b64encode_clean (length b) b (le_n _)) as Hclean.
  destruct (encode_utf8_scalar (Base64.b64encode b)) as [raw Hraw].
  { apply forallb_Forall_iff.
    eapply Forall_impl; [exact Hclean |].
    intros c [Hc _]. apply N.ltb_lt in Hc. unfold Py.scalar_value.
    destruct (N.ltb_spec c 0x110000); [| lia].
    destruct (N.leb_spec 0xD800 c); [lia | reflexivity]. }
  exists raw. split; [exact Hraw |].
  unfold Py.read_text. rewrite (decode_encode_utf8 _ _ Hraw).
  cbn [rbind]. f_equal. apply universal_newlines_fixed.
  eapply Forall_impl; [exact Hclean |].
  intros c [_ Hc] ->. discriminate Hc.
Qed.

(** ** The base64 decoder on arbitrary text *)

(** The decoder raises one exception only. *)
Lemma a2b_loop_raises (input : list N) :
  forall quad_pos leftchar pads out e,
    Base64.a2b_loop input quad_pos leftchar pads out = Raise e ->
    e = BinasciiError.
Proof.
  induction input as [| c rest IH]; intros qp lc pads out e;
    cbn [Base64.a2b_loop].
  - destruct (qp =? 0); [discriminate |]. intros H. now injection H as <-.
  - destruct (c =? 61)%N.
    + destruct (2 <=? qp); [| apply IH].
      destruct (4 <=? qp + S pads); [discriminate | apply IH].
    + destruct (Base64.a2b_value c); [| apply IH].
      destruct qp as [| [| [| qp]]]; apply IH.
Qed.

Lemma b64decode_raises (s : text) (e : exn) :
  Base64.b64decode s = Raise e ->
  if forallb (fun c => c <? 128)%N s then e = BinasciiError
  else e = ValueError.
Proof.
  unfold Base64.b64decode, Base64.a2b_base64.
  destruct (forallb (fun c => c <? 128)%N s).
  - destruct (Base64.a2b_loop s 0 0%N 0 []) as [out | e'] eqn:Hloop;
      cbn [rbind]; [discriminate |].
    intros H. injection H as <-. exact (a2b_loop_raises _ _ _ _ _ _ Hloop).
  - intros H. now injection H as <-.
Qed.

(** Without pad characters the decoder counts the characters of the
    alphabet in fours, and gives three bytes for each four. *)
Lemma a2b_loop_no_pad (input : list N) :
  forall quad_pos leftchar pads out,
    Forall (fun c => c <> 61%N) input ->
    quad_pos < 4 ->
    if (quad_pos + base64_digits input) mod 4 =? 0 then
      exists res,
        Base64.a2b_loop input quad_pos leftchar pads out = Ok res /\
        length res + (quad_pos - 1)
        = length out + 3 * ((quad_pos + base64_digits input) / 4)
    else
      Base64.a2b_loop input quad_pos leftchar pads out = Raise BinasciiError.
Proof.
  induction input as [| c rest IH]; intros qp lc pads out Hpad Hqp.
  - cbn [Base64.a2b_loop base64_digits List.filter length].
    rewrite Nat.add_0_r.
    destruct qp as [| [| [| [| qp]]]]; cbn; try lia; try reflexivity.
    exists (rev out). rewrite length_rev. split; [reflexivity | lia].
  - inversion Hpad as [| ? ? Hc Hrest]; subst.
    cbn [Base64.a2b_loop]. destruct (N.eqb_spec c 61); [contradiction |].
    unfold base64_digits. cbn [List.filter].
    fold (base64_digits rest).
    destruct (Base64.a2b_value c) as [v |].
    + cbn [length]. fold (base64_digits rest).
      destruct qp as [| [| [| [| qp]]]]; [| | | | lia].
      * specialize (IH 1 v 0 out Hrest ltac:(lia)).
        replace (0 + S (base64_digits rest)) with (1 + base64_digits rest)
          by lia.
        exact IH.
      * specialize (IH 2 (N.land v 15) 0
                       (N.lor (N.shiftl lc 2) (N.shiftr v 4) :: out)
                       Hrest ltac:(lia)).
        replace (1 + S (base64_digits rest)) with (2 + base64_digits rest)
          by lia.
        destruct ((2 + base64_digits rest) mod 4 =? 0); [| exact IH].
        destruct IH as (res & Hres & Hlen). exists res.
        split; [exact Hres |]. cbn [length] in Hlen. lia.
      * specialize (IH 3 (N.land v 3) 0
                       (N.lor (N.shiftl lc 4) (N.shiftr v 2) :: out)
                       Hrest ltac:(lia)).
        replace (2 + S (base64_digits rest)) with (3 + base64_digits rest)
          by lia.
        destruct ((3 + base64_digits rest) mod 4 =? 0); [| exact IH].
        destruct IH as (res & Hres & Hlen). exists res.
        split; [exact Hres |]. cbn [length] in Hlen. lia.
      * specialize (IH 0 0%N 0 (N.lor (N.shiftl lc 6) v :: out)
                       Hrest ltac:(lia)).
        replace (3 + S (base64_digits rest))
          with (0 + base64_digits rest + 1 * 4) by lia.
        rewrite Nat.Div0.mod_add, Nat.div_add by lia.
        destruct ((0 + base64_digits rest) mod 4 =? 0); [| exact IH].
        destruct IH as (res & Hres & Hlen). exists res.
        split; [exact Hres |]. cbn [length] in Hlen. lia.
    + apply IH; assumption.
Qed.

Lemma b64decode_no_pad (s : text) :
  forallb (fun c => c <? 128)%N s = true ->
  Forall (fun c => c <> 61%N) s ->
  if base64_digits s mod 4 =? 0 then
    exists k, Base64.b64decode s = Ok k /\
              length k = 3 * (base64_digits s / 4)
  else Base64.b64decode s = Raise BinasciiError.
Proof.
  intros Hascii Hpad. unfold Base64.b64decode, Base64.a2b_base64.
  rewrite Hascii.
  pose proof (a2b_loop_no_pad s 0 0%N 0 [] Hpad ltac:(lia)) as H.
  cbn [Nat.add] in H.
  destruct (base64_digits s mod 4 =? 0).
  - destruct H as (res & -> & Hlen). cbn [rbind].
    eexists. split; [reflexivity |].
    rewrite length_map. cbn [length] in Hlen. lia.
  - now rewrite H.
Qed.

(** ** The key provider *)

(** X1.  On first start the key provider draws [KEY_SIZE] bytes and writes
    their base64 text to the key file; on the next start it reads the
    same key back. *)
Theorem create_then_load_roundtrip :
  forall (os_urandom : nat -> nat -> bytes) (w : World),
    key_file w = None ->
    exists w1,
      Encryption._load_or_create_key os_urandom w
      = (Ok (os_urandom (ticks w) Encryption.KEY_SIZE), w1) /\
      files w1 = files w /\
      Encryption._load_or_create_key os_urandom w1
      = (Ok (os_urandom (ticks w) Encryption.KEY_SIZE), w1).
Proof.
  intros rnd w Hnone. unfold Encryption._load_or_create_key at 1.
  rewrite Hnone.
  destruct (read_write_b64encode (rnd (ticks w) Encryption.KEY_SIZE))
    as (raw & -> & Hread).
  eexists. split; [reflexivity |]. split; [reflexivity |].
  unfold Encryption._load_or_create_key. cbn [key_file].
  rewrite Hread. cbn [rbind]. now rewrite b64decode_b64encode.
Qed.

(** ** The segmenter *)

Section SegmenterProperties.

Variable isalnum : N -> bool.

(** Splitting on a pattern that consumes only whitespace loses nothing
    but whitespace. *)
Lemma split_from_non_whitespace (r : regex) :
  consumes is_space r ->
  forall (a b : text) (skip : nat) (cur : text),
    Forall is_space (take skip a) ->
    non_whitespace (concat (Re.split_from isalnum r b a skip cur))
    = non_whitespace (rev cur ++ drop skip a).
Proof.
  intros Hr. induction a as [|c a IH]; intros b skip cur Hskip.
  - simpl. now rewrite drop_nil, app_nil_r.
  - cbn [Re.split_from]. destruct skip as [|n].
    + destruct (Re.match_at isalnum r b (c :: a)) as [[|n]|] eqn:Em.
      * rewrite IH by constructor.
        cbn [rev drop]. now rewrite <- app_assoc.
      * destruct (match_at_sound isalnum _ r b (c :: a) (S n) Hr Em)
          as (Hle & _ & Hsp).
        cbn [take] in Hsp. inversion Hsp as [|? ? Hc Hrest]; subst.
        cbn [concat]. rewrite non_whitespace_app.
        rewrite IH by exact Hrest. cbn [rev app drop].
        rewrite !non_whitespace_app. f_equal.
        rewrite <- (take_drop n a) at 2.
        change (c :: take n a ++ drop n a)
          with ((c :: take n a) ++ drop n a).
        rewrite non_whitespace_app.
        now rewrite (non_whitespace_spaces (c :: take n a)) by exact Hsp.
      * rewrite IH by constructor.
        cbn [rev drop]. now rewrite <- app_assoc.
    + cbn [take] in Hskip. inversion Hskip as [|? ? Hc Hrest]; subst.
      now rewrite IH by exact Hrest.
Qed.

Lemma split_non_whitespace (r : regex) (s : text) :
  consumes is_space r ->
  non_whitespace (concat (Re.split isalnum r s)) = non_whitespace s.
Proof.
  intros Hr. unfold Re.split.
  now rewrite (split_from_non_whitespace r Hr) by constructor.
Qed.

Lemma paragraph_break_whitespace :
  consumes is_space Processor.PARAGRAPH_BREAK.
Proof.
  unfold Processor.PARAGRAPH_BREAK, Re.ws_star, Re.ws.
  cbn [Re.seq consumes].
  repeat split; try exact (fun c H => H);
    intros c H; apply N.eqb_eq in H; now subst c.
Qed.

Lemma sentence_break_whitespace :
  consumes is_space Processor.SENTENCE_BREAK.
Proof.
  unfold Processor.SENTENCE_BREAK, Re.ws_plus, Re.ws. cbn [consumes].
  repeat split; exact (fun c H => H).
Qed.

(** A paragraph break is a newline, whitespace, and a newline. *)
Lemma paragraph_break_shape (b s a : text) :
  matches isalnum Processor.PARAGRAPH_BREAK b s a ->
  exists mid, s = [10%N] ++ mid ++ [10%N] /\ Forall is_space mid.
Proof.
  unfold Processor.PARAGRAPH_BREAK, Re.ws_star, Re.ws. cbn [Re.seq].
  intros H.
  inversion H as [| |? ? ? s1 s23 ? H1 H23| | | | | |]; subst.
  inversion H1 as [|? c1 ? ? Hc1| | | | | | |]; subst.
  inversion H23 as [| |? ? ? s2 s3 ? H2 H3| | | | | |]; subst.
  inversion H3 as [|? c3 ? ? Hc3| | | | | | |]; subst.
  apply N.eqb_eq in Hc1, Hc3. subst c1 c3.
  exists s2. split; [reflexivity |].
  apply (matches_consumes isalnum is_space _ _ _ _ H2).
  exact (fun c Hc => Hc).
Qed.

(** A sentence break is a non-empty run of whitespace that follows a
    full stop, an exclamation mark or a question mark. *)
Lemma sentence_break_shape (b s a : text) :
  matches isalnum Processor.SENTENCE_BREAK b s a ->
  s <> [] /\ Forall is_space s /\
  exists c b', b = c :: b' /\ (c = 46 \/ c = 33 \/ c = 63)%N.
Proof.
  intros H.
  pose proof (matches_min_length isalnum _ _ _ _ H) as Hmin.
  pose proof (matches_consumes isalnum is_space _ _ _ _ H
                sentence_break_whitespace) as Hsp.
  split; [intros ->; cbn in Hmin; lia |]. split; [exact Hsp |].
  unfold Processor.SENTENCE_BREAK in H.
  inversion H as [| |? ? ? s1 s2 ? H1 H2| | | | | |]; subst.
  inversion H1 as [| | | | | | | |? c ? ? Hc]; subst.
  exists c, b0. split; [reflexivity |].
  apply orb_prop in Hc as [Hc | Hc]; [apply orb_prop in Hc as [Hc | Hc] |];
    apply N.eqb_eq in Hc; auto.
Qed.

(** Where there is no newline there is no paragraph break. *)
Lemma split_paragraphs_no_newline (a b cur : text) :
  Forall (fun c => c <> 10%N) a ->
  Re.split_from isalnum Processor.PARAGRAPH_BREAK b a 0 cur
  = [rev cur ++ a].
Proof.
  revert b cur. induction a as [|c a IH]; intros b cur Hall.
  - simpl. now rewrite app_nil_r.
  - inversion Hall as [|? ? Hc Hrest]; subst.
    cbn [Re.split_from].
    assert (Em : Re.match_at isalnum Processor.PARAGRAPH_BREAK b (c :: a)
                 = None).
    { unfold Re.match_at, Processor.PARAGRAPH_BREAK.
      cbn [Re.seq Re.m].
      destruct (N.eqb_spec 10 c); [congruence | reflexivity]. }
    rewrite Em, IH by exact Hrest.
    cbn [rev]. now rewrite <- app_assoc.
Qed.

Lemma strip_filter_non_whitespace (l : list text) :
  non_whitespace
    (concat (map Py.strip
               (List.filter
                  (fun s => negb (Nat.eqb (length (Py.strip s)) 0)) l)))
  = non_whitespace (concat l).
Proof.
  induction l as [|x l IH]; [reflexivity |].
  cbn [List.filter concat]. rewrite non_whitespace_app.
  destruct (Nat.eqb_spec (length (Py.strip x)) 0) as [E | E];
    cbn [negb map concat].
  - rewrite IH, <- (non_whitespace_strip x).
    destruct (Py.strip x); [reflexivity | discriminate E].
  - now rewrite non_whitespace_app, IH, non_whitespace_strip.
Qed.

Lemma strip_filter_trimmed (l : list text) :
  Forall trimmed_nonempty
    (map Py.strip
       (List.filter (fun s => negb (Nat.eqb (length (Py.strip s)) 0)) l)).
Proof.
  induction l as [|x l IH]; [constructor |].
  cbn [List.filter].
  destruct (Nat.eqb_spec (length (Py.strip x)) 0) as [E | E];
    cbn [negb map].
  - exact IH.
  - constructor; [| exact IH].
    apply strip_trimmed. intros E'. rewrite E' in E. now apply E.
Qed.

End SegmenterProperties.

(** ** The classifier *)

(** No pattern of the processor has an empty match. *)
Lemma processor_patterns_consume :
  Forall (fun r => 1 <= min_length r)
         (Processor.PARAGRAPH_BREAK :: Processor.SENTENCE_BREAK
          :: Processor.FIRST_PERSON :: Processor.THINKING_VERBS
          :: Processor.UNCERTAINTY :: Processor.CAUTION_PHRASES
          :: Processor.SENSITIVE_TOPICS ++ Processor.PRIVACY_INDICATORS).
Proof. repeat (constructor; [vm_compute; lia |]). constructor. Qed.

Section ClassifierProperties.

Variable isalnum : N -> bool.

Lemma split_from_length (s cur : text) :
  length (Py.split_from s cur)
  = count_tokens (match cur with [] => true | _ => false end) s
    + match cur with [] => 0 | _ => 1 end.
Proof.
  revert cur. induction s as [|c s IH]; intros cur.
  - destruct cur; reflexivity.
  - cbn [Py.split_from count_tokens].
    destruct (Py.isspace c) eqn:Hc.
    + destruct cur; cbn [length]; rewrite IH; cbn; lia.
    + rewrite IH. destruct cur; cbn; lia.
Qed.

(** [len(text.split())] is the number of whitespace-delimited tokens. *)
Lemma split_length (s : text) : length (Py.split s) = token_count s.
Proof. unfold Py.split, token_count. rewrite split_from_length. lia. Qed.

(** C6: with [word_count] the number of whitespace-delimited tokens of
    the raw segment, the introspection score is [0.0] when [word_count]
    is zero and otherwise [min(1.0, n / (word_count * 0.3))], where [n]
    adds the matches of the first-person pronouns, of the cognition verbs
    and of the uncertainty words. *)
Theorem introspection_score_formula :
  forall t : text,
    let indicators :=
      length (Re.findall isalnum Processor.FIRST_PERSON t)
      + length (Re.findall isalnum Processor.THINKING_VERBS t)
      + length (Re.findall isalnum Processor.UNCERTAINTY t) in
    let word_count := token_count t in
    (word_count = 0 ->
     Processor._calculate_introspection_score isalnum t = 0%float) /\
    (word_count <> 0 ->
     Processor._calculate_introspection_score isalnum t
     = py_min 1%float
         (float_of_nat indicators / (float_of_nat word_count * 0.3))%float) /\
    word_count = length (Py.split t) /\
    Forall (fun r =>
              Forall (fun s => exists b a, matches isalnum r b s a)
                     (Re.findall isalnum r t))
           [Processor.FIRST_PERSON; Processor.THINKING_VERBS;
            Processor.UNCERTAINTY].
Proof.
  intros t indicators word_count.
  unfold Processor._calculate_introspection_score.
  rewrite split_length. fold word_count.
  split; [| split; [| split]].
  - intros H. now rewrite H.
  - intros H.
    destruct (Nat.eqb_spec word_count 0) as [E | _]; [contradiction |].
    reflexivity.
  - reflexivity.
  - repeat constructor; apply findall_from_matches.
Qed.

(** C3: a segment is private exactly when an indicator pattern matches,
    or the introspection score exceeds 0.7, or the sensitivity score
    exceeds 0.8; the checks are made in that order and the first one that
    holds ends the evaluation; a score equal to its threshold does not
    trigger. *)
Theorem is_private_iff :
  forall t : text,
    (Processor._is_likely_private isalnum t = true <->
     (exists pattern, In pattern Processor.PRIVACY_INDICATORS /\
                      occurs isalnum pattern t)
     \/ PrimFloat.ltb 0.7
          (Processor._calculate_introspection_score isalnum t) = true
     \/ PrimFloat.ltb 0.8
          (Processor._calculate_sensitivity_score isalnum t) = true) /\
    (Processor.indicator_match isalnum t = true ->
     Processor.classify isalnum t = (true, [Processor.CheckIndicators])) /\
    (Processor.indicator_match isalnum t = false ->
     Processor.introspection_trigger isalnum t = true ->
     Processor.classify isalnum t
     = (true, [Processor.CheckIndicators; Processor.CheckIntrospection])) /\
    (Processor.indicator_match isalnum t = false ->
     Processor.introspection_trigger isalnum t = false ->
     Processor.classify isalnum t
     = (Processor.sensitivity_trigger isalnum t,
        [Processor.CheckIndicators; Processor.CheckIntrospection;
         Processor.CheckSensitivity])) /\
    (Processor._calculate_introspection_score isalnum t = 0.7%float ->
     Processor.introspection_trigger isalnum t = false) /\
    (Processor._calculate_sensitivity_score isalnum t = 0.8%float ->
     Processor.sensitivity_trigger isalnum t = false).
Proof.
  intros t.
  assert (Hind : Processor.indicator_match isalnum t = true <->
                 exists pattern, In pattern Processor.PRIVACY_INDICATORS /\
                                 occurs isalnum pattern t).
  { unfold Processor.indicator_match. rewrite existsb_exists.
    split; intros (pattern & Hin & H); exists pattern;
      (split; [exact Hin |]); now apply search_iff. }
  unfold Processor._is_likely_private, Processor.classify.
  fold (Processor.introspection_trigger isalnum t).
  fold (Processor.sensitivity_trigger isalnum t).
  change (PrimFloat.ltb 0.7
            (Processor._calculate_introspection_score isalnum t))
    with (Processor.introspection_trigger isalnum t).
  change (PrimFloat.ltb 0.8
            (Processor._calculate_sensitivity_score isalnum t))
    with (Processor.sensitivity_trigger isalnum t).
  rewrite <- Hind.
  repeat split.
  - destruct (Processor.indicator_match isalnum t); [auto |].
    destruct (Processor.introspection_trigger isalnum t); [auto |].
    destruct (Processor.sensitivity_trigger isalnum t); [auto |].
    discriminate.
  - intros [H | [H | H]]; rewrite ?H.
    + reflexivity.
    + now destruct (Processor.indicator_match isalnum t).
    + destruct (Processor.indicator_match isalnum t); [reflexivity |].
      now destruct (Processor.introspection_trigger isalnum t).
  - now intros ->.
  - now intros -> ->.
  - intros -> ->.
    now destruct (Processor.sensitivity_trigger isalnum t).
  - unfold Processor.introspection_trigger. now intros ->.
  - unfold Processor.sensitivity_trigger. now intros ->.
Qed.

End ClassifierProperties.

Lemma introspection_score_formula_witness :
  token_count threshold_text <> 0 /\
  Processor._calculate_introspection_score ascii_isalnum threshold_text
  = py_min 1%float (float_of_nat 21 / (float_of_nat 100 * 0.3))%float.
Proof.
  assert (H : token_count threshold_text <> 0) by (vm_compute; discriminate).
  split; [exact H |].
  exact (proj1 (proj2 (introspection_score_formula ascii_isalnum
                         threshold_text)) H).
Defined.

Lemma is_private_iff_witness :
  Processor._calculate_introspection_score ascii_isalnum threshold_text
  = 0.7%float /\
  Processor._calculate_sensitivity_score ascii_isalnum threshold_topic_text
  = 0.8%float /\
  Processor.introspection_trigger ascii_isalnum threshold_text = false /\
  Processor.sensitivity_trigger ascii_isalnum threshold_topic_text = false.
Proof.
  assert (H1 : Processor._calculate_introspection_score ascii_isalnum
                 threshold_text = 0.7%float) by (vm_compute; reflexivity).
  assert (H2 : Processor._calculate_sensitivity_score ascii_isalnum
                 threshold_topic_text = 0.8%float)
    by (vm_compute; reflexivity).
  split; [exact H1 |]. split; [exact H2 |]. split.
  - exact (proj1 (proj2 (proj2 (proj2 (proj2
             (is_private_iff ascii_isalnum threshold_text))))) H1).
  - exact (proj2 (proj2 (proj2 (proj2 (proj2
             (is_private_iff ascii_isalnum threshold_topic_text))))) H2).
Defined.

(** ** The store *)

Lemma string_app_cons (c : ascii) (a b : string) :
  (String c a +:+ b = String c (a +:+ b))%string.
Proof. reflexivity. Qed.

Lemma string_length_app (a b : string) :
  String.length (a +:+ b) = String.length a + String.length b.
Proof.
  induction a as [|c a IH]; [reflexivity |].
  rewrite string_app_cons. cbn [String.length]. now rewrite IH.
Qed.

Lemma all_digits_app (a b : string) :
  all_digits (a +:+ b) = all_digits a && all_digits b.
Proof.
  induction a as [|c a IH]; [reflexivity |].
  rewrite string_app_cons. cbn [all_digits]. now rewrite IH, andb_assoc.
Qed.

Lemma has_slash_app (a b : string) :
  Storage.has_slash (a +:+ b) = Storage.has_slash a || Storage.has_slash b.
Proof.
  induction a as [|c a IH]; [reflexivity |].
  rewrite string_app_cons. cbn [Storage.has_slash].
  now rewrite IH, orb_assoc.
Qed.

Lemma digits_no_slash (s : string) :
  all_digits s = true -> Storage.has_slash s = false.
Proof.
  induction s as [|c s IH]; [reflexivity |].
  cbn [all_digits Storage.has_slash]. intros H.
  apply andb_prop in H as [Hc Hs]. rewrite (IH Hs), orb_false_r.
  destruct (Ascii.eqb_spec c "/"); [| reflexivity].
  subst c. discriminate Hc.
Qed.

Lemma digit_is_digit (n : nat) : is_digit (Storage.digit n) = true.
Proof.
  unfold is_digit, Storage.digit.
  pose proof (Nat.mod_upper_bound n 10 ltac:(lia)).
  rewrite nat_ascii_embedding by lia.
  apply andb_true_intro. split; apply Nat.leb_le; lia.
Qed.

Lemma zfill_length (width n : nat) :
  String.length (Storage.zfill width n) = width.
Proof.
  revert n. induction width as [|w IH]; intros n; [reflexivity |].
  cbn [Storage.zfill]. rewrite string_length_app, IH. simpl. lia.
Qed.

Lemma zfill_digits (width n : nat) :
  all_digits (Storage.zfill width n) = true.
Proof.
  revert n. induction width as [|w IH]; intros n; [reflexivity |].
  cbn [Storage.zfill]. rewrite all_digits_app, IH.
  cbn [all_digits]. now rewrite digit_is_digit.
Qed.

Lemma decimal_from_digits (fuel n : nat) (acc : string) :
  all_digits acc = true -> all_digits (Storage.decimal_from fuel n acc) = true.
Proof.
  revert n acc. induction fuel as [|fuel IH]; intros n acc Hacc;
    cbn [Storage.decimal_from]; [exact Hacc |].
  assert (Hacc' : all_digits (String (Storage.digit n) acc) = true)
    by (cbn [all_digits]; now rewrite digit_is_digit).
  destruct (n <? 10); [exact Hacc' | now apply IH].
Qed.

(** A year of four digits prints as four digits. *)
Lemma decimal_four_digits (n : nat) :
  four_digit_year n -> Storage.decimal n = Storage.zfill 4 n.
Proof.
  unfold four_digit_year. intros Hn. unfold Storage.decimal.
  replace (S n) with (4 + (n - 3)) by lia.
  cbn [Nat.add Storage.decimal_from Storage.zfill].
  assert (H1 : (n <? 10) = false) by (apply Nat.ltb_ge; lia).
  assert (H2 : ((n / 10) <? 10) = false).
  { apply Nat.ltb_ge. apply Nat.div_le_lower_bound; lia. }
  assert (H3 : ((n / 10 / 10) <? 10) = false).
  { apply Nat.ltb_ge. rewrite Nat.Div0.div_div.
    apply Nat.div_le_lower_bound; lia. }
  assert (H4 : ((n / 10 / 10 / 10) <? 10) = true).
  { apply Nat.ltb_lt. rewrite !Nat.Div0.div_div.
    apply Nat.Div0.div_lt_upper_bound. lia. }
  rewrite H1, H2, H3, H4. reflexivity.
Qed.

Lemma strftime_digits (now : datetime) :
  all_digits (Storage.strftime now) = true.
Proof.
  unfold Storage.strftime, Storage.decimal.
  rewrite !all_digits_app, !zfill_digits, decimal_from_digits; reflexivity.
Qed.

Lemma strftime_length (now : datetime) :
  four_digit_year (year now) ->
  String.length (Storage.strftime now) = 14.
Proof.
  intros Hy. unfold Storage.strftime. rewrite (decimal_four_digits _ Hy).
  rewrite !string_length_app, !zfill_length. reflexivity.
Qed.

Lemma strip_prefix_app (p s : string) :
  Storage.strip_prefix p (p +:+ s) = Some s.
Proof.
  induction p as [|c p IH]; [reflexivity |].
  rewrite string_app_cons. cbn [Storage.strip_prefix].
  now rewrite Ascii.eqb_refl.
Qed.

Lemma ends_with_app (p suffix : string) :
  Storage.ends_with suffix (p +:+ suffix) = true.
Proof.
  induction p as [|c p IH].
  - change ("" +:+ suffix)%string with suffix.
    destruct suffix; cbn [Storage.ends_with];
      now rewrite String.eqb_refl.
  - rewrite string_app_cons. cbn [Storage.ends_with].
    rewrite IH. apply orb_true_r.
Qed.

Lemma glob_enc_thought (timestamp : string) :
  all_digits timestamp = true ->
  Storage.glob_enc
    (Storage.PRIVATE_DIR +:+ "/"
     +:+ ("private_thought_" +:+ timestamp +:+ ".enc")) = true.
Proof.
  intros Hd. unfold Storage.glob_enc.
  replace (Storage.PRIVATE_DIR +:+ "/"
           +:+ ("private_thought_" +:+ timestamp +:+ ".enc"))
    with ((Storage.PRIVATE_DIR +:+ "/")
          +:+ ("private_thought_" +:+ timestamp +:+ ".enc"))
    by reflexivity.
  rewrite strip_prefix_app.
  rewrite !has_slash_app, (digits_no_slash _ Hd).
  replace ("private_thought_" +:+ timestamp +:+ ".enc")
    with (("private_thought_" +:+ timestamp) +:+ ".enc").
  - now rewrite ends_with_app.
  - generalize "private_thought_"%string as p.
    induction p as [|c p IH]; [reflexivity |].
    rewrite !string_app_cons. now rewrite IH.
Qed.

Lemma save_lookup (datetime_now : nat -> datetime) (blob : bytes) (w : World) :
  files (snd (Storage.save_encrypted_thought datetime_now blob w))
  !! fst (Storage.save_encrypted_thought datetime_now blob w) = Some blob.
Proof. cbn. apply lookup_insert_eq. Qed.

(** C9: [save] writes the blob, unchanged, at
    [private/private_thought_<timestamp>.enc], where the timestamp is
    [%Y%m%d%H%M%S] of the clock, 14 digits for a clock that reads a
    four-digit year; whatever the path held before is replaced and no
    other file is touched; the path is returned, and the listing made
    right after contains it. *)
Theorem save_then_list :
  forall (datetime_now : nat -> datetime) (blob : bytes) (w : World),
    let now := datetime_now (ticks w) in
    let timestamp := Storage.strftime now in
    let path := fst (Storage.save_encrypted_thought datetime_now blob w) in
    let w' := snd (Storage.save_encrypted_thought datetime_now blob w) in
    four_digit_year (year now) ->
    path = ("private/private_thought_" +:+ timestamp +:+ ".enc")%string /\
    timestamp
    = (Storage.zfill 4 (year now) +:+ Storage.zfill 2 (month now)
       +:+ Storage.zfill 2 (day now) +:+ Storage.zfill 2 (hour now)
       +:+ Storage.zfill 2 (minute now)
       +:+ Storage.zfill 2 (second now))%string /\
    String.length timestamp = 14 /\
    all_digits timestamp = true /\
    files w' !! path = Some blob /\
    (forall other, other <> path -> files w' !! other = files w !! other) /\
    key_file w' = key_file w /\
    In path (Storage.get_saved_files w').
Proof.
  intros datetime_now blob w now timestamp path w' Hyear.
  pose proof (strftime_length now Hyear) as Hlen.
  pose proof (strftime_digits now) as Hdig.
  fold timestamp in Hlen, Hdig.
  assert (Hpath : path
                  = (Storage.PRIVATE_DIR +:+ "/"
                     +:+ ("private_thought_" +:+ timestamp +:+ ".enc"))%string)
    by reflexivity.
  assert (Hfiles : files w' = <[path := blob]> (files w)) by reflexivity.
  split; [exact Hpath |].
  split; [unfold timestamp, Storage.strftime;
          now rewrite (decimal_four_digits _ Hyear) |].
  split; [exact Hlen |].
  split; [exact Hdig |].
  split; [apply save_lookup |].
  split; [intros other Hne; rewrite Hfiles; now apply lookup_insert_ne |].
  split; [reflexivity |].
  unfold Storage.get_saved_files. apply filter_In. split.
  - apply (in_map fst _ (path, blob)).
    apply list_elem_of_In, elem_of_map_to_list.
    rewrite Hfiles. apply lookup_insert_eq.
  - rewrite Hpath. now apply glob_enc_thought.
Qed.

Lemma save_then_list_witness :
  four_digit_year (year (fixed_now 0)) /\
  fst (Storage.save_encrypted_thought fixed_now [x01; x02] empty_world)
  = "private/private_thought_20240309140507.enc"%string /\
  In "private/private_thought_20240309140507.enc"%string
     (Storage.get_saved_files
        (snd (Storage.save_encrypted_thought fixed_now [x01; x02]
                empty_world))).
Proof.
  assert (Hy : four_digit_year (year (fixed_now 0)))
    by (unfold four_digit_year; cbn; lia).
  split; [exact Hy |].
  destruct (save_then_list fixed_now [x01; x02] empty_world Hy)
    as (Hpath & _ & _ & _ & _ & _ & _ & Hin).
  split; [exact Hpath | exact Hin].
Defined.

(** ** The orchestrator *)

Section SegmentContents.

Variable isalnum : N -> bool.
Variable P : N -> Prop.

(** Segments are made of characters of the text. *)
Lemma split_from_contents (r : regex) (a b : text) (skip : nat) (cur : text) :
  Forall P a -> Forall P cur ->
  Forall (Forall P) (Re.split_from isalnum r b a skip cur).
Proof.
  revert b skip cur.
  induction a as [|c a IH]; intros b skip cur Ha Hcur; cbn [Re.split_from].
  - constructor; [| constructor]. now apply Forall_rev.
  - inversion Ha as [|? ? Hc Hrest]; subst.
    destruct skip as [|n]; [| now apply IH].
    destruct (Re.match_at isalnum r b (c :: a)) as [[|n]|].
    + apply IH; [assumption | now constructor].
    + constructor; [now apply Forall_rev |].
      apply IH; [assumption | constructor].
    + apply IH; [assumption | now constructor].
Qed.

Lemma lstrip_contents (s : text) : Forall P s -> Forall P (Py.lstrip s).
Proof.
  induction 1 as [|c s Hc Hs IH]; [constructor |].
  cbn [Py.lstrip]. destruct (Py.isspace c); [exact IH | now constructor].
Qed.

Lemma strip_contents (s : text) : Forall P s -> Forall P (Py.strip s).
Proof.
  intros H. unfold Py.strip, Py.rstrip.
  now apply Forall_rev, lstrip_contents, Forall_rev, lstrip_contents.
Qed.

Lemma segments_contents (t : text) :
  Forall P t -> Forall (Forall P) (Processor._split_into_segments isalnum t).
Proof.
  intros Ht. unfold Processor._split_into_segments.
  apply Forall_map.
  assert (Hres : Forall (Forall P)
            (flat_map
               (fun segment =>
                  if 500 <? length (Py.strip segment)
                  then Re.split isalnum Processor.SENTENCE_BREAK segment
                  else [segment])
               (Re.split isalnum Processor.PARAGRAPH_BREAK t))).
  { apply Forall_flat_map.
    eapply Forall_impl;
      [apply split_from_contents; [exact Ht | constructor] |].
    intros seg Hseg. cbn beta.
    destruct (500 <? length (Py.strip seg)).
    - apply split_from_contents; [exact Hseg | constructor].
    - now constructor. }
  induction Hres as [|x l Hx _ IH]; [constructor |].
  cbn [List.filter]. destruct (negb _); [| exact IH].
  constructor; [now apply strip_contents | exact IH].
Qed.

End SegmentContents.

Section OrchestratorProperties.

Variable isalnum : N -> bool.
Variable os_urandom : nat -> nat -> bytes.
Variable E : bytes -> bytes -> bytes.
Variable datetime_now : nat -> datetime.
Variable time_time : nat -> float.

Local Notation "'is_private'" := (Processor._is_likely_private isalnum).
Local Notation "'store_thought'" :=
  (Agent.store_thought os_urandom E datetime_now time_time).
Local Notation "'store_thoughts'" :=
  (Agent.store_thoughts os_urandom E datetime_now time_time).
Local Notation "'process_message'" :=
  (Agent.process_message isalnum os_urandom E datetime_now time_time).
Local Notation "'process_messages'" :=
  (Agent.process_messages isalnum os_urandom E datetime_now time_time).
Local Notation "'archived'" :=
  (archived os_urandom E datetime_now time_time).

(** The loop of [process_output] filters the segments both ways. *)
Lemma route_filter (segments pub priv : list text) :
  Processor.route isalnum segments pub priv
  = (pub ++ List.filter (fun s => negb (is_private s)) segments,
     priv ++ List.filter is_private segments).
Proof.
  revert pub priv.
  induction segments as [|s segments IH]; intros pub priv;
    cbn [Processor.route List.filter].
  - now rewrite !app_nil_r.
  - destruct (is_private s); cbn [negb]; rewrite IH, <- app_assoc;
      reflexivity.
Qed.

Lemma process_output_filter (t : text) :
  Processor.process_output isalnum t
  = (Py.join [32%N]
       (List.filter (fun s => negb (is_private s))
          (Processor._split_into_segments isalnum t)),
     List.filter is_private (Processor._split_into_segments isalnum t)).
Proof. unfold Processor.process_output. now rewrite route_filter. Qed.

Lemma private_thoughts_contents (P : N -> Prop) (t : text) :
  Forall P t -> Forall (Forall P) (snd (Processor.process_output isalnum t)).
Proof.
  intros Ht. rewrite process_output_filter. cbn [snd].
  pose proof (segments_contents isalnum P t Ht) as Hseg.
  induction Hseg as [|x l Hx _ IH]; [constructor |].
  cbn [List.filter]. destruct (is_private x); [now constructor | exact IH].
Qed.

(** One iteration of the loop, when the segment can be encoded and the
    key is one that AES accepts. *)
Lemma store_thought_ok (self : SecretAgent) (thought : text) (w : World) :
  Encryption.aes_key_check (key self) = Ok tt ->
  forallb Py.scalar_value thought = true ->
  exists blob w1 path w2,
    Encryption.encrypt os_urandom E (key self) (PyStr thought) w
    = (Ok blob, w1) /\
    Storage.save_encrypted_thought datetime_now blob w1 = (path, w2) /\
    files w2 !! path = Some blob /\
    store_thought self thought w
    = (Ok (mkMetadata (private_thought_count self) (time_time (ticks w2))
                      path (length blob) true),
       mkAgent (key self) (S (private_thought_count self)),
       tick w2).
Proof.
  intros Hkey Hs.
  destruct (encrypt_str_ok os_urandom E (key self) thought w Hkey Hs)
    as [blob Henc].
  pose proof (save_lookup datetime_now blob (tick w)) as Hfile.
  destruct (Storage.save_encrypted_thought datetime_now blob (tick w))
    as [path w2] eqn:Esave.
  exists blob, (tick w), path, w2.
  split; [exact Henc |]. split; [exact Esave |]. split; [exact Hfile |].
  unfold Agent.store_thought. rewrite Henc, Esave. reflexivity.
Qed.

Lemma store_thoughts_ok (thoughts : list text) :
  forall (self : SecretAgent) (acc : list thought_metadata) (w : World),
    Encryption.aes_key_check (key self) = Ok tt ->
    Forall (fun s => forallb Py.scalar_value s = true) thoughts ->
    exists records w',
      store_thoughts self thoughts acc w
      = (Ok (acc ++ records),
         mkAgent (key self) (private_thought_count self + length thoughts),
         w') /\
      archived (key self) thoughts (private_thought_count self) w records w' /\
      length records = length thoughts /\
      map (fun md => id md) records
      = seq (private_thought_count self) (length thoughts) /\
      Forall (fun md => encrypted md = true) records.
Proof.
  induction thoughts as [|t thoughts IH]; intros self acc w Hkey Hall.
  - exists [], w. cbn [Agent.store_thoughts length].
    rewrite app_nil_r, Nat.add_0_r.
    destruct self. repeat split; constructor.
  - inversion Hall as [|? ? Ht Hrest]; subst.
    destruct (store_thought_ok self t w Hkey Ht)
      as (blob & w1 & path & w2 & Henc & Hsave & Hfile & Hstep).
    set (md := mkMetadata (private_thought_count self)
                          (time_time (ticks w2)) path (length blob) true)
      in *.
    set (self1 := mkAgent (key self) (S (private_thought_count self))) in *.
    destruct (IH self1 (acc ++ [md]) (tick w2) Hkey Hrest)
      as (records & w' & Hloop & Harch & Hlen & Hids & Henc').
    exists (md :: records), w'.
    cbn [Agent.store_thoughts]. rewrite Hstep, Hloop.
    cbn [key private_thought_count self1 length] in *.
    rewrite <- app_assoc. cbn [app].
    replace (S (private_thought_count self) + length thoughts)
      with (private_thought_count self + S (length thoughts)) by lia.
    split; [reflexivity |].
    split; [econstructor; eassumption |].
    split; [now rewrite Hlen |].
    split; [cbn [map seq id md]; now rewrite Hids |].
    constructor; [reflexivity | exact Henc'].
Qed.

Lemma process_messages_ok (messages : list text) :
  forall (self : SecretAgent) (w : World),
    Encryption.aes_key_check (key self) = Ok tt ->
    Forall (fun m => forallb Py.scalar_value m = true) messages ->
    exists outs w',
      let records := concat (map snd outs) in
      process_messages self messages w
      = (Ok outs,
         mkAgent (key self) (private_thought_count self + length records),
         w') /\
      map (fun md => id md) records
      = seq (private_thought_count self) (length records) /\
      Forall2 (fun message out =>
                 length (snd out)
                 = length (snd (Processor.process_output isalnum message)))
              messages outs /\
      Forall (fun md => encrypted md = true) records.
Proof.
  induction messages as [|m messages IH]; intros self w Hkey Hall.
  - exists [], w. cbn. rewrite Nat.add_0_r. destruct self.
    repeat split; constructor.
  - inversion Hall as [|? ? Hm Hrest]; subst.
    pose proof (process_output_filter m) as Hout.
    set (private := List.filter is_private
                      (Processor._split_into_segments isalnum m)) in *.
    assert (Hpriv : Forall (fun s => forallb Py.scalar_value s = true) private).
    { pose proof (private_thoughts_contents
                    (fun c => Py.scalar_value c = true) m) as H.
      rewrite Hout in H. cbn [snd] in H.
      eapply Forall_impl; [apply H; now apply forallb_Forall_iff |].
      intros s Hs. now apply forallb_Forall_iff. }
    destruct (store_thoughts_ok private self [] w Hkey Hpriv)
      as (records & w1 & Hloop & _ & Hlen & Hids & Henc).
    set (self1 := mkAgent (key self)
                          (private_thought_count self + length private)).
    destruct (IH self1 w1 Hkey Hrest) as (outs & w' & Hrec).
    cbv zeta in Hrec. destruct Hrec as (Hrun & Hids' & Hcounts & Henc').
    exists ((fst (Processor.process_output isalnum m), records) :: outs), w'.
    cbv zeta. cbn [map snd concat Agent.process_messages].
    unfold Agent.process_message.
    rewrite Hout. cbn [fst]. rewrite Hloop. cbn [app].
    fold self1. rewrite Hrun.
    cbn [key private_thought_count self1] in *.
    rewrite length_app, Hlen.
    split; [now rewrite (Nat.add_assoc (private_thought_count self)) |].
    split.
    + rewrite map_app, Hids, Hids', seq_app. reflexivity.
    + split.
      * constructor; [rewrite Hout; cbn [snd]; exact Hlen | exact Hcounts].
      * apply Forall_app. now split.
Qed.

(** An iteration that completes leaves the blob at the recorded path,
    and the record carries the counter and the blob's length. *)
Lemma store_thought_record (self self' : SecretAgent) (thought : text)
      (w w' : World) (md : thought_metadata) :
  store_thought self thought w = (Ok md, self', w') ->
  exists blob,
    files w' !! filepath md = Some blob /\
    size_bytes md = length blob /\
    id md = private_thought_count self /\
    encrypted md = true /\
    private_thought_count self' = S (private_thought_count self).
Proof.
  unfold Agent.store_thought.
  destruct (Encryption.encrypt os_urandom E (key self) (PyStr thought) w)
    as [[blob | e] w1]; [| discriminate].
  pose proof (save_lookup datetime_now blob w1) as Hfile.
  destruct (Storage.save_encrypted_thought datetime_now blob w1)
    as [path w2].
  cbn [fst snd] in Hfile.
  intros H. injection H as <- <- <-.
  exists blob. cbn. auto.
Qed.

End OrchestratorProperties.

(** ** Scenarios of the specification, evaluated *)

(** Scenario A: the second paragraph matches an indicator and is
    archived; the first is the public text; the record gives the size of
    the blob, 16 bytes of IV and 48 of ciphertext. *)
Example scenario_a_run :
  exists w',
    Agent.process_message ascii_isalnum zero_entropy toy_block
      fixed_now fixed_time agent0 scenario_a empty_world
    = (Ok (lit "Hello there.",
           [mkMetadata 0 (fixed_time 0)
              "private/private_thought_20240309140507.enc" 64 true]),
       mkAgent key32 1, w') /\
    Storage.get_saved_files w'
    = ["private/private_thought_20240309140507.enc"%string].
Proof. eexists. split; vm_compute; reflexivity. Qed.

(** Scenario B: nothing private, no record, nothing written. *)
Example scenario_b_run :
  Agent.process_message ascii_isalnum zero_entropy toy_block
    fixed_now fixed_time agent0 (lit "The sky is blue. Water is wet.")
    empty_world
  = (Ok (lit "The sky is blue. Water is wet.", []), agent0, empty_world).
Proof. vm_compute. reflexivity. Qed.

(** The indicator patterns are matched without regard to case. *)
Example indicator_ignores_case :
  Processor.classify ascii_isalnum (lit "KEEP THIS Secret")
  = (true, [Processor.CheckIndicators]).
Proof. vm_compute. reflexivity. Qed.

(** Just above the introspection threshold: 22 pronouns in 100 words. *)
Example above_threshold_is_private :
  Processor.classify ascii_isalnum
    (concat (repeat (lit "I ") 22 ++ repeat (lit "x ") 78))
  = (true, [Processor.CheckIndicators; Processor.CheckIntrospection]).
Proof. vm_compute. reflexivity. Qed.

Example at_threshold_is_public :
  Processor._is_likely_private ascii_isalnum threshold_text = false /\
  Processor._is_likely_private ascii_isalnum threshold_topic_text = false.
Proof. split; vm_compute; reflexivity. Qed.

(** Key files that the lenient decoder accepts or rejects. *)
Example load_key_of_garbage :
  fst (Encryption._load_or_create_key zero_entropy (world_with_key "!!!!"))
  = Ok [].
Proof. reflexivity. Qed.

Example load_key_incomplete_quad :
  fst (Encryption._load_or_create_key zero_entropy (world_with_key "YWJ"))
  = Raise BinasciiError.
Proof. reflexivity. Qed.

(** A key file that is not UTF-8 text, and one whose text ends with a
    carriage return and a line feed. *)
Example load_key_not_utf8 :
  fst (Encryption._load_or_create_key zero_entropy
         (mkWorld (Some [x59; x57; xff; x6a]) ∅ 0))
  = Raise UnicodeDecodeError.
Proof. reflexivity. Qed.

Example load_key_with_line_end :
  fst (Encryption._load_or_create_key zero_entropy
         (mkWorld (Some [x59; x57; x4a; x6a; x0d; x0a]) ∅ 0))
  = Ok [x61; x62; x63].
Proof. reflexivity. Qed.

(** A key created on first start is read back on the next. *)
Example create_then_load :
  let '(created, w) :=
    Encryption._load_or_create_key zero_entropy empty_world in
  created = Ok (repeat x00 32) /\
  fst (Encryption._load_or_create_key zero_entropy w) = created.
Proof. vm_compute. split; reflexivity. Qed.

(** A key of the wrong size is rejected only when it is first used. *)
Example short_key_fails_at_encrypt :
  fst (Encryption.encrypt zero_entropy toy_block [x61; x62; x63]
         (PyBytes []) empty_world)
  = Raise ValueError.
Proof. reflexivity. Qed.

(** Payloads of 0, 15, 16 and 17 bytes give blobs of 32, 32, 48 and 48
    bytes. *)
Example blob_sizes :
  map (fun n =>
         match fst (Encryption.encrypt zero_entropy toy_block key32
                      (PyBytes (repeat x41 n)) empty_world) with
         | Ok blob => length blob
         | Raise _ => 0
         end) [0; 15; 16; 17]
  = [32; 32; 48; 48].
Proof. vm_compute. reflexivity. Qed.

(** * Further properties of the code *)

(** ** Start-up and the key file *)

Lemma create_then_load_roundtrip_witness :
  key_file empty_world = None /\
  exists w1,
    Encryption._load_or_create_key zero_entropy empty_world
    = (Ok (repeat x00 32), w1) /\
    files w1 = files empty_world /\
    Encryption._load_or_create_key zero_entropy w1
    = (Ok (repeat x00 32), w1).
Proof.
  split; [reflexivity |].
  exact (create_then_load_roundtrip zero_entropy empty_world eq_refl).
Defined.

(** X2.  Whenever the construction of the agent succeeds, the counter is
    zero, no file of the private directory was touched, the key file
    exists, is read as text and decodes to the key the agent holds, and
    constructing the agent again yields the same agent and changes
    nothing.  A start with
    a key file reads no entropy; a start without one yields a 32-byte key
    that AES accepts, provided the entropy source returns the length it
    is asked for. *)
Theorem init_postcondition :
  forall (os_urandom : nat -> nat -> bytes) (w w' : World)
         (agent : SecretAgent),
    Agent.init os_urandom w = (Ok agent, w') ->
    private_thought_count agent = 0 /\
    files w' = files w /\
    (exists raw contents,
       key_file w' = Some raw /\
       Py.read_text raw = Ok contents /\
       Base64.b64decode (Py.strip contents) = Ok (key agent)) /\
    Agent.init os_urandom w' = (Ok agent, w') /\
    (key_file w <> None -> w' = w) /\
    (key_file w = None ->
     (forall t n, length (os_urandom t n) = n) ->
     length (key agent) = Encryption.KEY_SIZE /\
     Encryption.aes_key_check (key agent) = Ok tt).
Proof.
  intros rnd w w' agent.
  unfold Agent.init, Encryption._load_or_create_key.
  destruct (key_file w) as [raw |] eqn:Hfile.
  - destruct (Py.read_text raw) as [contents | e] eqn:Hread; cbn [rbind];
      [| intros H; inversion H].
    destruct (Base64.b64decode (Py.strip contents)) as [k | e] eqn:Hdec;
      intros H; inversion H; subst; clear H.
    rewrite Hfile, Hread. cbn [rbind]. rewrite Hdec.
    cbn [private_thought_count key].
    split; [reflexivity |]. split; [reflexivity |].
    split; [now exists raw, contents |]. split; [reflexivity |].
    split; [reflexivity | discriminate].
  - destruct (read_write_b64encode (rnd (ticks w) Encryption.KEY_SIZE))
      as (raw & -> & Hread).
    intros H; inversion H; subst; clear H.
    cbn [private_thought_count key key_file files].
    rewrite Hread. cbn [rbind]. rewrite b64decode_b64encode.
    split; [reflexivity |]. split; [reflexivity |].
    split; [eexists _, _; split; [reflexivity |];
            split; [exact Hread | apply b64decode_b64encode] |].
    split; [reflexivity |].
    split; [intros Hsome; now contradiction Hsome |].
    intros _ Hlen. unfold Encryption.aes_key_check.
    rewrite Hlen. split; reflexivity.
Qed.

Lemma init_postcondition_witness :
  Agent.init zero_entropy empty_world
  = (Ok (mkAgent (repeat x00 32) 0),
     world_after_first_start) /\
  Agent.init zero_entropy
    (world_after_first_start)
  = (Ok (mkAgent (repeat x00 32) 0),
     world_after_first_start).
Proof.
  split; [reflexivity |].
  exact (proj1 (proj2 (proj2 (proj2
           (init_postcondition zero_entropy empty_world _ _ eq_refl))))).
Defined.

(** X3.  After a successful construction of the agent, the configuration
    display reports AES-256, 256 bits and the key file as existing; the
    line that announces a missing key file is never printed. *)
Theorem display_after_init :
  forall (os_urandom : nat -> nat -> bytes) (w w' : World)
         (agent : SecretAgent),
    Agent.init os_urandom w = (Ok agent, w') ->
    Main.display_encryption_info w'
    = [ Main.LF +:+ "ENCRYPTION CONFIGURATION:";
        "Algorithm: AES-256";
        "Key Size: 256 bits";
        "Key File: key.txt";
        "Key File Status: EXISTS (key is available for researchers)";
        Main.LF +:+ Main.str_mul "-" 80 +:+ Main.LF ]%string /\
    ~ In "Key File Status: MISSING (encryption may fail)"%string
         (Main.display_encryption_info w').
Proof.
  intros rnd w w' agent Hinit.
  assert (exists contents, key_file w' = Some contents) as [contents Hfile].
  { revert Hinit. unfold Agent.init, Encryption._load_or_create_key.
    destruct (key_file w) as [raw |] eqn:Hfile.
    - destruct (Py.read_text raw) as [contents | e]; cbn [rbind];
        [| intros H; inversion H].
      destruct (Base64.b64decode (Py.strip contents));
        intros H; inversion H; subst; eauto.
    - destruct (Py.write_text _);
        intros H; inversion H; subst; cbn; eauto. }
  unfold Main.display_encryption_info. rewrite Hfile.
  split; [reflexivity |].
  vm_compute. intros H.
  repeat (destruct H as [H | H]; [discriminate H |]). exact H.
Qed.

Lemma display_after_init_witness :
  Agent.init zero_entropy empty_world
  = (Ok (mkAgent (repeat x00 32) 0),
     world_after_first_start) /\
  ~ In "Key File Status: MISSING (encryption may fail)"%string
       (Main.display_encryption_info
          (world_after_first_start)).
Proof.
  split; [reflexivity |].
  exact (proj2 (display_after_init zero_entropy empty_world _ _ eq_refl)).
Defined.

(** ** The outcomes of [encrypt] *)

Lemma utf8_char_not_scalar (c : N) :
  Py.scalar_value c = false -> Py.utf8_char c = Raise UnicodeEncodeError.
Proof.
  unfold Py.scalar_value, Py.utf8_char. intros H.
  destruct (N.ltb_spec c 0x80); [exfalso |].
  { destruct (N.ltb_spec c 0x110000); [| lia].
    destruct (N.leb_spec 0xD800 c); [lia | discriminate]. }
  destruct (N.ltb_spec c 0x800); [exfalso |].
  { destruct (N.ltb_spec c 0x110000); [| lia].
    destruct (N.leb_spec 0xD800 c); [lia | discriminate]. }
  destruct (N.ltb_spec c 0x10000).
  - destruct (N.ltb_spec c 0x110000); [| lia].
    destruct (N.leb_spec 0xD800 c); [| discriminate].
    destruct (N.leb_spec c 0xDFFF); [reflexivity | discriminate].
  - destruct (N.ltb_spec c 0x110000); [exfalso | reflexivity].
    destruct (N.leb_spec 0xD800 c); [| discriminate].
    destruct (N.leb_spec c 0xDFFF); [lia | discriminate].
Qed.

Lemma encode_utf8_not_scalar (s : text) :
  forallb Py.scalar_value s = false ->
  Py.encode_utf8 s = Raise UnicodeEncodeError.
Proof.
  induction s as [| c s IH]; cbn [forallb Py.encode_utf8]; [discriminate |].
  destruct (Py.scalar_value c) eqn:Hc; cbn [andb].
  - intros Hs. destruct (utf8_char_scalar c Hc) as [bs ->].
    cbn [rbind]. now rewrite (IH Hs).
  - intros _. now rewrite (utf8_char_not_scalar c Hc).
Qed.

Lemma encode_payload (data : pydata) :
  match data with
  | PyStr s => Py.encode_utf8 s
  | PyBytes b => Ok b
  end
  = if encodable data
    then match data with
         | PyStr s => Py.encode_utf8 s
         | PyBytes b => Ok b
         end
    else Raise UnicodeEncodeError.
Proof.
  destruct data as [s | b]; cbn [encodable]; [| reflexivity].
  destruct (forallb Py.scalar_value s) eqn:Hs; [reflexivity |].
  now apply encode_utf8_not_scalar.
Qed.

Lemma aes_key_check_cases (key : bytes) :
  Encryption.aes_key_check key = Ok tt \/
  exists e, Encryption.aes_key_check key = Raise e.
Proof.
  unfold Encryption.aes_key_check.
  destruct ((length key =? 16) || (length key =? 24) || (length key =? 32));
    [now left | right]. eauto.
Qed.

Lemma encrypt_cases (os_urandom : nat -> nat -> bytes)
      (E : bytes -> bytes -> bytes) (key : bytes) (data : pydata)
      (w : World) :
  Encryption.encrypt os_urandom E key data w
  = (Raise UnicodeEncodeError, w) \/
  (exists e, Encryption.encrypt os_urandom E key data w
             = (Raise e, tick w)) \/
  (exists p,
     Encryption.encrypt os_urandom E key data w
     = (Ok (os_urandom (ticks w) 16
            ++ concat (Encryption.cbc_encrypt_blocks E key
                         (os_urandom (ticks w) 16)
                         (Encryption.chunks
                            (length (Encryption.pkcs7_pad p))
                            (Encryption.pkcs7_pad p)))),
        tick w)).
Proof.
  destruct (encodable data) eqn:Hd.
  - right.
    assert (exists p, Encryption.encrypt os_urandom E key data w
                      = Encryption.encrypt os_urandom E key (PyBytes p) w)
      as [p ->].
    { destruct data as [s | b]; cbn [encodable] in Hd; [| eauto].
      destruct (encode_utf8_scalar s Hd) as [p Hp].
      exists p. now apply encrypt_str_as_bytes. }
    destruct (aes_key_check_cases key) as [Hk | [e Hk]].
    + right. exists p. now apply encrypt_bytes_eq.
    + left. exists e. unfold Encryption.encrypt. now rewrite Hk.
  - left. unfold Encryption.encrypt. rewrite encode_payload, Hd. reflexivity.
Qed.

(** X4.  [encrypt] returns a blob exactly when the payload can be encoded
    and the key has 16, 24 or 32 bytes.  A text that cannot be encoded
    raises [UnicodeEncodeError] before the entropy source is read; a key
    of another size raises after the IV has been drawn, so one read of
    the entropy source is spent and no blob is returned. *)
Theorem encrypt_outcomes :
  forall (os_urandom : nat -> nat -> bytes) (E : bytes -> bytes -> bytes)
         (key : bytes) (data : pydata) (w : World),
    (encodable data = false ->
     Encryption.encrypt os_urandom E key data w
     = (Raise UnicodeEncodeError, w)) /\
    (forall e, encodable data = true ->
               Encryption.aes_key_check key = Raise e ->
               Encryption.encrypt os_urandom E key data w
               = (Raise e, tick w)) /\
    (encodable data = true ->
     Encryption.aes_key_check key = Ok tt ->
     exists blob,
       Encryption.encrypt os_urandom E key data w = (Ok blob, tick w)) /\
    ((exists blob w',
        Encryption.encrypt os_urandom E key data w = (Ok blob, w')) <->
     encodable data = true /\
     (length key = 16 \/ length key = 24 \/ length key = 32)).
Proof.
  intros rnd E key data w.
  assert (Hbad : encodable data = false ->
                 Encryption.encrypt rnd E key data w
                 = (Raise UnicodeEncodeError, w)).
  { intros Hd. unfold Encryption.encrypt.
    rewrite encode_payload, Hd. reflexivity. }
  assert (Hpayload : encodable data = true ->
                     exists p, Encryption.encrypt rnd E key data w
                               = Encryption.encrypt rnd E key (PyBytes p) w).
  { destruct data as [s | b]; cbn [encodable]; intros Hd; [| eauto].
    destruct (encode_utf8_scalar s Hd) as [p Hp].
    exists p. now apply encrypt_str_as_bytes. }
  assert (Hkey : forall e, encodable data = true ->
                           Encryption.aes_key_check key = Raise e ->
                           Encryption.encrypt rnd E key data w
                           = (Raise e, tick w)).
  { intros e Hd Hk. destruct (Hpayload Hd) as [p ->].
    unfold Encryption.encrypt. now rewrite Hk. }
  assert (Hok : encodable data = true ->
                Encryption.aes_key_check key = Ok tt ->
                exists blob,
                  Encryption.encrypt rnd E key data w = (Ok blob, tick w)).
  { intros Hd Hk. destruct (Hpayload Hd) as [p ->].
    rewrite (encrypt_bytes_eq rnd E key p w Hk). eauto. }
  assert (Hsize : Encryption.aes_key_check key = Ok tt <->
                  length key = 16 \/ length key = 24 \/ length key = 32).
  { unfold Encryption.aes_key_check.
    destruct (Nat.eqb_spec (length key) 16); [cbn; tauto |].
    destruct (Nat.eqb_spec (length key) 24); [cbn; tauto |].
    destruct (Nat.eqb_spec (length key) 32); [cbn; tauto |].
    cbn [orb]. split; [discriminate | tauto]. }
  repeat split; try assumption.
  - destruct H as (blob & w' & H).
    destruct (encodable data) eqn:Hd; [reflexivity |].
    rewrite (Hbad eq_refl) in H. discriminate.
  - destruct H as (blob & w' & H).
    destruct (encodable data) eqn:Hd;
      [| rewrite (Hbad eq_refl) in H; discriminate].
    apply Hsize.
    destruct (aes_key_check_cases key) as [Hk | [e Hk]]; [exact Hk |].
    rewrite (Hkey e eq_refl Hk) in H. discriminate.
  - intros [Hd Hlen]. apply Hsize in Hlen.
    destruct (Hok Hd Hlen) as [blob Hblob]. eauto.
Qed.

(** ** A key file of the wrong size *)

Section LateFailure.

Variable isalnum : N -> bool.
Variable os_urandom : nat -> nat -> bytes.
Variable E : bytes -> bytes -> bytes.
Variable datetime_now : nat -> datetime.
Variable time_time : nat -> float.

(** X5.  A key file whose text decodes to a key that AES rejects does
    not stop the agent from starting: the construction succeeds with that
    key.  The failure comes later: every message with a private segment
    raises the cipher's exception at its first private segment, after one
    read of the entropy source and before anything is written; messages
    without a private segment still pass. *)
Theorem wrong_size_key_fails_late :
  forall (w : World) (raw : bytes) (contents : text) (k : bytes) (e : exn),
    key_file w = Some raw ->
    Py.read_text raw = Ok contents ->
    Base64.b64decode (Py.strip contents) = Ok k ->
    Encryption.aes_key_check k = Raise e ->
    Agent.init os_urandom w = (Ok (mkAgent k 0), w) /\
    forall (message : text) (w0 : World),
      forallb Py.scalar_value message = true ->
      let private := snd (Processor.process_output isalnum message) in
      (private = [] ->
       exists public_text,
         Agent.process_message isalnum os_urandom E datetime_now time_time
           (mkAgent k 0) message w0
         = (Ok (public_text, []), mkAgent k 0, w0)) /\
      (private <> [] ->
       Agent.process_message isalnum os_urandom E datetime_now time_time
         (mkAgent k 0) message w0
       = (Raise e, mkAgent k 0, tick w0)).
Proof.
  intros w raw contents k e Hfile Hread Hdec Hkey. split.
  { unfold Agent.init, Encryption._load_or_create_key.
    rewrite Hfile, Hread. cbn [rbind]. now rewrite Hdec. }
  intros message w0 Hmsg private.
  pose proof (private_thoughts_contents isalnum
                (fun c => Py.scalar_value c = true) message
                (proj1 (forallb_Forall_iff _ _) Hmsg)) as Hpriv.
  fold private in Hpriv.
  unfold Agent.process_message.
  destruct (Processor.process_output isalnum message) as [pub priv] eqn:Hout.
  cbn [snd] in private, Hpriv. subst private. split.
  - intros ->. cbn [Agent.store_thoughts]. eauto.
  - intros Hne. destruct priv as [| thought rest]; [congruence |].
    cbn [Agent.store_thoughts]. unfold Agent.store_thought.
    cbn [key].
    inversion Hpriv as [| ? ? Hthought _]; subst.
    apply forallb_Forall_iff in Hthought.
    destruct (encode_utf8_scalar thought Hthought) as [p Hp].
    rewrite (encrypt_str_as_bytes os_urandom E k thought p w0 Hp).
    unfold Encryption.encrypt. rewrite Hkey. reflexivity.
Qed.

End LateFailure.

Lemma wrong_size_key_fails_late_witness :
  Agent.init zero_entropy (world_with_key "YWJj")
  = (Ok (mkAgent [x61; x62; x63] 0), world_with_key "YWJj") /\
  Agent.process_message ascii_isalnum zero_entropy toy_block fixed_now
    fixed_time (mkAgent [x61; x62; x63] 0) (lit "my secret") empty_world
  = (Raise ValueError, mkAgent [x61; x62; x63] 0, tick empty_world).
Proof.
  pose proof (wrong_size_key_fails_late ascii_isalnum zero_entropy toy_block
                fixed_now fixed_time (world_with_key "YWJj")
                [x59; x57; x4a; x6a] (lit "YWJj") [x61; x62; x63] ValueError
                eq_refl eq_refl eq_refl eq_refl) as [Hinit Hlate].
  split; [exact Hinit |].
  refine (proj2 (Hlate (lit "my secret") empty_world eq_refl) _).
  vm_compute. discriminate.
Defined.
(** ** The segmenter and the classifier on whole messages *)

Lemma letter_i_not_space (l c : N) :
  Re.is_lower l = true -> Re.letter_i l c = true -> Py.isspace c = false.
Proof.
  unfold Re.is_lower, Re.letter_i. intros Hl Hc.
  apply andb_true_iff in Hl as [Hl1 Hl2].
  apply N.leb_le in Hl1, Hl2.
  assert (Hrange : (65 <= c <= 122 \/ c = 0x130 \/ c = 0x131 \/ c = 0x17F
                    \/ c = 0x212A)%N).
  { repeat (apply orb_true_iff in Hc as [Hc | Hc]).
    - apply N.eqb_eq in Hc. lia.
    - apply N.eqb_eq in Hc. lia.
    - apply andb_true_iff in Hc as [_ Hc].
      apply orb_true_iff in Hc as [Hc | Hc]; apply N.eqb_eq in Hc; lia.
    - apply andb_true_iff in Hc as [_ Hc]. apply N.eqb_eq in Hc. lia.
    - apply andb_true_iff in Hc as [_ Hc]. apply N.eqb_eq in Hc. lia. }
  clear Hc Hl1 Hl2. unfold Py.isspace.
  repeat (apply orb_false_intro);
    try (apply andb_false_iff);
    try (apply N.eqb_neq; lia).
  - right. apply N.leb_gt. lia.
  - right. apply N.leb_gt. lia.
  - destruct (N.leb_spec 0x2000 c); [right | now left].
    apply N.leb_gt. lia.
Qed.

Lemma char_i_chr (a : ascii) : Re.char_i a = Chr (ci_char a).
Proof.
  unfold Re.char_i, ci_char. cbv zeta.
  destruct (Re.is_upper (N_of_ascii a)); [reflexivity |].
  destruct (Re.is_lower (N_of_ascii a)); reflexivity.
Qed.

Lemma ci_letter_not_space (a : ascii) (c : N) :
  Re.is_upper (N_of_ascii a) || Re.is_lower (N_of_ascii a) = true ->
  ci_char a c = true -> Py.isspace c = false.
Proof.
  unfold ci_char. cbv zeta.
  destruct (Re.is_upper (N_of_ascii a)) eqn:Hu.
  - intros _. apply letter_i_not_space.
    unfold Re.is_upper in Hu. unfold Re.is_lower.
    apply andb_true_iff in Hu as [H1 H2]. apply N.leb_le in H1, H2.
    apply andb_true_iff. split; apply N.leb_le; lia.
  - cbn [orb]. intros Hl. rewrite Hl. now apply letter_i_not_space.
Qed.

Lemma word_starts (a : ascii) (s : string) :
  Re.is_upper (N_of_ascii a) || Re.is_lower (N_of_ascii a) = true ->
  starts_with (fun c => Py.isspace c = false) (Re.word (String a s)).
Proof.
  intros Ha. cbn [Re.word].
  destruct s; cbn [starts_with]; rewrite char_i_chr; cbn [starts_with];
    intros c; now apply ci_letter_not_space.
Qed.

Lemma alts_starts (P : N -> Prop) (rs : list regex) :
  rs <> [] -> Forall (starts_with P) rs -> starts_with P (Re.alts rs).
Proof.
  induction rs as [| r rs IH]; [congruence |].
  intros _ Hall. inversion Hall as [| ? ? Hr Hrs]; subst.
  destruct rs as [| r' rs']; [exact Hr |].
  change (starts_with P r /\ starts_with P (Re.alts (r' :: rs'))).
  split; [exact Hr | apply IH; [discriminate | exact Hrs]].
Qed.

Lemma seq_starts (P : N -> Prop) (r : regex) (rs : list regex) :
  starts_with P r -> starts_with P (Re.seq (r :: rs)).
Proof. destruct rs; intros H; exact H. Qed.

Lemma privacy_indicators_start :
  Forall (starts_with (fun c => Py.isspace c = false))
         Processor.PRIVACY_INDICATORS.
Proof.
  unfold Processor.PRIVACY_INDICATORS, Re.words.
  repeat match goal with
         | |- Forall _ [] => constructor
         | |- Forall _ (_ :: _) => constructor
         | |- starts_with _ (Re.seq _) => apply seq_starts
         | |- starts_with _ (Re.alts _) =>
           apply alts_starts; [discriminate | cbn [map]]
         | |- starts_with _ (Re.word _) => apply word_starts; reflexivity
         end.
Qed.

Lemma count_tokens_blank (s : text) (prev_space : bool) :
  Forall is_space s -> count_tokens prev_space s = 0.
Proof.
  intros Hs. revert prev_space.
  induction Hs as [| c s Hc _ IH]; intros prev_space; [reflexivity |].
  cbn [count_tokens]. rewrite Hc, IH, andb_false_r. reflexivity.
Qed.

Section WholeMessages.

Variable isalnum : N -> bool.

Local Notation "'is_private'" := (Processor._is_likely_private isalnum).
Local Notation "'segments'" := (Processor._split_into_segments isalnum).

Lemma matches_starts_with (P : N -> Prop) (r : regex) (b s a : text) :
  matches isalnum r b s a -> starts_with P r ->
  exists c s', s = c :: s' /\ P c.
Proof.
  induction 1 as [b a | p c b a Hp | r1 r2 b s1 s2 a _ IH1 _ _
                  | r1 r2 b s a _ IH | r1 r2 b s a _ IH
                  | r b a | r b s1 s2 a _ _ _ _ | b a Hb | p c b a Hp];
    cbn [starts_with]; try contradiction.
  - intros Hall. exists c, []. split; [reflexivity | now apply Hall].
  - intros H1. destruct (IH1 H1) as (c & s' & -> & Hc).
    exists c, (s' ++ s2). now split.
  - intros [H1 _]. exact (IH H1).
  - intros [_ H2]. exact (IH H2).
Qed.

Lemma search_needs_start (P : N -> Prop) (r : regex) (t : text) :
  starts_with P r -> Re.search isalnum r t = true -> Exists P t.
Proof.
  intros Hr Hs. apply search_iff in Hs as (pre & s & post & -> & Hm).
  destruct (matches_starts_with P r _ _ _ Hm Hr) as (c & s' & -> & Hc).
  apply List.Exists_app. right. now apply List.Exists_cons_hd.
Qed.

Lemma indicator_needs_text (t : text) :
  Forall is_space t -> Processor.indicator_match isalnum t = false.
Proof.
  intros Ht. unfold Processor.indicator_match.
  destruct (existsb _ _) eqn:E; [exfalso | reflexivity].
  apply existsb_exists in E as (r & Hin & Hs).
  pose proof (proj1 (List.Forall_forall _ _) privacy_indicators_start r Hin) as Hr.
  apply (search_needs_start _ r t Hr) in Hs.
  apply List.Exists_exists in Hs as (c & Hc & Hns).
  pose proof (proj1 (List.Forall_forall _ _) Ht c Hc) as Hsp.
  unfold is_space in Hsp. congruence.
Qed.

Lemma segments_non_whitespace (t : text) :
  non_whitespace (concat (segments t)) = non_whitespace t.
Proof.
  unfold Processor._split_into_segments.
  rewrite strip_filter_non_whitespace.
  rewrite <- (split_non_whitespace isalnum Processor.PARAGRAPH_BREAK t
                (paragraph_break_whitespace)).
  induction (Re.split isalnum Processor.PARAGRAPH_BREAK t)
    as [| seg segs IH]; [reflexivity |].
  cbn [flat_map concat]. rewrite concat_app, !non_whitespace_app, IH.
  f_equal.
  destruct (500 <? length (Py.strip seg)).
  - apply split_non_whitespace, sentence_break_whitespace.
  - cbn [concat]. now rewrite app_nil_r.
Qed.

Lemma segments_trimmed (t : text) : Forall trimmed_nonempty (segments t).
Proof. apply strip_filter_trimmed. Qed.

Lemma segments_blank (t : text) : Forall is_space t -> segments t = [].
Proof.
  intros Ht.
  pose proof (segments_non_whitespace t) as Hnw.
  pose proof (segments_trimmed t) as Htr.
  rewrite (non_whitespace_spaces t Ht) in Hnw.
  destruct (segments t) as [| s rest]; [reflexivity | exfalso].
  inversion Htr as [| ? ? (_ & _ & (c & s' & -> & Hc) & _) _]; subst.
  cbn [concat app] in Hnw. unfold non_whitespace in Hnw.
  cbn [List.filter] in Hnw. rewrite Hc in Hnw. discriminate Hnw.
Qed.

(** X6.  A message that is empty or consists of whitespace only has no
    segments and is not private by any of the three checks; the agent
    returns an empty public text and no record, stores nothing, reads
    neither the entropy source nor the clock, and does so whatever key it
    holds. *)
Theorem blank_message_is_noop :
  forall t : text,
    Forall is_space t ->
    segments t = [] /\
    is_private t = false /\
    forall os_urandom E datetime_now time_time (self : SecretAgent)
           (w : World),
      Agent.process_message isalnum os_urandom E datetime_now time_time
        self t w
      = (Ok ([], []), self, w).
Proof.
  intros t Ht. pose proof (segments_blank t Ht) as Hsegs.
  split; [exact Hsegs |]. split.
  - unfold Processor._is_likely_private, Processor.classify.
    rewrite (indicator_needs_text t Ht).
    unfold Processor.introspection_trigger, Processor.sensitivity_trigger,
      Processor._calculate_introspection_score,
      Processor._calculate_sensitivity_score.
    rewrite (split_length t). unfold token_count.
    rewrite (count_tokens_blank t true Ht). reflexivity.
  - intros rnd E now time self w.
    unfold Agent.process_message, Processor.process_output.
    rewrite Hsegs. reflexivity.
Qed.

Lemma join_non_whitespace (l : list text) :
  non_whitespace (Py.join [32%N] l) = non_whitespace (concat l).
Proof.
  induction l as [| p rest IH]; [reflexivity |].
  destruct rest as [| q rest].
  - cbn [Py.join concat]. now rewrite app_nil_r.
  - change (Py.join [32%N] (p :: q :: rest))
      with (p ++ [32%N] ++ Py.join [32%N] (q :: rest)).
    change (concat (p :: q :: rest)) with (p ++ concat (q :: rest)).
    rewrite !non_whitespace_app, IH. reflexivity.
Qed.

Lemma partition_non_whitespace (f : text -> bool) (l : list text) :
  Permutation
    (non_whitespace (concat (List.filter (fun s => negb (f s)) l))
     ++ non_whitespace (concat (List.filter f l)))
    (non_whitespace (concat l)).
Proof.
  induction l as [| x l IH]; [constructor |].
  cbn [List.filter concat]. rewrite non_whitespace_app.
  destruct (f x); cbn [negb concat]; rewrite non_whitespace_app.
  - rewrite Permutation_app_swap_app.
    now apply Permutation_app_head.
  - rewrite <- app_assoc. now apply Permutation_app_head.
Qed.

Lemma filter_concat_sublist (f : text -> bool) (l : list text) :
  sublist (non_whitespace (concat (List.filter f l)))
          (non_whitespace (concat l)).
Proof.
  induction l as [| x l IH]; [constructor |].
  cbn [List.filter concat]. rewrite non_whitespace_app.
  destruct (f x).
  - cbn [concat]. rewrite non_whitespace_app.
    now apply sublist_app.
  - now apply sublist_inserts_l.
Qed.

(** X7.  Nothing is lost and nothing is invented between a message and
    what the processor makes of it: the non-whitespace characters of the
    public text together with those of the private thoughts are, up to
    order, exactly those of the message; the public text and the private
    thoughts each keep their characters in the order of the message. *)
Theorem process_output_conserves :
  forall t : text,
    let public_text := fst (Processor.process_output isalnum t) in
    let private := snd (Processor.process_output isalnum t) in
    Permutation
      (non_whitespace public_text ++ non_whitespace (concat private))
      (non_whitespace t) /\
    sublist (non_whitespace public_text) (non_whitespace t) /\
    sublist (non_whitespace (concat private)) (non_whitespace t).
Proof.
  intros t. cbv zeta. rewrite process_output_filter. cbn [fst snd].
  rewrite join_non_whitespace, <- (segments_non_whitespace t).
  split; [apply partition_non_whitespace |].
  split; apply filter_concat_sublist.
Qed.

Lemma strip_fixed (s : text) :
  trimmed_nonempty s -> Py.strip s = s.
Proof. now intros (_ & H & _). Qed.

Lemma join_trimmed (l : list text) :
  l <> [] -> Forall trimmed_nonempty l ->
  (exists c s', Py.join [32%N] l = c :: s' /\ Py.isspace c = false) /\
  (exists s' c, Py.join [32%N] l = s' ++ [c] /\ Py.isspace c = false).
Proof.
  intros Hne Hall. split.
  - destruct l as [| p rest]; [congruence |].
    inversion Hall as [| ? ? (_ & _ & (c & s' & -> & Hc) & _) _]; subst.
    destruct rest as [| q rest].
    + exists c, s'. now split.
    + exists c, (s' ++ [32%N] ++ Py.join [32%N] (q :: rest)). now split.
  - revert Hne. induction Hall as [| p rest Hp Hrest IH]; intros Hne.
    + congruence.
    + destruct rest as [| q rest].
      * destruct Hp as (_ & _ & _ & (s' & c & -> & Hc)).
        exists s', c. now split.
      * destruct (IH ltac:(discriminate)) as (s' & c & Hj & Hc).
        exists (p ++ [32%N] ++ s'), c. split; [| exact Hc].
        change (Py.join [32%N] (p :: q :: rest))
          with (p ++ [32%N] ++ Py.join [32%N] (q :: rest)).
        rewrite Hj. now rewrite <- !app_assoc.
Qed.

Lemma ends_strip_fixed (s s1 s2 : text) (c d : N) :
  s = c :: s1 -> s = s2 ++ [d] ->
  Py.isspace c = false -> Py.isspace d = false -> Py.strip s = s.
Proof.
  intros H1 H2 Hc Hd. unfold Py.strip, Py.rstrip.
  rewrite H1 at 1. rewrite (lstrip_fixed c s1 Hc), <- H1.
  rewrite H2 at 1. rewrite rev_app_distr. cbn [rev app].
  rewrite (lstrip_fixed d (rev s2) Hd).
  change (d :: rev s2) with ([d] ++ rev s2).
  rewrite rev_app_distr, rev_involutive. cbn [rev app]. now symmetry.
Qed.

(** X8.  The public text is empty exactly when every segment of the
    message is private; otherwise it begins and ends with a character
    that is not whitespace, so that trimming it changes nothing. *)
Theorem public_text_shape :
  forall t : text,
    let public_text := fst (Processor.process_output isalnum t) in
    (public_text = [] <-> Forall (fun s => is_private s = true) (segments t))
    /\ (public_text <> [] -> trimmed_nonempty public_text).
Proof.
  intros t. cbv zeta. rewrite process_output_filter. cbn [fst].
  pose proof (segments_trimmed t) as Htr.
  set (segs := segments t) in *.
  set (pubs := List.filter (fun s => negb (is_private s)) segs).
  assert (Hpubs : Forall trimmed_nonempty pubs).
  { apply List.Forall_forall. intros s Hs. apply filter_In in Hs as [Hs _].
    exact (proj1 (List.Forall_forall _ _) Htr s Hs). }
  assert (Hshape : pubs <> [] -> trimmed_nonempty (Py.join [32%N] pubs)).
  { intros Hne. destruct (join_trimmed pubs Hne Hpubs)
      as [(c & s1 & H1 & Hc) (s2 & d & H2 & Hd)].
    split; [rewrite H1; discriminate |].
    split; [exact (ends_strip_fixed _ s1 s2 c d H1 H2 Hc Hd) |].
    split; eauto. }
  assert (Hempty : pubs = [] <->
                   Forall (fun s => is_private s = true) segs).
  { subst pubs. clear. induction segs as [| s segs IH].
    - split; [constructor | reflexivity].
    - cbn [List.filter]. destruct (is_private s) eqn:Hs; cbn [negb].
      + rewrite IH. split; [now constructor |].
        intros H; now inversion H.
      + split; [discriminate |].
        intros H; inversion H; congruence. }
  split.
  - rewrite <- Hempty. split; [| intros ->; reflexivity].
    intros Hj. destruct pubs as [| p rest] eqn:E; [reflexivity | exfalso].
    destruct (Hshape ltac:(discriminate)) as [Hne _]. now apply Hne.
  - intros Hne. apply Hshape. intros E. rewrite E in Hne. now apply Hne.
Qed.

Lemma ci_word_matches (w : string) :
  w <> EmptyString ->
  forall (s b a : text),
    ci_word w s = true -> matches isalnum (Re.word w) b s a.
Proof.
  induction w as [| x w IH]; [congruence |]. intros _ s b a Hs.
  destruct s as [| c s]; [discriminate |].
  cbn [ci_word] in Hs. apply andb_true_iff in Hs as [Hc Hs].
  destruct w as [| y w].
  - destruct s; [| discriminate].
    cbn [Re.word]. rewrite char_i_chr. now constructor.
  - change (Re.word (String x (String y w)))
      with (Cat (Re.char_i x) (Re.word (String y w))).
    rewrite char_i_chr.
    change (c :: s) with ([c] ++ s).
    constructor; [now constructor |].
    apply IH; [discriminate | exact Hs].
Qed.

Lemma alts_matches (rs : list regex) (r : regex) (b s a : text) :
  In r rs -> matches isalnum r b s a -> matches isalnum (Re.alts rs) b s a.
Proof.
  induction rs as [| r0 rs IH]; [contradiction |].
  intros Hin Hm. destruct rs as [| r1 rs].
  - destruct Hin as [-> | []]. exact Hm.
  - change (Re.alts (r0 :: r1 :: rs)) with (Alt r0 (Re.alts (r1 :: rs))).
    destruct Hin as [-> | Hin].
    + now apply matches_alt_l.
    + apply matches_alt_r. now apply IH.
Qed.

(** X9.  A text that contains one of the words private, secret,
    confidential, personal, sensitive is private, whatever the case of
    its letters and wherever it stands, also inside a longer word. *)
Theorem indicator_word_anywhere :
  forall (w : string) (pre s post : text),
    In w ["private"; "secret"; "confidential"; "personal";
          "sensitive"]%string ->
    ci_word w s = true ->
    is_private (pre ++ s ++ post) = true.
Proof.
  intros w pre s post Hw Hs.
  assert (Hne : w <> EmptyString).
  { intros ->. cbn in Hw. intuition discriminate. }
  assert (Hocc : occurs isalnum
                   (Re.words ["private"; "secret"; "confidential";
                              "personal"; "sensitive"]%string)
                   (pre ++ s ++ post)).
  { exists pre, s, post. split; [reflexivity |].
    unfold Re.words. apply (alts_matches _ (Re.word w)).
    - now apply in_map.
    - now apply ci_word_matches. }
  apply search_iff in Hocc.
  unfold Processor._is_likely_private, Processor.classify,
    Processor.indicator_match, Processor.PRIVACY_INDICATORS.
  cbn [existsb]. rewrite Hocc. reflexivity.
Qed.

End WholeMessages.

Lemma blank_message_is_noop_witness :
  Forall is_space (lit "   ") /\
  Agent.process_message ascii_isalnum zero_entropy toy_block fixed_now
    fixed_time agent0 (lit "   ") empty_world
  = (Ok ([], []), agent0, empty_world).
Proof.
  assert (H : Forall is_space (lit "   "))
    by (repeat constructor).
  split; [exact H |].
  exact (proj2 (proj2 (blank_message_is_noop ascii_isalnum (lit "   ") H))
           zero_entropy toy_block fixed_now fixed_time agent0 empty_world).
Defined.

Lemma public_text_shape_witness :
  fst (Processor.process_output ascii_isalnum scenario_a) <> [] /\
  trimmed_nonempty (fst (Processor.process_output ascii_isalnum scenario_a)).
Proof.
  assert (H : fst (Processor.process_output ascii_isalnum scenario_a) <> [])
    by (vm_compute; discriminate).
  split; [exact H |].
  exact (proj2 (public_text_shape ascii_isalnum scenario_a) H).
Defined.

Lemma indicator_word_anywhere_witness :
  In "secret"%string
     ["private"; "secret"; "confidential"; "personal"; "sensitive"]%string /\
  ci_word "secret" (lit "SeCrEt") = true /\
  Processor._is_likely_private ascii_isalnum
    (lit "the " ++ lit "SeCrEt" ++ lit "ive type")
  = true.
Proof.
  assert (Hin : In "secret"%string
                   ["private"; "secret"; "confidential"; "personal";
                    "sensitive"]%string) by (right; left; reflexivity).
  split; [exact Hin |]. split; [reflexivity |].
  exact (indicator_word_anywhere ascii_isalnum "secret" (lit "the ")
           (lit "SeCrEt") (lit "ive type") Hin eq_refl).
Defined.
(** ** The range of the scores *)

Lemma binary_round_aux_sign_clear (mx ex : Z) (lx : location) :
  sign_clear (binary_round_aux prec emax false mx ex lx).
Proof.
  unfold binary_round_aux.
  destruct (shr_fexp prec emax mx ex lx) as [mrs' e'].
  destruct (shr_fexp prec emax _ e' loc_Exact) as [mrs'' e''].
  destruct (shr_m mrs''); [reflexivity | | exact I].
  destruct (Z.leb e'' (Z.sub emax prec)); reflexivity.
Qed.

Lemma SFmul_sign_clear (x y : spec_float) :
  sign_clear x -> sign_clear y -> sign_clear (SFmul prec emax x y).
Proof.
  destruct x as [sx | sx | | sx mx ex], y as [sy | sy | | sy my ey];
    cbn [sign_clear SFmul]; intros Hx Hy; subst;
    try reflexivity; try exact I.
  apply binary_round_aux_sign_clear.
Qed.

Lemma SFdiv_sign_clear (x y : spec_float) :
  sign_clear x -> sign_clear y -> sign_clear (SFdiv prec emax x y).
Proof.
  destruct x as [sx | sx | | sx mx ex], y as [sy | sy | | sy my ey];
    cbn [sign_clear SFdiv]; intros Hx Hy; subst;
    try reflexivity; try exact I.
  destruct (SFdiv_core_binary prec emax (Zpos mx) ex (Zpos my) ey)
    as [[mz ez] lz].
  apply binary_round_aux_sign_clear.
Qed.

Lemma float_of_nat_sign_clear (n : nat) :
  sign_clear (Prim2SF (float_of_nat n)).
Proof.
  unfold float_of_nat. rewrite FloatAxioms.of_uint63_spec.
  pose proof (Uint63.to_Z_bounded (Uint63.of_Z (Z.of_nat n))) as Hb.
  unfold binary_normalize.
  destruct (Uint63.to_Z (Uint63.of_Z (Z.of_nat n))) as [| m | m];
    [reflexivity | | lia].
  unfold binary_round.
  destruct (shl_align _ _ _) as [mz ez].
  apply binary_round_aux_sign_clear.
Qed.

Lemma ratio_sign_clear (a b : nat) (scale : float) :
  sign_clear (Prim2SF scale) ->
  sign_clear (Prim2SF (float_of_nat a / (float_of_nat b * scale))%float).
Proof.
  intros Hs. rewrite FloatAxioms.div_spec, FloatAxioms.mul_spec.
  apply SFdiv_sign_clear; [apply float_of_nat_sign_clear |].
  apply SFmul_sign_clear; [apply float_of_nat_sign_clear | exact Hs].
Qed.

Lemma py_min_unit (x : float) :
  sign_clear (Prim2SF x) ->
  (0 <=? py_min 1 x)%float = true /\ (py_min 1 x <=? 1)%float = true.
Proof.
  intros Hx. unfold py_min.
  destruct (x <? 1)%float eqn:E; [| split; reflexivity].
  rewrite FloatAxioms.ltb_spec in E. rewrite !FloatAxioms.leb_spec.
  change (Prim2SF 0) with (S754_zero false).
  split.
  - destruct (Prim2SF x) as [s | s | | s mx ex]; cbn [sign_clear] in Hx;
      subst; try reflexivity.
    discriminate E.
  - unfold SFltb in E. unfold SFleb.
    destruct (SFcompare (Prim2SF x) (Prim2SF 1)) as [[| |] |];
      try discriminate E; reflexivity.
Qed.

(** X10.  Both scores lie between 0.0 and 1.0, bounds included, for every
    text: neither is ever negative, above one, or not a number. *)
Theorem scores_within_unit_interval :
  forall (isalnum : N -> bool) (t : text),
    let introspection := Processor._calculate_introspection_score isalnum t in
    let sensitivity := Processor._calculate_sensitivity_score isalnum t in
    (0 <=? introspection)%float = true /\
    (introspection <=? 1)%float = true /\
    (0 <=? sensitivity)%float = true /\
    (sensitivity <=? 1)%float = true.
Proof.
  intros isalnum t. cbv zeta.
  unfold Processor._calculate_introspection_score,
    Processor._calculate_sensitivity_score.
  destruct (length (Py.split t) =? 0).
  - repeat split; reflexivity.
  - pose proof (py_min_unit _
                  (ratio_sign_clear
                     (length (Re.findall isalnum Processor.FIRST_PERSON t)
                      + length (Re.findall isalnum Processor.THINKING_VERBS t)
                      + length (Re.findall isalnum Processor.UNCERTAINTY t))
                     (length (Py.split t)) Processor.INTROSPECTION_SCALE
                     eq_refl)) as [H1 H2].
    pose proof (py_min_unit _
                  (ratio_sign_clear
                     (list_sum
                        (map (fun pattern =>
                                length (Re.findall isalnum pattern t))
                             Processor.SENSITIVE_TOPICS)
                      + length (Re.findall isalnum
                                  Processor.CAUTION_PHRASES t) * 2)
                     (length (Py.split t)) Processor.SENSITIVITY_SCALE
                     eq_refl)) as [H3 H4].
    repeat split; assumption.
Qed.
(** ** File names *)

Lemma string_app_inj (a a' b b' : string) :
  String.length a = String.length a' ->
  (a +:+ b)%string = (a' +:+ b')%string -> a = a' /\ b = b'.
Proof.
  revert a'. induction a as [| c a IH]; intros [| c' a'] Hlen H;
    try discriminate Hlen.
  - now split.
  - rewrite !string_app_cons in H. injection H as -> H.
    injection Hlen as Hlen. destruct (IH a' Hlen H) as [-> ->]. now split.
Qed.

Lemma digit_inj (n1 n2 : nat) :
  Storage.digit n1 = Storage.digit n2 -> n1 mod 10 = n2 mod 10.
Proof.
  unfold Storage.digit. intros H.
  apply (f_equal nat_of_ascii) in H.
  pose proof (Nat.mod_upper_bound n1 10 ltac:(lia)).
  pose proof (Nat.mod_upper_bound n2 10 ltac:(lia)).
  rewrite !nat_ascii_embedding in H by lia. lia.
Qed.

Lemma zfill_inj (width : nat) :
  forall n1 n2 : nat,
    n1 < 10 ^ width -> n2 < 10 ^ width ->
    Storage.zfill width n1 = Storage.zfill width n2 -> n1 = n2.
Proof.
  induction width as [| width IH]; intros n1 n2 H1 H2 H.
  - cbn in H1, H2. lia.
  - cbn [Storage.zfill] in H.
    apply string_app_inj in H as [Hhigh Hlow];
      [| now rewrite !zfill_length].
    injection Hlow as Hlow. apply digit_inj in Hlow.
    rewrite Nat.pow_succ_r' in H1, H2.
    apply IH in Hhigh;
      [| now apply Nat.Div0.div_lt_upper_bound
       | now apply Nat.Div0.div_lt_upper_bound].
    rewrite (Nat.div_mod_eq n1 10), (Nat.div_mod_eq n2 10). lia.
Qed.

Lemma strftime_inj (d1 d2 : datetime) :
  calendar_fields d1 -> calendar_fields d2 ->
  Storage.strftime d1 = Storage.strftime d2 -> d1 = d2.
Proof.
  intros (Hy1 & Hmo1 & Hd1 & Hh1 & Hmi1 & Hs1)
         (Hy2 & Hmo2 & Hd2 & Hh2 & Hmi2 & Hs2).
  unfold Storage.strftime.
  rewrite (decimal_four_digits _ Hy1), (decimal_four_digits _ Hy2).
  intros H.
  apply string_app_inj in H as [Hy H]; [| now rewrite !zfill_length].
  apply string_app_inj in H as [Hmo H]; [| now rewrite !zfill_length].
  apply string_app_inj in H as [Hd H]; [| now rewrite !zfill_length].
  apply string_app_inj in H as [Hh H]; [| now rewrite !zfill_length].
  apply string_app_inj in H as [Hmi Hs]; [| now rewrite !zfill_length].
  unfold four_digit_year in Hy1, Hy2.
  apply zfill_inj in Hy;
    [| change (10 ^ 4) with (10 * 1000); lia
     | change (10 ^ 4) with (10 * 1000); lia].
  apply zfill_inj in Hmo; [| cbn; lia | cbn; lia].
  apply zfill_inj in Hd; [| cbn; lia | cbn; lia].
  apply zfill_inj in Hh; [| cbn; lia | cbn; lia].
  apply zfill_inj in Hmi; [| cbn; lia | cbn; lia].
  apply zfill_inj in Hs; [| cbn; lia | cbn; lia].
  destruct d1, d2. cbn in *. congruence.
Qed.

Lemma thought_path_inj (d1 d2 : datetime) :
  calendar_fields d1 -> calendar_fields d2 ->
  thought_path d1 = thought_path d2 -> d1 = d2.
Proof.
  intros H1 H2. unfold thought_path. intros H.
  apply string_app_inj in H as [_ H]; [| reflexivity].
  apply string_app_inj in H as [_ H]; [| reflexivity].
  apply string_app_inj in H as [_ H]; [| reflexivity].
  apply string_app_inj in H as [H _];
    [| rewrite !strftime_length; [reflexivity | apply H2 | apply H1]].
  now apply strftime_inj.
Qed.

Lemma thought_path_glob (d : datetime) :
  Storage.glob_enc (thought_path d) = true.
Proof. apply glob_enc_thought, strftime_digits. Qed.

Lemma get_saved_files_iff (w : World) (p : string) :
  In p (Storage.get_saved_files w) <->
  is_Some (files w !! p) /\ Storage.glob_enc p = true.
Proof.
  unfold Storage.get_saved_files. rewrite filter_In, in_map_iff.
  split.
  - intros [([q b] & Hq & Hin) Hg]. cbn in Hq. subst q.
    apply list_elem_of_In, elem_of_map_to_list in Hin.
    split; [now exists b | exact Hg].
  - intros [[b Hb] Hg]. split; [| exact Hg].
    exists (p, b). split; [reflexivity |].
    now apply list_elem_of_In, elem_of_map_to_list.
Qed.

(** ** The store over time *)

Lemma grows_refl (w : World) : grows w w.
Proof. repeat split; auto. Qed.

Lemma grows_trans (w1 w2 w3 : World) :
  grows w1 w2 -> grows w2 w3 -> grows w1 w3.
Proof.
  intros (Hk1 & Ht1 & Hf1 & Ho1) (Hk2 & Ht2 & Hf2 & Ho2).
  split; [congruence |]. split; [lia |]. split.
  - intros p Hp. auto.
  - intros p Hp. rewrite Ho2, Ho1 by exact Hp. reflexivity.
Qed.

Lemma grows_tick (w : World) : grows w (tick w).
Proof. repeat split; cbn; auto. Qed.

Lemma grows_save (w : World) (d : datetime) (blob : bytes) (n : nat) :
  ticks w <= n ->
  grows w (mkWorld (key_file w) (<[thought_path d := blob]> (files w)) n).
Proof.
  intros Hn. split; [reflexivity |]. split; [exact Hn |]. cbn [files]. split.
  - intros p Hp. destruct (decide (p = thought_path d)) as [-> | Hne].
    + rewrite lookup_insert_eq. eauto.
    + now rewrite lookup_insert_ne.
  - intros p Hp. apply lookup_insert_ne. intros <-.
    rewrite thought_path_glob in Hp. discriminate Hp.
Qed.

Section StoreOverTime.

Variable isalnum : N -> bool.
Variable os_urandom : nat -> nat -> bytes.
Variable E : bytes -> bytes -> bytes.
Variable datetime_now : nat -> datetime.
Variable time_time : nat -> float.

Local Notation "'store_thought'" :=
  (Agent.store_thought os_urandom E datetime_now time_time).
Local Notation "'store_thoughts'" :=
  (Agent.store_thoughts os_urandom E datetime_now time_time).
Local Notation "'process_message'" :=
  (Agent.process_message isalnum os_urandom E datetime_now time_time).
Local Notation "'process_messages'" :=
  (Agent.process_messages isalnum os_urandom E datetime_now time_time).
Local Notation "'archived'" :=
  (archived os_urandom E datetime_now time_time).

(** The three ways in which one iteration of the loop can end. *)
Lemma store_thought_cases (self : SecretAgent) (thought : text) (w : World) :
  store_thought self thought w = (Raise UnicodeEncodeError, self, w) \/
  (exists e, store_thought self thought w = (Raise e, self, tick w)) \/
  (exists p,
     let blob :=
       os_urandom (ticks w) 16
       ++ concat (Encryption.cbc_encrypt_blocks E (key self)
                    (os_urandom (ticks w) 16)
                    (Encryption.chunks (length (Encryption.pkcs7_pad p))
                       (Encryption.pkcs7_pad p))) in
     let path := thought_path (datetime_now (S (ticks w))) in
     Encryption.encrypt os_urandom E (key self) (PyStr thought) w
     = (Ok blob, tick w) /\
     store_thought self thought w
     = (Ok (mkMetadata (private_thought_count self)
                       (time_time (S (S (ticks w)))) path (length blob) true),
        mkAgent (key self) (S (private_thought_count self)),
        mkWorld (key_file w) (<[path := blob]> (files w))
                (S (S (S (ticks w)))))).
Proof.
  unfold Agent.store_thought.
  destruct (encrypt_cases os_urandom E (key self) (PyStr thought) w)
    as [H | [[e H] | [p H]]]; rewrite H.
  - now left.
  - right; left. now exists e.
  - right; right. exists p. split; reflexivity.
Qed.

Lemma store_thought_frame (self self' : SecretAgent) (thought : text)
      (w w' : World) (r : result thought_metadata) :
  store_thought self thought w = (r, self', w') ->
  key self' = key self /\
  private_thought_count self <= private_thought_count self' /\
  grows w w'.
Proof.
  destruct (store_thought_cases self thought w)
    as [H | [[e H] | (p & _ & H)]]; rewrite H; intros Heq;
    inversion Heq; subst; clear Heq; cbn [key private_thought_count].
  - split; [reflexivity |]. split; [lia | apply grows_refl].
  - split; [reflexivity |]. split; [lia | apply grows_tick].
  - split; [reflexivity |]. split; [lia | apply grows_save; lia].
Qed.

Lemma store_thoughts_frame (thoughts : list text) :
  forall (self self' : SecretAgent) (acc : list thought_metadata)
         (w w' : World) (r : result (list thought_metadata)),
    store_thoughts self thoughts acc w = (r, self', w') ->
    key self' = key self /\
    private_thought_count self <= private_thought_count self' /\
    grows w w'.
Proof.
  induction thoughts as [| t thoughts IH]; intros self self' acc w w' r.
  - cbn [Agent.store_thoughts]. intros Heq; inversion Heq; subst.
    split; [reflexivity |]. split; [lia | apply grows_refl].
  - cbn [Agent.store_thoughts].
    destruct (store_thought self t w) as [[[md | e] self1] w1] eqn:Hstep;
      apply store_thought_frame in Hstep as (Hk & Hc & Hg).
    + intros Hrest. apply IH in Hrest as (Hk' & Hc' & Hg').
      split; [congruence |]. split; [lia |].
      exact (grows_trans _ _ _ Hg Hg').
    + intros Heq; inversion Heq; subst. now split.
Qed.

Lemma process_message_frame (self self' : SecretAgent) (message : text)
      (w w' : World) (r : result (text * list thought_metadata)) :
  process_message self message w = (r, self', w') ->
  key self' = key self /\
  private_thought_count self <= private_thought_count self' /\
  grows w w'.
Proof.
  unfold Agent.process_message.
  destruct (Processor.process_output isalnum message) as [pub priv].
  destruct (store_thoughts self priv [] w) as [[[records | e] self1] w1]
    eqn:Hloop; apply store_thoughts_frame in Hloop;
    intros Heq; inversion Heq; subst; exact Hloop.
Qed.

Lemma grows_listing (w w' : World) (p : string) :
  grows w w' ->
  In p (Storage.get_saved_files w) -> In p (Storage.get_saved_files w').
Proof.
  intros (_ & _ & Hf & _). rewrite !get_saved_files_iff.
  intros [Hp Hg]. split; [now apply Hf | exact Hg].
Qed.

(** X11.  Whatever the outcome of [process_message], success or
    exception, the agent keeps its key and its counter never decreases;
    the key file is left as it was; no file disappears, so the listing of
    stored thoughts only grows; and no file outside the [.enc] entries of
    the private directory is created or changed. *)
Theorem process_message_preserves :
  forall (self : SecretAgent) (message : text) (w : World),
    let '(_, self', w') := process_message self message w in
    key self' = key self /\
    private_thought_count self <= private_thought_count self' /\
    key_file w' = key_file w /\
    ticks w <= ticks w' /\
    (forall p, is_Some (files w !! p) -> is_Some (files w' !! p)) /\
    (forall p, Storage.glob_enc p = false -> files w' !! p = files w !! p) /\
    (forall p, In p (Agent.get_stored_files_info w) ->
               In p (Agent.get_stored_files_info w')).
Proof.
  intros self message w.
  destruct (process_message self message w) as [[r self'] w'] eqn:H.
  apply process_message_frame in H as (Hk & Hc & Hg).
  split; [exact Hk |]. split; [exact Hc |].
  pose proof Hg as (Hkf & Ht & Hf & Ho).
  repeat (split; [assumption |]).
  intros p. now apply grows_listing.
Qed.

(** The loop stops at the first thought that cannot be encoded. *)
Lemma store_thoughts_stop (good : list text) :
  forall (self : SecretAgent) (bad : text) (rest : list text)
         (acc : list thought_metadata) (w : World),
    Encryption.aes_key_check (key self) = Ok tt ->
    Forall (fun s => forallb Py.scalar_value s = true) good ->
    forallb Py.scalar_value bad = false ->
    exists records w',
      store_thoughts self (good ++ bad :: rest) acc w
      = (Raise UnicodeEncodeError,
         mkAgent (key self) (private_thought_count self + length good),
         w') /\
      archived (key self) good (private_thought_count self) w records w' /\
      length records = length good.
Proof.
  induction good as [| t good IH]; intros self bad rest acc w Hkey Hgood Hbad.
  - exists [], w. cbn [app Agent.store_thoughts length].
    unfold Agent.store_thought, Encryption.encrypt.
    rewrite (encode_utf8_not_scalar bad Hbad), Nat.add_0_r.
    destruct self. repeat split; constructor.
  - inversion Hgood as [| ? ? Ht Hrest]; subst.
    destruct (store_thought_ok os_urandom E datetime_now time_time
                self t w Hkey Ht)
      as (blob & w1 & path & w2 & Henc & Hsave & Hfile & Hstep).
    set (md := mkMetadata (private_thought_count self)
                          (time_time (ticks w2)) path (length blob) true)
      in *.
    set (self1 := mkAgent (key self) (S (private_thought_count self))) in *.
    destruct (IH self1 bad rest (acc ++ [md]) (tick w2) Hkey Hrest Hbad)
      as (records & w' & Hloop & Harch & Hlen).
    exists (md :: records), w'.
    cbn [app Agent.store_thoughts]. rewrite Hstep, Hloop.
    cbn [key private_thought_count self1 length] in *.
    replace (S (private_thought_count self) + length good)
      with (private_thought_count self + S (length good)) by lia.
    split; [reflexivity |].
    split; [econstructor; eassumption | now rewrite Hlen].
Qed.

(** X12.  When a private thought cannot be encoded, the exception leaves
    [process_message] at that thought: the private thoughts before it
    have already been encrypted and written and the counter has advanced
    by their number, but the caller receives neither their records nor
    the public text. *)
Theorem failing_thought_strands_earlier_ones :
  forall (self : SecretAgent) (message : text) (good : list text)
         (bad : text) (rest : list text) (w : World),
    snd (Processor.process_output isalnum message) = good ++ bad :: rest ->
    Encryption.aes_key_check (key self) = Ok tt ->
    Forall (fun s => forallb Py.scalar_value s = true) good ->
    forallb Py.scalar_value bad = false ->
    exists records w',
      process_message self message w
      = (Raise UnicodeEncodeError,
         mkAgent (key self) (private_thought_count self + length good),
         w') /\
      archived (key self) good (private_thought_count self) w records w' /\
      length records = length good.
Proof.
  intros self message good bad rest w Hout Hkey Hgood Hbad.
  unfold Agent.process_message.
  destruct (Processor.process_output isalnum message) as [pub priv].
  cbn [snd] in Hout. subst priv.
  destruct (store_thoughts_stop good self bad rest [] w Hkey Hgood Hbad)
    as (records & w' & Hloop & Harch & Hlen).
  exists records, w'. rewrite Hloop. now split.
Qed.

(** Two thoughts stored one after the other. *)
Lemma two_thoughts (self : SecretAgent) (t1 t2 : text) (w : World) :
  Encryption.aes_key_check (key self) = Ok tt ->
  forallb Py.scalar_value t1 = true ->
  forallb Py.scalar_value t2 = true ->
  exists blob1 blob2,
    let path1 := thought_path (datetime_now (1 + ticks w)) in
    let path2 := thought_path (datetime_now (4 + ticks w)) in
    let w1 := mkWorld (key_file w) (<[path1 := blob1]> (files w))
                      (3 + ticks w) in
    Encryption.encrypt os_urandom E (key self) (PyStr t1) w
    = (Ok blob1, tick w) /\
    Encryption.encrypt os_urandom E (key self) (PyStr t2) w1
    = (Ok blob2, tick w1) /\
    store_thoughts self [t1; t2] [] w
    = (Ok [mkMetadata (private_thought_count self)
                      (time_time (2 + ticks w)) path1 (length blob1) true;
           mkMetadata (S (private_thought_count self))
                      (time_time (5 + ticks w)) path2 (length blob2) true],
       mkAgent (key self) (S (S (private_thought_count self))),
       mkWorld (key_file w)
               (<[path2 := blob2]> (<[path1 := blob1]> (files w)))
               (6 + ticks w)).
Proof.
  intros Hkey H1 H2.
  destruct (store_thought_cases self t1 w)
    as [H | [[e H] | (p1 & Henc1 & Hs1)]].
  - exfalso. unfold Agent.store_thought in H.
    destruct (encrypt_str_ok os_urandom E (key self) t1 w Hkey H1)
      as [b Hb]. rewrite Hb in H. discriminate H.
  - exfalso. unfold Agent.store_thought in H.
    destruct (encrypt_str_ok os_urandom E (key self) t1 w Hkey H1)
      as [b Hb]. rewrite Hb in H. discriminate H.
  - cbv zeta in Henc1, Hs1.
    match type of Henc1 with _ = (Ok ?b, _) => set (blob1 := b) in * end.
    set (self1 := mkAgent (key self) (S (private_thought_count self))) in *.
    match type of Hs1 with _ = (_, _, ?x) => set (w1 := x) in * end.
    destruct (store_thought_cases self1 t2 w1)
      as [H | [[e H] | (p2 & Henc2 & Hs2)]].
    + exfalso. unfold Agent.store_thought in H.
      destruct (encrypt_str_ok os_urandom E (key self1) t2 w1 Hkey H2)
        as [b Hb]. rewrite Hb in H. discriminate H.
    + exfalso. unfold Agent.store_thought in H.
      destruct (encrypt_str_ok os_urandom E (key self1) t2 w1 Hkey H2)
        as [b Hb]. rewrite Hb in H. discriminate H.
    + cbv zeta in Henc2, Hs2.
      match type of Henc2 with _ = (Ok ?b, _) => set (blob2 := b) in * end.
      exists blob1, blob2. cbv zeta. split; [exact Henc1 |].
      split; [exact Henc2 |].
      cbn [Agent.store_thoughts]. rewrite Hs1. rewrite Hs2.
      reflexivity.
Qed.

(** X13.  Two private thoughts whose files are named within the same
    second of the clock get the same path: two records are returned and
    the counter advances by two, but there is one file, and it holds the
    ciphertext of the second thought; the ciphertext of the first is
    overwritten. *)
Theorem same_second_thoughts_collide :
  forall (self : SecretAgent) (t1 t2 : text) (w : World),
    Encryption.aes_key_check (key self) = Ok tt ->
    forallb Py.scalar_value t1 = true ->
    forallb Py.scalar_value t2 = true ->
    Storage.strftime (datetime_now (1 + ticks w))
    = Storage.strftime (datetime_now (4 + ticks w)) ->
    exists md1 md2 self' w' w1 blob2,
      store_thoughts self [t1; t2] [] w = (Ok [md1; md2], self', w') /\
      private_thought_count self' = private_thought_count self + 2 /\
      filepath md1 = filepath md2 /\
      Encryption.encrypt os_urandom E (key self) (PyStr t2) w1
      = (Ok blob2, tick w1) /\
      size_bytes md2 = length blob2 /\
      files w' !! filepath md1 = Some blob2 /\
      (forall p, p <> filepath md1 -> files w' !! p = files w !! p).
Proof.
  intros self t1 t2 w Hkey H1 H2 Hsame.
  destruct (two_thoughts self t1 t2 w Hkey H1 H2)
    as (blob1 & blob2 & Henc1 & Henc2 & Hloop).
  cbv zeta in Henc2, Hloop.
  assert (Hpath : thought_path (datetime_now (4 + ticks w))
                  = thought_path (datetime_now (1 + ticks w)))
    by (unfold thought_path; now rewrite Hsame).
  rewrite Hpath in Hloop.
  do 5 eexists. exists blob2. split; [exact Hloop |].
  cbn [private_thought_count filepath size_bytes files].
  split; [lia |]. split; [reflexivity |].
  split; [exact Henc2 |]. split; [reflexivity |].
  split; [apply lookup_insert_eq |].
  intros p Hp. now rewrite !lookup_insert_ne by congruence.
Qed.

(** X14.  Two private thoughts whose files are named at different
    calendar times get different paths, and after the loop each file
    holds the ciphertext of its own thought, of the size recorded. *)
Theorem distinct_seconds_keep_both :
  forall (self : SecretAgent) (t1 t2 : text) (w : World),
    Encryption.aes_key_check (key self) = Ok tt ->
    forallb Py.scalar_value t1 = true ->
    forallb Py.scalar_value t2 = true ->
    calendar_fields (datetime_now (1 + ticks w)) ->
    calendar_fields (datetime_now (4 + ticks w)) ->
    datetime_now (1 + ticks w) <> datetime_now (4 + ticks w) ->
    exists md1 md2 self' w' w1 blob1 blob2,
      store_thoughts self [t1; t2] [] w = (Ok [md1; md2], self', w') /\
      filepath md1 <> filepath md2 /\
      Encryption.encrypt os_urandom E (key self) (PyStr t1) w
      = (Ok blob1, tick w) /\
      Encryption.encrypt os_urandom E (key self) (PyStr t2) w1
      = (Ok blob2, tick w1) /\
      files w' !! filepath md1 = Some blob1 /\
      files w' !! filepath md2 = Some blob2 /\
      size_bytes md1 = length blob1 /\
      size_bytes md2 = length blob2.
Proof.
  intros self t1 t2 w Hkey H1 H2 Hc1 Hc2 Hne.
  destruct (two_thoughts self t1 t2 w Hkey H1 H2)
    as (blob1 & blob2 & Henc1 & Henc2 & Hloop).
  cbv zeta in Henc2, Hloop.
  assert (Hpath : thought_path (datetime_now (1 + ticks w))
                  <> thought_path (datetime_now (4 + ticks w))).
  { intros Heq. apply Hne. now apply thought_path_inj. }
  do 5 eexists. exists blob1, blob2. split; [exact Hloop |].
  cbn [filepath size_bytes files].
  split; [exact Hpath |]. split; [exact Henc1 |]. split; [exact Henc2 |].
  split; [rewrite lookup_insert_ne by congruence; apply lookup_insert_eq |].
  split; [apply lookup_insert_eq |]. now split.
Qed.

End StoreOverTime.
Lemma failing_thought_strands_earlier_ones_witness :
  exists records w',
    Agent.process_message ascii_isalnum zero_entropy toy_block fixed_now
      fixed_time agent0 half_stored empty_world
    = (Raise UnicodeEncodeError, mkAgent key32 1, w') /\
    archived zero_entropy toy_block fixed_now fixed_time key32
             [lit "my first secret"] 0 empty_world records w' /\
    length records = 1.
Proof.
  refine (failing_thought_strands_earlier_ones ascii_isalnum zero_entropy
            toy_block fixed_now fixed_time agent0 half_stored
            [lit "my first secret"] (lit "my second secret " ++ [0xD800%N])
            [] empty_world _ eq_refl _ eq_refl).
  - vm_compute. reflexivity.
  - repeat constructor.
Defined.

Lemma same_second_thoughts_collide_witness :
  exists md1 md2 self' w',
    Agent.store_thoughts zero_entropy toy_block fixed_now fixed_time agent0
      [lit "my secret"; lit "our secret"] [] empty_world
    = (Ok [md1; md2], self', w') /\
    private_thought_count self' = 2 /\
    filepath md1 = filepath md2.
Proof.
  destruct (same_second_thoughts_collide zero_entropy toy_block fixed_now
              fixed_time agent0 (lit "my secret") (lit "our secret")
              empty_world eq_refl eq_refl eq_refl eq_refl)
    as (md1 & md2 & self' & w' & w1 & blob2 & H & Hn & Hp & _).
  exists md1, md2, self', w'. now repeat split.
Defined.

Lemma distinct_seconds_keep_both_witness :
  exists md1 md2 self' w',
    Agent.store_thoughts zero_entropy toy_block later_now fixed_time agent0
      [lit "my secret"; lit "our secret"] [] empty_world
    = (Ok [md1; md2], self', w') /\
    filepath md1 <> filepath md2 /\
    is_Some (files w' !! filepath md1) /\
    is_Some (files w' !! filepath md2).
Proof.
  assert (Hc1 : calendar_fields (later_now (1 + ticks empty_world)))
    by (unfold calendar_fields, four_digit_year; cbn; lia).
  assert (Hc2 : calendar_fields (later_now (4 + ticks empty_world)))
    by (unfold calendar_fields, four_digit_year; cbn; lia).
  assert (Hne : later_now (1 + ticks empty_world)
                <> later_now (4 + ticks empty_world))
    by (cbn; intros H; discriminate H).
  destruct (distinct_seconds_keep_both zero_entropy toy_block later_now
              fixed_time agent0 (lit "my secret") (lit "our secret")
              empty_world eq_refl eq_refl eq_refl Hc1 Hc2 Hne)
    as (md1 & md2 & self' & w' & w1 & blob1 & blob2 & H & Hp & _ & _
        & Hf1 & Hf2 & _).
  exists md1, md2, self', w'.
  split; [exact H |]. split; [exact Hp |]. split; eauto.
Defined.

(** ** Records and the files they name *)

Section RecordsOnDisk.

Variable isalnum : N -> bool.
Variable os_urandom : nat -> nat -> bytes.
Variable E : bytes -> bytes -> bytes.
Variable datetime_now : nat -> datetime.
Variable time_time : nat -> float.

Hypothesis os_urandom_length : forall t n, length (os_urandom t n) = n.
Hypothesis E_length :
  forall k b, length b = Encryption.BLOCK ->
              length (E k b) = Encryption.BLOCK.

Local Notation "'store_thought'" :=
  (Agent.store_thought os_urandom E datetime_now time_time).
Local Notation "'store_thoughts'" :=
  (Agent.store_thoughts os_urandom E datetime_now time_time).
Local Notation "'process_message'" :=
  (Agent.process_message isalnum os_urandom E datetime_now time_time).
Local Notation "'process_messages'" :=
  (Agent.process_messages isalnum os_urandom E datetime_now time_time).

Local Notation "'on_disk'" :=
  (fun (w : World) (md : thought_metadata) =>
     In (filepath md) (Agent.get_stored_files_info w) /\
     holds_blob w (filepath md) /\
     size_bytes md mod 16 = 0 /\ 32 <= size_bytes md).

Lemma on_disk_grows (w w' : World) (md : thought_metadata) :
  grows w w' ->
  (forall p, holds_blob w p -> holds_blob w' p) ->
  on_disk w md -> on_disk w' md.
Proof.
  intros Hg Hh (Hin & Hb & Hsz). split; [| split; [now apply Hh | exact Hsz]].
  unfold Agent.get_stored_files_info in *.
  now apply (grows_listing w w').
Qed.

Lemma store_thought_on_disk (self self' : SecretAgent) (thought : text)
      (w w' : World) (r : result thought_metadata) :
  store_thought self thought w = (r, self', w') ->
  (forall p, holds_blob w p -> holds_blob w' p) /\
  (forall md, r = Ok md -> on_disk w' md).
Proof.
  destruct (store_thought_cases os_urandom E datetime_now time_time
              self thought w) as [H | [[e H] | (p & _ & H)]];
    rewrite H; intros Heq; inversion Heq; subst; clear Heq.
  - split; [auto | discriminate].
  - split; [auto | discriminate].
  - pose proof (blob_length os_urandom E os_urandom_length E_length
                  (key self) p w) as Hlen.
    match type of Hlen with length ?b = _ => set (blob := b) in * end.
    set (path := thought_path (datetime_now (S (ticks w)))).
    assert (Hsized : blob_sized blob).
    { unfold blob_sized. rewrite Hlen. split; [lia |].
      replace (16 + 16 * (length p / 16 + 1))
        with ((length p / 16 + 2) * 16) by lia.
      apply Nat.Div0.mod_mul. }
    split.
    + intros q (b & Hq & Hb). unfold holds_blob. cbn [files].
      destruct (decide (q = path)) as [-> | Hne].
      * exists blob. split; [apply lookup_insert_eq | exact Hsized].
      * exists b. split; [now rewrite lookup_insert_ne | exact Hb].
    + intros md Hmd. injection Hmd as <-. cbn [filepath size_bytes].
      split; [| split].
      * apply get_saved_files_iff. cbn [files]. split.
        -- rewrite lookup_insert_eq. eauto.
        -- apply thought_path_glob.
      * exists blob. cbn [files]. split; [apply lookup_insert_eq | exact Hsized].
      * destruct Hsized as [H32 H16]. now split.
Qed.

Lemma store_thoughts_on_disk (thoughts : list text) :
  forall (self self' : SecretAgent) (acc : list thought_metadata)
         (w w' : World) (r : result (list thought_metadata)),
    store_thoughts self thoughts acc w = (r, self', w') ->
    (forall p, holds_blob w p -> holds_blob w' p) /\
    (forall records, r = Ok records ->
                     Forall (on_disk w) acc -> Forall (on_disk w') records).
Proof.
  induction thoughts as [| t thoughts IH]; intros self self' acc w w' r.
  - cbn [Agent.store_thoughts]. intros Heq; inversion Heq; subst.
    split; [auto |]. intros records Hr. now injection Hr as <-.
  - cbn [Agent.store_thoughts].
    destruct (store_thought self t w) as [[[md | e] self1] w1] eqn:Hstep.
    + pose proof (store_thought_frame os_urandom E datetime_now time_time
                    _ _ _ _ _ _ Hstep) as (_ & _ & Hg).
      apply store_thought_on_disk in Hstep as [Hmono Hmd].
      intros Hrest. apply IH in Hrest as [Hmono' Hrec].
      split; [auto |]. intros records Hr Hacc. apply (Hrec records Hr).
      apply Forall_app. split.
      * eapply Forall_impl; [exact Hacc |].
        intros md0. now apply on_disk_grows.
      * constructor; [now apply Hmd | constructor].
    + apply store_thought_on_disk in Hstep as [Hmono _].
      intros Heq; inversion Heq; subst. split; [exact Hmono | discriminate].
Qed.

Lemma process_message_on_disk (self self' : SecretAgent) (message : text)
      (w w' : World) (r : result (text * list thought_metadata)) :
  process_message self message w = (r, self', w') ->
  (forall p, holds_blob w p -> holds_blob w' p) /\
  (forall out, r = Ok out -> Forall (on_disk w') (snd out)).
Proof.
  unfold Agent.process_message.
  destruct (Processor.process_output isalnum message) as [pub priv].
  destruct (store_thoughts self priv [] w) as [[[records | e] self1] w1]
    eqn:Hloop; apply store_thoughts_on_disk in Hloop as [Hmono Hrec];
    intros Heq; inversion Heq; subst; (split; [exact Hmono |]).
  - intros out Hout. injection Hout as <-. cbn [snd].
    apply (Hrec records eq_refl). constructor.
  - discriminate.
Qed.

Lemma process_messages_on_disk (messages : list text) :
  forall (self self' : SecretAgent) (w w' : World)
         (r : result (list (text * list thought_metadata))),
    process_messages self messages w = (r, self', w') ->
    grows w w' /\
    (forall p, holds_blob w p -> holds_blob w' p) /\
    (forall outs, r = Ok outs ->
                  Forall (on_disk w') (concat (map snd outs))).
Proof.
  induction messages as [| message rest IH]; intros self self' w w' r.
  - cbn [Agent.process_messages]. intros Heq; inversion Heq; subst.
    split; [apply grows_refl |]. split; [auto |].
    intros outs Hr. injection Hr as <-. constructor.
  - cbn [Agent.process_messages].
    destruct (process_message self message w) as [[[out | e] self1] w1]
      eqn:Hstep.
    + pose proof (process_message_frame isalnum os_urandom E datetime_now
                    time_time _ _ _ _ _ _ Hstep) as (_ & _ & Hg).
      apply process_message_on_disk in Hstep as [Hmono Hout].
      destruct (process_messages self1 rest w1) as [[[outs | e] self2] w2]
        eqn:Hrest; apply IH in Hrest as (Hg' & Hmono' & Houts);
        intros Heq; inversion Heq; subst;
        (split; [exact (grows_trans _ _ _ Hg Hg') |]);
        (split; [auto |]).
      * intros outs0 Hr. injection Hr as <-. cbn [map concat].
        apply Forall_app. split; [| now apply Houts].
        eapply Forall_impl; [exact (Hout out eq_refl) |].
        intros md. now apply on_disk_grows.
      * discriminate.
    + pose proof (process_message_frame isalnum os_urandom E datetime_now
                    time_time _ _ _ _ _ _ Hstep) as (_ & _ & Hg).
      apply process_message_on_disk in Hstep as [Hmono _].
      intros Heq; inversion Heq; subst.
      split; [exact Hg |]. split; [exact Hmono | discriminate].
Qed.

(** X15.  At the end of a session that succeeded, every record that was
    returned names a file that the listing of stored thoughts contains
    and that holds a blob of at least 32 bytes, a multiple of 16; the
    size in the record is such a size too.  The file need not hold the
    blob of that record: a later thought may have overwritten it. *)
Theorem session_records_on_disk :
  forall (self self' : SecretAgent) (messages : list text) (w w' : World)
         (outs : list (text * list thought_metadata)),
    process_messages self messages w = (Ok outs, self', w') ->
    Forall (fun md =>
              In (filepath md) (Agent.get_stored_files_info w') /\
              holds_blob w' (filepath md) /\
              size_bytes md mod 16 = 0 /\ 32 <= size_bytes md)
           (concat (map snd outs)).
Proof.
  intros self self' messages w w' outs H.
  apply process_messages_on_disk in H as (_ & _ & H).
  now apply H.
Qed.

End RecordsOnDisk.

Lemma session_records_on_disk_witness :
  exists outs self' w',
    Agent.process_messages ascii_isalnum zero_entropy toy_block fixed_now
      fixed_time agent0 [scenario_a; scenario_a] empty_world
    = (Ok outs, self', w') /\
    Forall (fun md =>
              In (filepath md) (Agent.get_stored_files_info w') /\
              holds_blob w' (filepath md) /\
              size_bytes md mod 16 = 0 /\ 32 <= size_bytes md)
           (concat (map snd outs)).
Proof.
  destruct (Agent.process_messages ascii_isalnum zero_entropy toy_block
              fixed_now fixed_time agent0 [scenario_a; scenario_a]
              empty_world) as [[[outs | e] self'] w'] eqn:H.
  - exists outs, self', w'. split; [reflexivity |].
    exact (session_records_on_disk ascii_isalnum zero_entropy toy_block
             fixed_now fixed_time zero_entropy_length toy_block_length
             _ _ _ _ _ _ H).
  - vm_compute in H. discriminate H.
Defined.
(** ** The blob determines the plaintext *)

Section CipherInjective.

Import Encryption.

Variable os_urandom : nat -> nat -> bytes.
Variable E : bytes -> bytes -> bytes.

Hypothesis os_urandom_length : forall t n, length (os_urandom t n) = n.
Hypothesis E_length : forall k b, length b = BLOCK -> length (E k b) = BLOCK.

(** Under a key, the block cipher maps different blocks to different
    blocks. *)
Hypothesis E_injective :
  forall k b1 b2, length b1 = BLOCK -> length b2 = BLOCK ->
                  E k b1 = E k b2 -> b1 = b2.

Lemma xor_bytes_inj (a b c : bytes) :
  length a = length c -> length b = length c ->
  xor_bytes a c = xor_bytes b c -> a = b.
Proof.
  intros Ha Hb H.
  rewrite <- (xor_bytes_cancel a c Ha), <- (xor_bytes_cancel b c Hb).
  now rewrite H.
Qed.

Lemma cbc_encrypt_blocks_inj (key : bytes) (blocks1 : list bytes) :
  forall (prev : bytes) (blocks2 : list bytes),
    length prev = BLOCK ->
    Forall (fun b => length b = BLOCK) blocks1 ->
    Forall (fun b => length b = BLOCK) blocks2 ->
    cbc_encrypt_blocks E key prev blocks1
    = cbc_encrypt_blocks E key prev blocks2 ->
    blocks1 = blocks2.
Proof.
  induction blocks1 as [| p1 blocks1 IH]; intros prev [| p2 blocks2] Hprev
    H1 H2 H; try discriminate H; [reflexivity |].
  cbn [cbc_encrypt_blocks] in H. injection H as Hhead Htail.
  inversion H1 as [| ? ? Hp1 Hrest1]; subst.
  inversion H2 as [| ? ? Hp2 Hrest2]; subst.
  assert (Hx : xor_bytes p1 prev = xor_bytes p2 prev).
  { apply (E_injective key); [| | exact Hhead];
      rewrite xor_bytes_length; congruence. }
  apply xor_bytes_inj in Hx; [| congruence | congruence]. subst p2.
  f_equal. apply (IH (E key (xor_bytes p1 prev))); try assumption.
  apply E_length. rewrite xor_bytes_length; congruence.
Qed.

Lemma concat_blocks_inj (blocks1 blocks2 : list bytes) :
  Forall (fun b => length b = BLOCK) blocks1 ->
  Forall (fun b => length b = BLOCK) blocks2 ->
  concat blocks1 = concat blocks2 -> blocks1 = blocks2.
Proof.
  intros H1 H2 H.
  pose proof (chunks_concat blocks1 (length blocks1 + length blocks2) H1
                ltac:(lia)) as E1.
  pose proof (chunks_concat blocks2 (length blocks1 + length blocks2) H2
                ltac:(lia)) as E2.
  rewrite H in E1. congruence.
Qed.

(** X16.  Under a key that AES accepts, two different payloads never
    yield the same blob, whichever initialisation vectors are drawn: a
    blob stands for one plaintext only. *)
Theorem encrypt_injective :
  forall (key p1 p2 : bytes) (w1 w2 : World),
    aes_key_check key = Ok tt ->
    p1 <> p2 ->
    fst (encrypt os_urandom E key (PyBytes p1) w1)
    <> fst (encrypt os_urandom E key (PyBytes p2) w2).
Proof.
  intros key p1 p2 w1 w2 Hkey Hne.
  rewrite !(encrypt_bytes_eq os_urandom E key _ _ Hkey). cbn [fst].
  intros H. injection H as H. apply Hne.
  apply app_inj_1 in H as [Hiv H];
    [| now rewrite !os_urandom_length].
  rewrite <- Hiv in H.
  assert (Hb : forall p,
             Forall (fun b => length b = BLOCK)
                    (chunks (length (pkcs7_pad p)) (pkcs7_pad p)))
    by (intros p; apply chunks_blocks, pkcs7_pad_aligned).
  assert (Hiv16 : length (os_urandom (ticks w1) 16) = BLOCK)
    by apply os_urandom_length.
  apply concat_blocks_inj in H;
    [| apply (cbc_encrypt_blocks_shape E E_length); [exact Hiv16 | apply Hb]
     | apply (cbc_encrypt_blocks_shape E E_length); [exact Hiv16 | apply Hb]].
  apply cbc_encrypt_blocks_inj in H; [| exact Hiv16 | apply Hb | apply Hb].
  apply (f_equal (@concat byte)) in H.
  rewrite !concat_chunks in H by lia.
  pose proof (pkcs7_unpad_pad p1) as Hu1.
  pose proof (pkcs7_unpad_pad p2) as Hu2.
  rewrite H in Hu1. congruence.
Qed.

End CipherInjective.

Lemma toy_block_injective (k b1 b2 : bytes) :
  length b1 = Encryption.BLOCK -> length b2 = Encryption.BLOCK ->
  toy_block k b1 = toy_block k b2 -> b1 = b2.
Proof.
  intros H1 H2 H.
  rewrite <- (toy_block_inverse k b1 H1), <- (toy_block_inverse k b2 H2).
  now rewrite H.
Qed.

Lemma encrypt_injective_witness :
  Encryption.aes_key_check key32 = Ok tt /\
  [x68] <> [x69] /\
  fst (Encryption.encrypt zero_entropy toy_block key32
         (PyBytes [x68]) empty_world)
  <> fst (Encryption.encrypt zero_entropy toy_block key32
            (PyBytes [x69]) (tick empty_world)).
Proof.
  assert (Hne : [x68] <> [x69]) by discriminate.
  split; [reflexivity |]. split; [exact Hne |].
  exact (encrypt_injective zero_entropy toy_block zero_entropy_length
           toy_block_length toy_block_injective key32 [x68] [x69]
           empty_world (tick empty_world) eq_refl Hne).
Defined.
(** ** Segments are stable *)

Lemma snoc_decompose {A : Type} (l pre post : list A) (x y : A) :
  l ++ [x] = pre ++ y :: post ->
  (post = [] /\ pre = l /\ y = x) \/
  (exists post0, post = post0 ++ [x] /\ l = pre ++ y :: post0).
Proof.
  destruct post as [| z post _] using rev_ind; intros H.
  - left. apply app_inj_2 in H as [-> H]; [| reflexivity].
    injection H as ->. now split.
  - right. exists post.
    change (pre ++ y :: post ++ [z]) with (pre ++ (y :: post) ++ [z]) in H.
    rewrite app_assoc in H.
    apply app_inj_2 in H as [-> H]; [| reflexivity].
    injection H as ->. now split.
Qed.

Lemma infix_of_refl (s : text) : infix_of s s.
Proof. exists [], []. now rewrite app_nil_r. Qed.

Lemma infix_of_trans (s t u : text) :
  infix_of s t -> infix_of t u -> infix_of s u.
Proof.
  intros (l1 & r1 & ->) (l2 & r2 & ->).
  exists (l2 ++ l1), (r1 ++ r2). now rewrite <- !app_assoc.
Qed.

Lemma lstrip_suffix (s : text) : exists l, s = l ++ Py.lstrip s.
Proof.
  induction s as [| c s [l IH]]; [now exists [] |].
  cbn [Py.lstrip]. destruct (Py.isspace c).
  - exists (c :: l). cbn [app]. now rewrite <- IH.
  - now exists [].
Qed.

Lemma strip_infix (s : text) : infix_of (Py.strip s) s.
Proof.
  destruct (lstrip_suffix s) as [l Hl].
  destruct (lstrip_suffix (rev (Py.lstrip s))) as [r Hr].
  exists l, (rev r). unfold Py.strip, Py.rstrip.
  rewrite <- rev_app_distr, <- Hr, rev_involutive. exact Hl.
Qed.

Lemma no_paragraph_break_infix (s t : text) :
  infix_of s t -> no_paragraph_break t -> no_paragraph_break s.
Proof.
  intros (l & r & ->) Ht pre mid post ->.
  apply (Ht (l ++ pre) mid (post ++ r)).
  now rewrite <- !app_assoc.
Qed.

Lemma no_sentence_break_infix (s t : text) :
  infix_of s t -> no_sentence_break t -> no_sentence_break s.
Proof.
  intros (l & r & ->) Ht pre c d post ->.
  apply (Ht (l ++ pre) c d (post ++ r)).
  now rewrite <- !app_assoc.
Qed.

Section StableSegments.

Variable isalnum : N -> bool.

Local Notation "'is_private'" := (Processor._is_likely_private isalnum).
Local Notation "'segments'" := (Processor._split_into_segments isalnum).
Local Notation "'no_match'" := (no_match_at isalnum).

(** A text that has no match of [r] at any position is not split. *)
Lemma split_from_no_match (r : regex) (a : text) :
  forall (b cur : text),
    (forall pre c post,
       a = pre ++ c :: post -> no_match r (rev pre ++ b) (c :: post)) ->
    Re.split_from isalnum r b a 0 cur = [rev cur ++ a].
Proof.
  induction a as [| c a IH]; intros b cur H.
  - cbn [Re.split_from]. now rewrite app_nil_r.
  - cbn [Re.split_from].
    assert (Hrest : Re.split_from isalnum r (c :: b) a 0 (c :: cur)
                    = [rev cur ++ c :: a]).
    { rewrite IH.
      - cbn [rev]. now rewrite <- app_assoc.
      - intros pre c' post ->.
        replace (rev pre ++ c :: b) with (rev (c :: pre) ++ b)
          by (cbn [rev]; now rewrite <- app_assoc).
        now apply H. }
    destruct (Re.match_at isalnum r b (c :: a)) as [[| n] |] eqn:Em;
      try exact Hrest.
    exfalso. exact (H [] c a eq_refl n Em).
Qed.

(** The pieces of a split have no match of [r] inside, where they
    stood. *)
Lemma split_from_pieces (r : regex) (a : text) :
  forall (b : text) (skip : nat) (cur b0 : text),
    skip = 0 \/ cur = [] ->
    b = cur ++ b0 ->
    (forall pre c post,
       rev cur = pre ++ c :: post ->
       no_match r (rev pre ++ b0) (c :: post ++ a)) ->
    Forall (fun y =>
              exists b1 a1,
                forall pre c post,
                  y = pre ++ c :: post ->
                  no_match r (rev pre ++ b1) (c :: post ++ a1))
           (Re.split_from isalnum r b a skip cur).
Proof.
  induction a as [| c a IH]; intros b skip cur b0 Hskip Hb Hcur.
  - cbn [Re.split_from]. constructor; [| constructor].
    exists b0, []. exact Hcur.
  - cbn [Re.split_from]. destruct skip as [| n].
    + assert (Hgrow :
                Re.match_at isalnum r b (c :: a) = None \/
                Re.match_at isalnum r b (c :: a) = Some 0 ->
                Forall (fun y =>
                          exists b1 a1,
                            forall pre c post,
                              y = pre ++ c :: post ->
                              no_match r (rev pre ++ b1) (c :: post ++ a1))
                       (Re.split_from isalnum r (c :: b) a 0 (c :: cur))).
      { intros Em. apply (IH (c :: b) 0 (c :: cur) b0).
        - now left.
        - now rewrite Hb.
        - intros pre c' post Hdec. cbn [rev] in Hdec.
          apply snoc_decompose in Hdec
            as [(-> & -> & ->) | (post0 & -> & Hdec)].
          + rewrite rev_involutive, <- Hb. cbn [app].
            intros n Hn. destruct Em as [Em | Em]; congruence.
          + rewrite <- app_assoc. cbn [app]. now apply Hcur. }
      destruct (Re.match_at isalnum r b (c :: a)) as [[| n] |] eqn:Em.
      * apply Hgrow. now right.
      * constructor.
        -- exists b0, (c :: a). exact Hcur.
        -- apply (IH (c :: b) n [] (c :: b)); [now right | reflexivity |].
           intros pre c' post Hdec. now destruct pre.
      * apply Hgrow. now left.
    + destruct Hskip as [Hskip | ->]; [discriminate Hskip |].
      apply (IH (c :: b) n [] (c :: b)); [now right | reflexivity |].
      intros pre c' post Hdec. now destruct pre.
Qed.

(** The pieces of a split are parts of the text. *)
Lemma split_from_infix (r : regex) (a : text) :
  forall (b : text) (skip : nat) (cur : text),
    skip = 0 \/ cur = [] ->
    Forall (fun y => infix_of y (rev cur ++ a))
           (Re.split_from isalnum r b a skip cur).
Proof.
  induction a as [| c a IH]; intros b skip cur Hskip.
  - cbn [Re.split_from]. constructor; [| constructor].
    exists [], []. now rewrite app_nil_r.
  - cbn [Re.split_from]. destruct skip as [| n].
    + assert (Hgrow : Forall (fun y => infix_of y (rev cur ++ c :: a))
                        (Re.split_from isalnum r (c :: b) a 0 (c :: cur))).
      { pose proof (IH (c :: b) 0 (c :: cur) (or_introl eq_refl)) as H.
        cbn [rev] in H. now rewrite <- app_assoc in H. }
      destruct (Re.match_at isalnum r b (c :: a)) as [[| n] |] eqn:Em;
        try exact Hgrow.
      constructor.
      * exists [], (c :: a). reflexivity.
      * eapply Forall_impl;
          [exact (IH (c :: b) n [] (or_intror eq_refl)) |].
        intros y (l & r0 & Hy). cbn [rev app] in Hy.
        exists (rev cur ++ c :: l), r0. rewrite Hy.
        rewrite <- app_assoc. reflexivity.
    + destruct Hskip as [Hskip | ->]; [discriminate Hskip |].
      eapply Forall_impl; [exact (IH (c :: b) n [] (or_intror eq_refl)) |].
      intros y (l & r0 & Hy). cbn [rev app] in *.
      exists (c :: l), r0. now rewrite Hy.
Qed.

(** Where [r] matches, the matcher finds a match, and a non-empty one if
    [r] has no empty match. *)
Lemma match_at_hit (r : regex) (b s a : text) :
  matches isalnum r b s a -> 1 <= min_length r ->
  exists n, Re.match_at isalnum r b (s ++ a) = Some (S n).
Proof.
  intros Hm Hmin.
  destruct (m_complete isalnum r b s a Hm nat
              (fun _ a' => Some (length (s ++ a) - length a')))
    as [x Hx]; [eauto |].
  change (Re.match_at isalnum r b (s ++ a) = Some x) in Hx.
  pose proof (match_at_matches isalnum r b (s ++ a) x Hx) as [Hle Hm'].
  apply matches_min_length in Hm'.
  rewrite length_take in Hm'.
  destruct x as [| n]; [lia | now exists n].
Qed.

Lemma matches_ws_star (s : text) :
  Forall is_space s ->
  forall b a, matches isalnum Re.ws_star b s a.
Proof.
  induction 1 as [| c s Hc _ IH]; intros b a; [constructor |].
  change (c :: s) with ([c] ++ s).
  apply matches_star_cons; [now constructor | apply IH].
Qed.

Lemma paragraph_break_hit (b mid post : text) :
  Forall is_space mid ->
  exists n,
    Re.match_at isalnum Processor.PARAGRAPH_BREAK b
                ([10%N] ++ mid ++ [10%N] ++ post)
    = Some (S n).
Proof.
  intros Hmid.
  replace ([10%N] ++ mid ++ [10%N] ++ post)
    with (([10%N] ++ mid ++ [10%N]) ++ post)
    by (now rewrite <- !app_assoc).
  apply match_at_hit; [| cbn; lia].
  unfold Processor.PARAGRAPH_BREAK. cbn [Re.seq].
  apply matches_cat; [now constructor |].
  apply matches_cat; [now apply matches_ws_star | now constructor].
Qed.

Lemma sentence_break_hit (c d : N) (b a : text) :
  sentence_end c = true -> Py.isspace d = true ->
  exists n,
    Re.match_at isalnum Processor.SENTENCE_BREAK (c :: b) (d :: a)
    = Some (S n).
Proof.
  intros Hc Hd.
  change (d :: a) with (([] ++ [d] ++ []) ++ a).
  apply match_at_hit; [| cbn; lia].
  unfold Processor.SENTENCE_BREAK, Re.ws_plus.
  apply matches_cat; [now constructor |].
  apply matches_cat; [now constructor | constructor].
Qed.

Lemma paragraph_pieces (t : text) :
  Forall no_paragraph_break
         (Re.split isalnum Processor.PARAGRAPH_BREAK t).
Proof.
  unfold Re.split.
  eapply Forall_impl;
    [apply (split_from_pieces Processor.PARAGRAPH_BREAK t [] 0 [] []);
     [now left | reflexivity | intros pre c post H; now destruct pre] |].
  intros y (b1 & a1 & Hy) pre mid post -> Hmid.
  destruct (paragraph_break_hit (rev pre ++ b1) mid (post ++ a1) Hmid)
    as [n Hn].
  apply (Hy pre 10%N (mid ++ [10%N] ++ post) eq_refl n).
  rewrite <- Hn. f_equal. cbn [app]. f_equal.
  now rewrite <- !app_assoc.
Qed.

Lemma sentence_pieces (t : text) :
  Forall no_sentence_break
         (Re.split isalnum Processor.SENTENCE_BREAK t).
Proof.
  unfold Re.split.
  eapply Forall_impl;
    [apply (split_from_pieces Processor.SENTENCE_BREAK t [] 0 [] []);
     [now left | reflexivity | intros pre c post H; now destruct pre] |].
  intros y (b1 & a1 & Hy) pre c d post -> Hc.
  destruct (Py.isspace d) eqn:Hd; [exfalso | reflexivity].
  destruct (sentence_break_hit c d (rev pre ++ b1) (post ++ a1) Hc Hd)
    as [n Hn].
  assert (Hdec : pre ++ c :: d :: post = (pre ++ [c]) ++ d :: post)
    by now rewrite <- app_assoc.
  apply (Hy (pre ++ [c]) d post Hdec n).
  rewrite rev_app_distr. cbn [rev app]. exact Hn.
Qed.

Lemma split_no_paragraph_break (s : text) :
  no_paragraph_break s ->
  Re.split isalnum Processor.PARAGRAPH_BREAK s = [s].
Proof.
  intros Hs. unfold Re.split.
  rewrite split_from_no_match; [reflexivity |].
  intros pre c post -> n Hn.
  apply match_at_matches in Hn as [Hle Hm].
  apply paragraph_break_shape in Hm as (mid & Htake & Hmid).
  apply (Hs pre mid (drop (S n) (c :: post))); [| exact Hmid].
  rewrite <- (take_drop (S n) (c :: post)) at 1.
  rewrite Htake. now rewrite <- !app_assoc.
Qed.

Lemma split_no_sentence_break (s : text) :
  no_sentence_break s ->
  Re.split isalnum Processor.SENTENCE_BREAK s = [s].
Proof.
  intros Hs. unfold Re.split.
  rewrite split_from_no_match; [reflexivity |].
  intros pre c post -> n Hn.
  apply match_at_matches in Hn as [Hle Hm].
  apply sentence_break_shape in Hm as (_ & Hsp & c0 & b' & Hb & Hc0).
  cbn [take] in Hsp. inversion Hsp as [| ? ? Hc _]; subst.
  rewrite app_nil_r in Hb.
  assert (Hpre : pre = rev b' ++ [c0]).
  { rewrite <- (rev_involutive pre), Hb. reflexivity. }
  subst pre.
  assert (Hend : sentence_end c0 = true).
  { unfold sentence_end.
    destruct Hc0 as [-> | [-> | ->]]; reflexivity. }
  pose proof (Hs (rev b') c0 c post
                ltac:(now rewrite <- app_assoc) Hend) as Hns.
  unfold is_space in Hc. congruence.
Qed.

(** A trimmed text without a paragraph break, and short or without a
    sentence break, is one segment. *)
Lemma segments_fixed (s : text) :
  trimmed_nonempty s ->
  no_paragraph_break s ->
  length s <= 500 \/ no_sentence_break s ->
  segments s = [s].
Proof.
  intros Htr Hpara Hsent.
  pose proof (strip_fixed s Htr) as Hstrip.
  destruct Htr as (Hne & _).
  unfold Processor._split_into_segments.
  rewrite (split_no_paragraph_break s Hpara). cbn [flat_map].
  rewrite Hstrip, app_nil_r.
  assert (Hone : map Py.strip
                   (List.filter
                      (fun s0 => negb (Nat.eqb (length (Py.strip s0)) 0))
                      [s]) = [s]).
  { cbn [List.filter]. rewrite Hstrip.
    destruct s; [congruence |]. cbn [length Nat.eqb negb map].
    now rewrite Hstrip. }
  destruct (Nat.ltb_spec 500 (length s)) as [Hlong | Hshort].
  - destruct Hsent as [Hlen | Hsent]; [lia |].
    now rewrite (split_no_sentence_break s Hsent).
  - exact Hone.
Qed.

(** The segments of a text are parts of it; they have no paragraph break
    inside, and those of more than 500 characters have no sentence break
    inside. *)
Lemma segments_shape (t : text) :
  Forall (fun s =>
            trimmed_nonempty s /\
            infix_of s t /\
            no_paragraph_break s /\
            (length s <= 500 \/ no_sentence_break s))
         (segments t).
Proof.
  pose proof (segments_trimmed isalnum t) as Htr.
  rewrite List.Forall_forall in Htr. apply List.Forall_forall.
  intros s Hs. split; [now apply Htr |].
  unfold Processor._split_into_segments in Hs.
  apply in_map_iff in Hs as (y & <- & Hy).
  apply filter_In in Hy as [Hy _].
  apply in_flat_map in Hy as (x & Hx & Hy).
  pose proof (proj1 (List.Forall_forall _ _) (paragraph_pieces t) x Hx)
    as Hpara.
  pose proof (proj1 (List.Forall_forall _ _)
                (split_from_infix Processor.PARAGRAPH_BREAK t [] 0 []
                   (or_introl eq_refl)) x Hx) as Hxt.
  assert (Hyx : infix_of y x).
  { destruct (500 <? length (Py.strip x)).
    - pose proof (split_from_infix Processor.SENTENCE_BREAK x [] 0 []
                    (or_introl eq_refl)) as Hinf.
      exact (proj1 (List.Forall_forall _ _) Hinf y Hy).
    - destruct Hy as [<- | []]. apply infix_of_refl. }
  assert (Hsx : infix_of (Py.strip y) x)
    by (apply (infix_of_trans _ y); [apply strip_infix | exact Hyx]).
  split; [exact (infix_of_trans _ _ _ Hsx Hxt) |].
  split; [exact (no_paragraph_break_infix _ x Hsx Hpara) |].
  destruct (Nat.ltb_spec 500 (length (Py.strip x))) as [Hlong | Hshort].
  - right. apply (no_sentence_break_infix _ y); [apply strip_infix |].
    exact (proj1 (List.Forall_forall _ _) (sentence_pieces x) y Hy).
  - left. destruct Hy as [<- | []]. exact Hshort.
Qed.

(** X17.  Every segment is a contiguous part of the text; no segment
    contains a paragraph break, and a segment of more than 500 characters
    contains no sentence break.  Segmentation is therefore stable: each
    segment that the processor produces is, on its own, a single segment,
    so that processing it again returns it whole, as the public text if
    it is not private and as the only private thought if it is. *)
Theorem segments_are_stable :
  forall t : text,
    Forall (fun s =>
              infix_of s t /\
              no_paragraph_break s /\
              (500 < length s -> no_sentence_break s) /\
              segments s = [s] /\
              Processor.process_output isalnum s
              = if is_private s then ([], [s]) else (s, []))
           (segments t).
Proof.
  intros t.
  eapply Forall_impl; [apply segments_shape |].
  intros s (Htr & Hinfix & Hpara & Hsent).
  pose proof (segments_fixed s Htr Hpara Hsent) as Hfix.
  split; [exact Hinfix |]. split; [exact Hpara |]. split.
  - intros Hlong. destruct Hsent as [Hshort | Hsent]; [lia | exact Hsent].
  - split; [exact Hfix |].
    rewrite process_output_filter, Hfix. cbn [List.filter].
    destruct (is_private s); reflexivity.
Qed.

(** A text in which the paragraph pattern is not found has no paragraph
    break. *)
Lemma search_no_paragraph_break (t : text) :
  Re.search isalnum Processor.PARAGRAPH_BREAK t = false ->
  no_paragraph_break t.
Proof.
  intros Hs pre mid post -> Hmid.
  assert (Hocc : occurs isalnum Processor.PARAGRAPH_BREAK
                   (pre ++ [10%N] ++ mid ++ [10%N] ++ post)).
  { exists pre, ([10%N] ++ mid ++ [10%N]), post.
    split; [now rewrite <- !app_assoc |].
    unfold Processor.PARAGRAPH_BREAK. cbn [Re.seq].
    apply matches_cat; [now constructor |].
    apply matches_cat; [now apply matches_ws_star | now constructor]. }
  apply search_iff in Hocc. congruence.
Qed.

(** X18.  A non-blank message without a paragraph break and of at most
    500 characters after trimming is never split, single newlines
    included: it is either returned whole, trimmed, as the public text,
    or withheld whole as its only private thought. *)
Theorem single_paragraph_all_or_nothing :
  forall t : text,
    no_paragraph_break t ->
    length (Py.strip t) <= 500 ->
    Py.strip t <> [] ->
    Processor.process_output isalnum t
    = if is_private (Py.strip t)
      then ([], [Py.strip t])
      else (Py.strip t, []).
Proof.
  intros t Hpara Hshort Hne. rewrite process_output_filter.
  unfold Processor._split_into_segments.
  rewrite (split_no_paragraph_break t Hpara). cbn [flat_map].
  replace (500 <? length (Py.strip t)) with false
    by (symmetry; apply Nat.ltb_ge; exact Hshort).
  cbn [app List.filter].
  destruct (Py.strip t) as [| c s] eqn:E; [congruence |].
  cbn [length Nat.eqb negb map List.filter]. rewrite E.
  destruct (is_private (c :: s)); reflexivity.
Qed.

End StableSegments.

Lemma single_paragraph_all_or_nothing_witness :
  no_paragraph_break (lit " It is a secret." ++ [10%N] ++ lit "Truly. ") /\
  length (Py.strip (lit " It is a secret." ++ [10%N] ++ lit "Truly. "))
  <= 500 /\
  Processor.process_output ascii_isalnum
    (lit " It is a secret." ++ [10%N] ++ lit "Truly. ")
  = ([], [lit "It is a secret." ++ [10%N] ++ lit "Truly."]).
Proof.
  assert (Hpara : no_paragraph_break
                    (lit " It is a secret." ++ [10%N] ++ lit "Truly. "))
    by (apply (search_no_paragraph_break ascii_isalnum); reflexivity).
  assert (Hlen : length (Py.strip (lit " It is a secret." ++ [10%N]
                                   ++ lit "Truly. ")) <= 500)
    by (vm_compute; lia).
  assert (Hne : Py.strip (lit " It is a secret." ++ [10%N] ++ lit "Truly. ")
                <> [])
    by (vm_compute; discriminate).
  split; [exact Hpara |]. split; [exact Hlen |].
  exact (single_paragraph_all_or_nothing ascii_isalnum _ Hpara Hlen Hne).
Defined.
(** ** The listing on the terminal *)

Section Listing.

Variable isalnum : N -> bool.
Variable os_urandom : nat -> nat -> bytes.
Variable E : bytes -> bytes -> bytes.
Variable datetime_now : nat -> datetime.
Variable time_time : nat -> float.

Local Notation "'store_thought'" :=
  (Agent.store_thought os_urandom E datetime_now time_time).
Local Notation "'store_thoughts'" :=
  (Agent.store_thoughts os_urandom E datetime_now time_time).
Local Notation "'process_message'" :=
  (Agent.process_message isalnum os_urandom E datetime_now time_time).
Local Notation "'listed'" :=
  (fun (w : World) (md : thought_metadata) =>
     In (filepath md) (Agent.get_stored_files_info w)).

Lemma store_thought_listed (self self' : SecretAgent) (thought : text)
      (w w' : World) (md : thought_metadata) :
  store_thought self thought w = (Ok md, self', w') -> listed w' md.
Proof.
  destruct (store_thought_cases os_urandom E datetime_now time_time
              self thought w) as [H | [[e H] | (p & _ & H)]];
    rewrite H; intros Heq; inversion Heq; subst; clear Heq.
  cbn [filepath]. apply get_saved_files_iff. cbn [files]. split.
  - rewrite lookup_insert_eq. eauto.
  - apply thought_path_glob.
Qed.

Lemma store_thoughts_listed (thoughts : list text) :
  forall (self self' : SecretAgent) (acc records : list thought_metadata)
         (w w' : World),
    store_thoughts self thoughts acc w = (Ok records, self', w') ->
    Forall (listed w) acc -> Forall (listed w') records.
Proof.
  induction thoughts as [| t thoughts IH];
    intros self self' acc records w w'.
  - cbn [Agent.store_thoughts]. intros Heq; inversion Heq; subst. auto.
  - cbn [Agent.store_thoughts].
    destruct (store_thought self t w) as [[[md | e] self1] w1] eqn:Hstep;
      [| discriminate].
    pose proof (store_thought_frame os_urandom E datetime_now time_time
                  _ _ _ _ _ _ Hstep) as (_ & _ & Hg).
    apply store_thought_listed in Hstep.
    intros Hrest Hacc. apply (IH _ _ _ _ _ _ Hrest).
    apply Forall_app. split.
    + eapply Forall_impl; [exact Hacc |].
      intros md0. apply (grows_listing w w1 _ Hg).
    + constructor; [exact Hstep | constructor].
Qed.

(** X19.  After a message whose processing stored at least one private
    thought, the listing on the terminal never says that nothing has been
    stored: it shows one line for each stored file, among them a line
    with the path of every record returned. *)
Theorem display_after_store :
  forall (self self' : SecretAgent) (message public_text : text)
         (records : list thought_metadata) (w w' : World),
    process_message self message w
    = (Ok (public_text, records), self', w') ->
    records <> [] ->
    ~ In "No encrypted private thoughts have been stored yet."%string
         (Main.display_stored_files w') /\
    length (Main.display_stored_files w')
    = 3 + length (Agent.get_stored_files_info w') /\
    Forall (fun md =>
              In (" - " +:+ filepath md +:+ " ("
                  +:+ Storage.decimal (Main.st_size w' (filepath md))
                  +:+ " bytes)")%string
                 (Main.display_stored_files w'))
           records.
Proof.
  intros self self' message public_text records w w' Hrun Hne.
  assert (Hlisted : Forall (listed w') records).
  { revert Hrun. unfold Agent.process_message.
    destruct (Processor.process_output isalnum message) as [pub priv].
    destruct (store_thoughts self priv [] w) as [[[recs | e] self1] w1]
      eqn:Hloop; [| discriminate].
    intros Heq; inversion Heq; subst.
    apply (store_thoughts_listed _ _ _ _ _ _ _ Hloop). constructor. }
  unfold Main.display_stored_files.
  destruct (Agent.get_stored_files_info w') as [| f fs] eqn:Hfiles.
  { exfalso. destruct records as [| md records]; [congruence |].
    inversion Hlisted as [| ? ? Hmd _]; subst.
    rewrite Hfiles in Hmd. exact Hmd. }
  split; [| split].
  - cbn [app]. intros [H | [H | H]].
    + vm_compute in H. discriminate H.
    + rewrite string_app_cons in H. discriminate H.
    + apply in_app_or in H as [H | [H | []]].
      * apply in_map_iff in H as (fp & H & _).
        rewrite string_app_cons in H. discriminate H.
      * vm_compute in H. discriminate H.
  - cbn [app length]. rewrite length_app, length_map. cbn [length]. lia.
  - eapply Forall_impl; [exact Hlisted |].
    intros md Hmd. cbn [app]. right. right.
    apply in_or_app. left.
    apply (in_map (fun filepath =>
                     (" - " +:+ filepath +:+ " ("
                      +:+ Storage.decimal (Main.st_size w' filepath)
                      +:+ " bytes)")%string)).
    cbv beta in Hmd. rewrite Hfiles in Hmd. exact Hmd.
Qed.

End Listing.

Lemma display_after_store_witness :
  exists public_text records self' w',
    Agent.process_message ascii_isalnum zero_entropy toy_block fixed_now
      fixed_time agent0 scenario_a empty_world
    = (Ok (public_text, records), self', w') /\
    records <> [] /\
    ~ In "No encrypted private thoughts have been stored yet."%string
         (Main.display_stored_files w').
Proof.
  destruct (Agent.process_message ascii_isalnum zero_entropy toy_block
              fixed_now fixed_time agent0 scenario_a empty_world)
    as [[[[public_text records] | e] self'] w'] eqn:H.
  - assert (Hne : records <> []).
    { intros ->. vm_compute in H. discriminate H. }
    exists public_text, records, self', w'.
    split; [reflexivity |]. split; [exact Hne |].
    exact (proj1 (display_after_store ascii_isalnum zero_entropy toy_block
                    fixed_now fixed_time _ _ _ _ _ _ _ H Hne)).
  - vm_compute in H. discriminate H.
Defined.
(** ** The word-character table on ASCII text *)

Section TwoTables.

(** Two tables for the class [\w] that agree on the characters that
    satisfy [agree]. *)
Variable iso iso' : N -> bool.

Local Notation "'agree'" := (fun c : N => iso c = iso' c).

Lemma at_boundary_agree (b a : text) :
  Forall agree b -> Forall agree a ->
  Re.at_boundary iso b a = Re.at_boundary iso' b a.
Proof.
  intros Hb Ha. unfold Re.at_boundary, Re.is_word.
  destruct Hb as [| c b Hc _], Ha as [| d a Hd _]; cbv beta in *;
    rewrite ?Hc, ?Hd; reflexivity.
Qed.

Lemma star_loop_agree {A : Type} (r : regex)
      (k k' : text -> text -> option A) :
  (forall (b a : text) (k1 k2 : text -> text -> option A),
     Forall agree b -> Forall agree a ->
     (forall b' a', Forall agree b' -> Forall agree a' ->
                    k1 b' a' = k2 b' a') ->
     Re.m iso r b a k1 = Re.m iso' r b a k2) ->
  (forall b a, Forall agree b -> Forall agree a -> k b a = k' b a) ->
  forall fuel b a,
    Forall agree b -> Forall agree a ->
    Re.star_loop (fun b a k0 => Re.m iso r b a k0) k fuel b a
    = Re.star_loop (fun b a k0 => Re.m iso' r b a k0) k' fuel b a.
Proof.
  intros Hr Hk. induction fuel as [| fuel IH]; intros b a Hb Ha.
  - cbn [Re.star_loop]. now apply Hk.
  - cbn [Re.star_loop].
    rewrite (Hr b a _
               (fun b' a' =>
                  if length a' <? length a
                  then Re.star_loop (fun b a k0 => Re.m iso' r b a k0) k'
                                    fuel b' a'
                  else None) Hb Ha).
    + now rewrite (Hk b a Hb Ha).
    + intros b' a' Hb' Ha'. destruct (length a' <? length a); [| reflexivity].
      now apply IH.
Qed.

Lemma m_agree (r : regex) :
  forall (A : Type) (b a : text) (k k' : text -> text -> option A),
    Forall agree b -> Forall agree a ->
    (forall b' a', Forall agree b' -> Forall agree a' ->
                   k b' a' = k' b' a') ->
    Re.m iso r b a k = Re.m iso' r b a k'.
Proof.
  induction r as [| p | r1 IH1 r2 IH2 | r1 IH1 r2 IH2 | r1 IH1 | | p];
    intros A b a k k' Hb Ha Hk; cbn [Re.m].
  - now apply Hk.
  - destruct Ha as [| c a Hc Ha]; [reflexivity |].
    destruct (p c); [| reflexivity]. apply Hk; [now constructor | exact Ha].
  - apply IH1; try assumption. intros b' a' Hb' Ha'. now apply IH2.
  - rewrite (IH1 A b a k k' Hb Ha Hk), (IH2 A b a k k' Hb Ha Hk). reflexivity.
  - apply star_loop_agree; try assumption. intros b0 a0 k1 k2. apply IH1.
  - rewrite (at_boundary_agree b a Hb Ha).
    destruct (Re.at_boundary iso' b a); [now apply Hk | reflexivity].
  - destruct b as [| c b]; [reflexivity |].
    destruct (p c); [now apply Hk | reflexivity].
Qed.

Lemma match_at_agree (r : regex) (b a : text) :
  Forall agree b -> Forall agree a ->
  Re.match_at iso r b a = Re.match_at iso' r b a.
Proof.
  intros Hb Ha. unfold Re.match_at. now apply m_agree.
Qed.

Lemma search_from_agree (r : regex) (a : text) :
  forall b, Forall agree b -> Forall agree a ->
            Re.search_from iso r b a = Re.search_from iso' r b a.
Proof.
  induction a as [| c a IH]; intros b Hb Ha.
  - cbn [Re.search_from]. now rewrite (match_at_agree r b [] Hb Ha).
  - cbn [Re.search_from]. rewrite (match_at_agree r b (c :: a) Hb Ha).
    destruct (Re.match_at iso' r b (c :: a)); [reflexivity |].
    inversion Ha; subst. apply IH; [now constructor | assumption].
Qed.

Lemma findall_from_agree (r : regex) (a : text) :
  forall b skip, Forall agree b -> Forall agree a ->
                 Re.findall_from iso r b a skip
                 = Re.findall_from iso' r b a skip.
Proof.
  induction a as [| c a IH]; intros b skip Hb Ha; [reflexivity |].
  cbn [Re.findall_from]. rewrite (match_at_agree r b (c :: a) Hb Ha).
  inversion Ha; subst.
  assert (Hcb : Forall agree (c :: b)) by now constructor.
  destruct skip as [| n]; [| now apply IH].
  destruct (Re.match_at iso' r b (c :: a)) as [[| n] |];
    rewrite IH by assumption; reflexivity.
Qed.

Lemma split_from_agree (r : regex) (a : text) :
  forall b skip cur, Forall agree b -> Forall agree a ->
                     Re.split_from iso r b a skip cur
                     = Re.split_from iso' r b a skip cur.
Proof.
  induction a as [| c a IH]; intros b skip cur Hb Ha; [reflexivity |].
  cbn [Re.split_from]. rewrite (match_at_agree r b (c :: a) Hb Ha).
  inversion Ha; subst.
  assert (Hcb : Forall agree (c :: b)) by now constructor.
  destruct skip as [| n]; [| now apply IH].
  destruct (Re.match_at iso' r b (c :: a)) as [[| n] |];
    rewrite IH by assumption; reflexivity.
Qed.

Lemma flat_map_agree {A B : Type} (f g : A -> list B) (l : list A) :
  Forall (fun x => f x = g x) l -> flat_map f l = flat_map g l.
Proof.
  induction 1 as [| x l Hx _ IH]; [reflexivity |].
  cbn [flat_map]. now rewrite Hx, IH.
Qed.

Lemma filter_agree {A : Type} (f g : A -> bool) (l : list A) :
  Forall (fun x => f x = g x) l -> List.filter f l = List.filter g l.
Proof.
  induction 1 as [| x l Hx _ IH]; [reflexivity |].
  cbn [List.filter]. now rewrite Hx, IH.
Qed.

Lemma segments_agree (t : text) :
  Forall agree t ->
  Processor._split_into_segments iso t
  = Processor._split_into_segments iso' t.
Proof.
  intros Ht. unfold Processor._split_into_segments, Re.split.
  rewrite (split_from_agree Processor.PARAGRAPH_BREAK t [] 0 []
             (List.Forall_nil _) Ht).
  do 2 f_equal. apply flat_map_agree.
  pose proof (split_from_contents iso' agree Processor.PARAGRAPH_BREAK
                t [] 0 [] Ht (List.Forall_nil _)) as Hpieces.
  eapply Forall_impl; [exact Hpieces |].
  intros x Hx. cbv beta. destruct (500 <? length (Py.strip x));
    [| reflexivity].
  now apply split_from_agree.
Qed.

Lemma classify_agree (t : text) :
  Forall agree t ->
  Processor._is_likely_private iso t = Processor._is_likely_private iso' t.
Proof.
  intros Ht.
  assert (Hfind : forall r, Re.findall iso r t = Re.findall iso' r t)
    by (intros r; now apply findall_from_agree).
  assert (Hsearch : forall r, Re.search iso r t = Re.search iso' r t)
    by (intros r; now apply search_from_agree).
  unfold Processor._is_likely_private, Processor.classify,
    Processor.indicator_match, Processor.introspection_trigger,
    Processor.sensitivity_trigger, Processor._calculate_introspection_score,
    Processor._calculate_sensitivity_score.
  rewrite !Hfind.
  replace (existsb (fun pattern => Re.search iso pattern t)
                   Processor.PRIVACY_INDICATORS)
    with (existsb (fun pattern => Re.search iso' pattern t)
                  Processor.PRIVACY_INDICATORS)
    by (induction Processor.PRIVACY_INDICATORS as [| r rs IH];
        [reflexivity | cbn [existsb]; now rewrite Hsearch, IH]).
  replace (map (fun pattern => length (Re.findall iso pattern t))
               Processor.SENSITIVE_TOPICS)
    with (map (fun pattern => length (Re.findall iso' pattern t))
              Processor.SENSITIVE_TOPICS)
    by (apply map_ext; intros r; now rewrite Hfind).
  reflexivity.
Qed.

Lemma process_output_agree (t : text) :
  Forall agree t ->
  Processor.process_output iso t = Processor.process_output iso' t.
Proof.
  intros Ht. rewrite !process_output_filter, (segments_agree t Ht).
  pose proof (segments_contents iso' agree t Ht) as Hsegs.
  assert (Hpriv : Forall (fun s => Processor._is_likely_private iso s
                                   = Processor._is_likely_private iso' s)
                         (Processor._split_into_segments iso' t)).
  { eapply Forall_impl; [exact Hsegs |]. intros s. apply classify_agree. }
  rewrite (filter_agree _ _ _ Hpriv).
  rewrite (filter_agree
             (fun s => negb (Processor._is_likely_private iso s))
             (fun s => negb (Processor._is_likely_private iso' s))
             (Processor._split_into_segments iso' t)).
  - reflexivity.
  - eapply Forall_impl; [exact Hpriv |]. intros s Hs. cbv beta.
    now rewrite Hs.
Qed.

End TwoTables.

(** ** The simulated model *)

Lemma ascii_scalar (s : text) :
  forallb (fun c => (c <? 128)%N) s = true ->
  forallb Py.scalar_value s = true.
Proof.
  intros H. apply forallb_Forall_iff. apply forallb_Forall_iff in H.
  eapply Forall_impl; [exact H |]. intros c Hc. cbv beta in Hc.
  apply N.ltb_lt in Hc. unfold Py.scalar_value.
  apply andb_true_iff. split; [apply N.ltb_lt; lia |].
  apply negb_true_iff, andb_false_iff. left. apply N.leb_gt. lia.
Qed.

Section SimulatedModel.

Variable lower : text -> text.
Variable isalnum : N -> bool.

(** On ASCII characters the class [\w] holds the digits and the
    letters. *)
Hypothesis isalnum_ascii :
  forall c, (c < 128)%N -> isalnum c = ascii_isalnum c.

Local Notation "'simulate_llm_response'" :=
  (Simulation.simulate_llm_response lower).

Lemma ascii_text_agree (t : text) :
  forallb (fun c => (c <? 128)%N) t = true ->
  Forall (fun c => isalnum c = ascii_isalnum c) t.
Proof.
  intros H. apply forallb_Forall_iff in H.
  eapply Forall_impl; [exact H |]. intros c Hc. cbv beta in Hc.
  apply isalnum_ascii. now apply N.ltb_lt.
Qed.

Lemma response_cases (prompt : text) :
  In (simulate_llm_response prompt)
     [Simulation.RESPONSE_INTRODUCTION; Simulation.RESPONSE_OPINION;
      Simulation.RESPONSE_SECRET; Simulation.RESPONSE_DEFAULT].
Proof.
  unfold Simulation.simulate_llm_response.
  destruct (contains _ _); [now left |].
  destruct (_ || _); [right; now left |].
  destruct (_ || _); [right; right; now left | right; right; right; now left].
Qed.

(** X20.  The simulated answer is one of four different texts, chosen
    by the words of the prompt in lower case: the introduction if it
    contains "introduce yourself"; failing that the opinion if it
    contains "opinion" or "think"; failing that the answer about secrets
    if it contains "secret" or "private"; the default otherwise.  The
    first two are split into four paragraphs of which two are withheld
    as private thoughts, the third into four of which three are
    withheld, the last into five of which one is withheld; the public
    text is never empty.  With a key that AES accepts, processing the
    answer succeeds, returns that public text and one record for each
    private paragraph. *)
Theorem simulated_answer_is_partly_withheld :
  forall prompt : text,
    let response := simulate_llm_response prompt in
    let segments := Processor._split_into_segments isalnum response in
    let public_text := fst (Processor.process_output isalnum response) in
    let private := snd (Processor.process_output isalnum response) in
    NoDup [Simulation.RESPONSE_INTRODUCTION; Simulation.RESPONSE_OPINION;
           Simulation.RESPONSE_SECRET; Simulation.RESPONSE_DEFAULT] /\
    (response, (length segments, length private))
    = (if contains (lit "introduce yourself") (lower prompt)
       then (Simulation.RESPONSE_INTRODUCTION, (4, 2))
       else if contains (lit "opinion") (lower prompt)
               || contains (lit "think") (lower prompt)
       then (Simulation.RESPONSE_OPINION, (4, 2))
       else if contains (lit "secret") (lower prompt)
               || contains (lit "private") (lower prompt)
       then (Simulation.RESPONSE_SECRET, (4, 3))
       else (Simulation.RESPONSE_DEFAULT, (5, 1))) /\
    public_text <> [] /\
    forall os_urandom E datetime_now time_time (self : SecretAgent)
           (w : World),
      Encryption.aes_key_check (key self) = Ok tt ->
      exists records w',
        Agent.process_message isalnum os_urandom E datetime_now time_time
          self response w
        = (Ok (public_text, records),
           mkAgent (key self) (private_thought_count self + length private),
           w') /\
        length records = length private.
Proof.
  intros prompt response.
  assert (Hascii : forallb (fun c => (c <? 128)%N) response = true).
  { subst response.
    destruct (response_cases prompt) as [<- | [<- | [<- | [<- | []]]]];
      vm_compute; reflexivity. }
  pose proof (ascii_text_agree response Hascii) as Hagree.
  rewrite (segments_agree isalnum ascii_isalnum response Hagree).
  rewrite (process_output_agree isalnum ascii_isalnum response Hagree).
  assert (Hrun : forall rnd E now time (self : SecretAgent) (w : World),
             Encryption.aes_key_check (key self) = Ok tt ->
             Forall (fun s => forallb Py.scalar_value s = true)
                    (snd (Processor.process_output ascii_isalnum response)) ->
             exists records w',
               Agent.process_message isalnum rnd E now time self response w
               = (Ok (fst (Processor.process_output ascii_isalnum response),
                      records),
                  mkAgent (key self)
                          (private_thought_count self
                           + length (snd (Processor.process_output
                                            ascii_isalnum response))),
                  w') /\
               length records
               = length (snd (Processor.process_output
                                ascii_isalnum response))).
  { intros rnd E now time self w Hkey Hpriv.
    unfold Agent.process_message.
    rewrite (process_output_agree isalnum ascii_isalnum response Hagree).
    destruct (Processor.process_output ascii_isalnum response)
      as [pub priv].
    cbn [fst snd] in *.
    destruct (store_thoughts_ok rnd E now time priv self [] w Hkey Hpriv)
      as (records & w' & Hloop & _ & Hlen & _).
    rewrite Hloop. exists records, w'. now split. }
  assert (Hscalar : Forall (fun s => forallb Py.scalar_value s = true)
                      (snd (Processor.process_output ascii_isalnum
                              response))).
  { pose proof (private_thoughts_contents ascii_isalnum
                  (fun c => Py.scalar_value c = true) response
                  (proj1 (forallb_Forall_iff _ _)
                     (ascii_scalar response Hascii))) as H.
    eapply Forall_impl; [exact H |].
    intros s Hs. now apply forallb_Forall_iff. }
  cbv zeta.
  split; [| split;
            [| split; [| intros rnd E now time self w Hkey;
                         now apply Hrun]]];
    clear Hrun Hscalar Hagree Hascii; subst response.
  - repeat (apply NoDup_cons; split); try apply NoDup_nil; try exact I.
    all: rewrite ?elem_of_cons, ?elem_of_nil; intros H.
    all: repeat (destruct H as [H | H];
                 [apply (f_equal (take 16)) in H; vm_compute in H;
                  discriminate H |]).
    all: exact H.
  - unfold Simulation.simulate_llm_response.
    destruct (contains _ _); [vm_compute; reflexivity |].
    destruct (_ || _); [vm_compute; reflexivity |].
    destruct (_ || _); vm_compute; reflexivity.
  - destruct (response_cases prompt) as [<- | [<- | [<- | [<- | []]]]];
      vm_compute; discriminate.
Qed.

End SimulatedModel.

Lemma simulated_answer_is_partly_withheld_witness :
  (forall c, (c < 128)%N -> ascii_isalnum c = ascii_isalnum c) /\
  (Simulation.simulate_llm_response (fun s => s)
     (lit "what is your opinion?"),
   (length (Processor._split_into_segments ascii_isalnum
              (Simulation.simulate_llm_response (fun s => s)
                 (lit "what is your opinion?"))),
    length (snd (Processor.process_output ascii_isalnum
                   (Simulation.simulate_llm_response (fun s => s)
                      (lit "what is your opinion?"))))))
  = (Simulation.RESPONSE_OPINION, (4, 2)).
Proof.
  split; [reflexivity |].
  exact (proj1 (proj2 (simulated_answer_is_partly_withheld (fun s => s)
                         ascii_isalnum (fun c _ => eq_refl)
                         (lit "what is your opinion?")))).
Defined.
(** * Outcomes in every case *)

(** ** Text payloads *)

Lemma aes_key_check_sizes (k : bytes) :
  Encryption.aes_key_check k = Ok tt <->
  length k = 16 \/ length k = 24 \/ length k = 32.
Proof.
  unfold Encryption.aes_key_check.
  destruct (Nat.eqb_spec (length k) 16); [cbn; tauto |].
  destruct (Nat.eqb_spec (length k) 24); [cbn; tauto |].
  destruct (Nat.eqb_spec (length k) 32); [cbn; tauto |].
  cbn [orb]. split; [discriminate | tauto].
Qed.

Lemma aes_key_check_raises (k : bytes) (e : exn) :
  Encryption.aes_key_check k = Raise e -> e = ValueError.
Proof.
  unfold Encryption.aes_key_check.
  destruct ((length k =? 16) || (length k =? 24) || (length k =? 32));
    [discriminate |].
  intros H. now injection H as <-.
Qed.

(** C10, as the code has it.  [encrypt] takes a [str], but not every
    [str].  A text of Unicode scalar values (no surrogate code point) has
    a UTF-8 encoding, and [encrypt] treats the text exactly as it treats
    that encoding, under the same IV: with a key of 16, 24 or 32 bytes it
    returns the IV followed by the CBC blocks of the padded encoding, and
    the orchestrator's step for the segment writes that blob and records
    its length; with any other key both raise [ValueError] once the IV
    has been drawn, and the step writes nothing.  A text with a surrogate
    code point raises [UnicodeEncodeError] before the entropy source is
    read, and the orchestrator's step raises with it, the counter and
    the world as they were. *)
Theorem encrypt_text_as_utf8 :
  forall os_urandom E datetime_now time_time
         (k : bytes) (s : text) (n : nat) (w : World),
    (Encryption.aes_key_check k = Ok tt <->
     length k = 16 \/ length k = 24 \/ length k = 32) /\
    if forallb Py.scalar_value s then
      exists b,
        Py.encode_utf8 s = Ok b /\
        Encryption.encrypt os_urandom E k (PyStr s) w
        = Encryption.encrypt os_urandom E k (PyBytes b) w /\
        match Encryption.aes_key_check k with
        | Ok _ =>
          let iv := os_urandom (ticks w) 16 in
          let blob :=
            iv ++ concat (Encryption.cbc_encrypt_blocks E k iv
                            (Encryption.chunks
                               (length (Encryption.pkcs7_pad b))
                               (Encryption.pkcs7_pad b))) in
          Encryption.encrypt os_urandom E k (PyStr s) w = (Ok blob, tick w) /\
          exists md w',
            Agent.store_thought os_urandom E datetime_now time_time
                                (mkAgent k n) s w
            = (Ok md, mkAgent k (S n), w') /\
            size_bytes md = length blob /\
            files w' !! filepath md = Some blob
        | Raise e =>
          e = ValueError /\
          Encryption.encrypt os_urandom E k (PyStr s) w
          = (Raise ValueError, tick w) /\
          Agent.store_thought os_urandom E datetime_now time_time
                              (mkAgent k n) s w
          = (Raise ValueError, mkAgent k n, tick w)
        end
    else
      Encryption.encrypt os_urandom E k (PyStr s) w
      = (Raise UnicodeEncodeError, w) /\
      Agent.store_thought os_urandom E datetime_now time_time
                          (mkAgent k n) s w
      = (Raise UnicodeEncodeError, mkAgent k n, w).
Proof.
  intros rnd E datetime_now time_time k s n w.
  split; [apply aes_key_check_sizes |].
  destruct (forallb Py.scalar_value s) eqn:Hs.
  - destruct (encode_utf8_scalar s Hs) as [b Hb].
    exists b. split; [exact Hb |].
    pose proof (encrypt_str_as_bytes rnd E k s b w Hb) as Heq.
    split; [exact Heq |].
    destruct (Encryption.aes_key_check k) as [[] | e] eqn:Hkey.
    + cbv zeta. rewrite Heq.
      pose proof (encrypt_bytes_eq rnd E k b w Hkey) as Hblob.
      split; [exact Hblob |].
      destruct (store_thought_ok rnd E datetime_now time_time
                  (mkAgent k n) s w Hkey Hs)
        as (blob' & w1 & path & w2 & Henc & _ & Hfile & Hstep).
      cbn [key private_thought_count] in *.
      rewrite Heq, Hblob in Henc. injection Henc as <- <-.
      eexists _, _. split; [exact Hstep |].
      split; [reflexivity | exact Hfile].
    + pose proof (aes_key_check_raises k e Hkey) as ->.
      split; [reflexivity |].
      assert (Hraise : Encryption.encrypt rnd E k (PyStr s) w
                       = (Raise ValueError, tick w)).
      { rewrite Heq. unfold Encryption.encrypt. now rewrite Hkey. }
      split; [exact Hraise |].
      unfold Agent.store_thought. cbn [key]. now rewrite Hraise.
  - assert (Hraise : Encryption.encrypt rnd E k (PyStr s) w
                     = (Raise UnicodeEncodeError, w)).
    { unfold Encryption.encrypt.
      now rewrite (encode_utf8_not_scalar s Hs). }
    split; [exact Hraise |].
    unfold Agent.store_thought. cbn [key]. now rewrite Hraise.
Qed.

(** C10 fails as stated: [encrypt] is not defined on every [str]; a lone
    surrogate makes [data.encode('utf-8')] raise before any encryption. *)
Lemma encrypt_lone_surrogate_raises :
  Encryption.encrypt zero_entropy toy_block key32
    (PyStr [0xD800%N]) empty_world
  = (Raise UnicodeEncodeError, empty_world).
Proof. reflexivity. Qed.

(** ** The key file *)

Lemma strip_read_surrounded (ws1 s ws2 : text) :
  Forall is_space ws1 -> Forall is_space ws2 ->
  Forall (fun c => Py.isspace c = false) s ->
  Py.strip (Py.universal_newlines (ws1 ++ s ++ ws2)) = s.
Proof.
  intros H1 H2 Hs. destruct Hs as [| c s Hc Hs].
  - cbn [app].
    rewrite <- (app_nil_r (Py.universal_newlines (ws1 ++ ws2))).
    apply (strip_surrounded _ [] []); [| constructor | constructor].
    apply universal_newlines_space, Forall_app. now split.
  - rewrite universal_newlines_app
      by (cbn [app]; intros ->; discriminate Hc).
    rewrite universal_newlines_clean_app.
    + apply strip_surrounded;
        [now apply universal_newlines_space
        | now apply universal_newlines_space | now constructor].
    + constructor; [intros ->; discriminate Hc |].
      eapply Forall_impl; [exact Hs |]. intros d Hd ->. discriminate Hd.
Qed.

(** A key file that holds the base64 text of [b] between whitespace. *)
Lemma load_key_of_base64 os_urandom (w : World) (raw b : bytes)
      (ws1 ws2 : text) :
  key_file w = Some raw ->
  Forall is_space ws1 -> Forall is_space ws2 ->
  Py.encode_utf8 (ws1 ++ Base64.b64encode b ++ ws2) = Ok raw ->
  Encryption._load_or_create_key os_urandom w = (Ok b, w).
Proof.
  intros Hfile H1 H2 Hraw.
  unfold Encryption._load_or_create_key, Py.read_text.
  rewrite Hfile, (decode_encode_utf8 _ _ Hraw). cbn [rbind].
  pose proof (b64encode_clean (length b) b (le_n _)) as Hclean.
  rewrite strip_read_surrounded; [| exact H1 | exact H2 |].
  - rewrite <- (strip_clean (Base64.b64encode b)).
    + now rewrite b64decode_b64encode.
    + eapply Forall_impl; [exact Hclean | now intros c [_ Hc]].
  - eapply Forall_impl; [exact Hclean | now intros c [_ Hc]].
Qed.

(** C1, as the code has it.  When the key file exists, the key provider
    compares nothing with [KEY_SIZE] and leaves the world as it is; the
    construction of the agent succeeds with the key it returns, and
    fails with the exception it raises.  A file that is not UTF-8 raises
    [UnicodeDecodeError].  Otherwise the
    outcome is that of [b64decode] on the text of the file, newlines
    translated and whitespace stripped: [ValueError] if that text has a
    character outside ASCII; if it has none, any failure is a
    [binascii.Error], and when it has no pad character either, the
    decoder fails exactly when the number of its base64 characters is
    not a multiple of four, and returns three bytes for each four of
    them otherwise.  In particular, for every byte string [b], of
    whatever length, a key file that holds the base64 text of [b] with
    whitespace around it makes [b] the key, and such a file exists. *)
Theorem load_existing_key_unchecked :
  forall os_urandom (w : World) (raw : bytes),
    key_file w = Some raw ->
    snd (Encryption._load_or_create_key os_urandom w) = w /\
    Agent.init os_urandom w
    = (match fst (Encryption._load_or_create_key os_urandom w) with
       | Ok k => Ok (mkAgent k 0)
       | Raise e => Raise e
       end, w) /\
    match Py.decode_utf8 raw with
    | Raise _ =>
      fst (Encryption._load_or_create_key os_urandom w)
      = Raise UnicodeDecodeError
    | Ok s =>
      let stripped := Py.strip (Py.universal_newlines s) in
      fst (Encryption._load_or_create_key os_urandom w)
      = Base64.b64decode stripped /\
      if forallb (fun c => c <? 128)%N stripped then
        (forall e, Base64.b64decode stripped = Raise e ->
                   e = BinasciiError) /\
        (Forall (fun c => c <> 61%N) stripped ->
         if base64_digits stripped mod 4 =? 0 then
           exists k, Base64.b64decode stripped = Ok k /\
                     length k = 3 * (base64_digits stripped / 4)
         else Base64.b64decode stripped = Raise BinasciiError)
      else Base64.b64decode stripped = Raise ValueError
    end /\
    (forall (b : bytes) (ws1 ws2 : text),
       Forall is_space ws1 -> Forall is_space ws2 ->
       Py.encode_utf8 (ws1 ++ Base64.b64encode b ++ ws2) = Ok raw ->
       Encryption._load_or_create_key os_urandom w = (Ok b, w)) /\
    (forall b : bytes,
       exists raw',
         Py.encode_utf8 (Base64.b64encode b) = Ok raw' /\
         Encryption._load_or_create_key os_urandom
           (mkWorld (Some raw') (files w) (ticks w))
         = (Ok b, mkWorld (Some raw') (files w) (ticks w))).
Proof.
  intros rnd w raw Hfile.
  assert (Hsame : snd (Encryption._load_or_create_key rnd w) = w)
    by (unfold Encryption._load_or_create_key; now rewrite Hfile).
  split; [exact Hsame |]. split; [| split; [| split]].
  - unfold Agent.init.
    destruct (Encryption._load_or_create_key rnd w) as [[k | e] w1];
      cbn [fst snd] in *; now subst w1.
  - unfold Encryption._load_or_create_key, Py.read_text. rewrite Hfile.
    destruct (Py.decode_utf8 raw) as [s | e] eqn:Hdec; cbn [rbind fst].
    + cbv zeta. split; [reflexivity |].
      set (stripped := Py.strip (Py.universal_newlines s)).
      destruct (forallb (fun c => (c <? 128)%N) stripped) eqn:Hascii.
      * split.
        -- intros e He. apply b64decode_raises in He.
           now rewrite Hascii in He.
        -- intros Hpad. now apply b64decode_no_pad.
      * unfold Base64.b64decode. now rewrite Hascii.
    + f_equal. exact (decode_utf8_raises _ _ _ (le_n _) Hdec).
  - intros b ws1 ws2. now apply load_key_of_base64.
  - intros b. destruct (read_write_b64encode b) as (raw' & Hraw & _).
    exists raw'. split; [exact Hraw |].
    apply (load_key_of_base64 rnd _ raw' b [] []);
      [reflexivity | constructor | constructor |].
    now rewrite app_nil_r.
Qed.

Lemma load_existing_key_unchecked_witness :
  key_file (world_with_key "YWJj ") = Some [x59; x57; x4a; x6a; x20] /\
  Encryption._load_or_create_key zero_entropy (world_with_key "YWJj ")
  = (Ok [x61; x62; x63], world_with_key "YWJj ").
Proof.
  split; [reflexivity |].
  refine (proj1 (proj2 (proj2 (proj2 (load_existing_key_unchecked
                                        zero_entropy
                                        (world_with_key "YWJj ")
                                        [x59; x57; x4a; x6a; x20]
                                        eq_refl))))
            [x61; x62; x63] [] [32%N] _ _ _).
  - constructor.
  - repeat constructor.
  - reflexivity.
Defined.

(** C1 fails as stated: a key file holding the base64 text of three bytes
    is accepted, and the three-byte key is returned. *)
Lemma load_returns_wrong_length_key :
  exists k,
    fst (Encryption._load_or_create_key zero_entropy (world_with_key "YWJj"))
    = Ok k /\ length k <> Encryption.KEY_SIZE.
Proof. exists [x61; x62; x63]. split; [reflexivity | discriminate]. Qed.

(** ** What the loop over the private thoughts leaves *)

Section LoopOutcomes.

Variable isalnum : N -> bool.
Variable os_urandom : nat -> nat -> bytes.
Variable E : bytes -> bytes -> bytes.
Variable datetime_now : nat -> datetime.
Variable time_time : nat -> float.

Local Notation "'is_private'" := (Processor._is_likely_private isalnum).
Local Notation "'store_thought'" :=
  (Agent.store_thought os_urandom E datetime_now time_time).
Local Notation "'store_thoughts'" :=
  (Agent.store_thoughts os_urandom E datetime_now time_time).
Local Notation "'process_message'" :=
  (Agent.process_message isalnum os_urandom E datetime_now time_time).
Local Notation "'archive'" :=
  (archive os_urandom E datetime_now time_time).

Lemma encode_utf8_ok_scalar (s : text) (b : bytes) :
  Py.encode_utf8 s = Ok b -> forallb Py.scalar_value s = true.
Proof.
  intros Hb. destruct (forallb Py.scalar_value s) eqn:Hs; [reflexivity |].
  rewrite (encode_utf8_not_scalar s Hs) in Hb. discriminate Hb.
Qed.

Lemma encoded_scalar (thoughts : list text) (payloads : list bytes) :
  encoded thoughts payloads ->
  Forall (fun s => forallb Py.scalar_value s = true) thoughts.
Proof.
  induction 1 as [| t p ts ps Ht _ IH]; constructor; [| exact IH].
  exact (encode_utf8_ok_scalar t p Ht).
Qed.

Lemma scalar_encoded (thoughts : list text) :
  Forall (fun s => forallb Py.scalar_value s = true) thoughts ->
  exists payloads, encoded thoughts payloads.
Proof.
  induction 1 as [| t ts Ht _ [ps IH]]; [exists []; constructor |].
  destruct (encode_utf8_scalar t Ht) as [p Hp].
  exists (p :: ps). now constructor.
Qed.

Lemma encoded_length (thoughts : list text) (payloads : list bytes) :
  encoded thoughts payloads -> length payloads = length thoughts.
Proof. intros H. symmetry. exact (Forall2_length _ _ _ H). Qed.

(** One iteration of the loop: the three ways in which it ends. *)
Lemma store_thought_outcome (self : SecretAgent) (thought : text)
      (w : World) :
  match Py.encode_utf8 thought with
  | Raise _ =>
    forallb Py.scalar_value thought = false /\
    store_thought self thought w = (Raise UnicodeEncodeError, self, w)
  | Ok payload =>
    match Encryption.aes_key_check (key self) with
    | Raise _ =>
      store_thought self thought w = (Raise ValueError, self, tick w)
    | Ok _ =>
      store_thought self thought w
      = (Ok (fst (archive_one os_urandom E datetime_now time_time
                    (key self) payload (private_thought_count self) w)),
         mkAgent (key self) (S (private_thought_count self)),
         snd (archive_one os_urandom E datetime_now time_time
                (key self) payload (private_thought_count self) w))
    end
  end.
Proof.
  unfold Agent.store_thought.
  destruct (Py.encode_utf8 thought) as [payload | e] eqn:Hp.
  - rewrite (encrypt_str_as_bytes os_urandom E _ _ _ w Hp).
    destruct (Encryption.aes_key_check (key self)) as [[] | e] eqn:Hkey.
    + rewrite (encrypt_bytes_eq os_urandom E _ payload w Hkey).
      reflexivity.
    + pose proof (aes_key_check_raises _ _ Hkey) as ->.
      unfold Encryption.encrypt. now rewrite Hkey.
  - destruct (forallb Py.scalar_value thought) eqn:Hs.
    + destruct (encode_utf8_scalar thought Hs) as [b Hb]. congruence.
    + split; [reflexivity |].
      unfold Encryption.encrypt.
      now rewrite (encode_utf8_not_scalar thought Hs).
Qed.

Lemma archive_records (k : bytes) (payloads : list bytes) :
  forall (n : nat) (w : World),
    length (fst (archive k payloads n w)) = length payloads /\
    map (fun md => id md) (fst (archive k payloads n w))
    = seq n (length payloads) /\
    Forall (fun md => encrypted md = true) (fst (archive k payloads n w)).
Proof.
  induction payloads as [| p rest IH]; intros n w; cbn [archive].
  - repeat split; constructor.
  - destruct (archive_one os_urandom E datetime_now time_time k p n w)
      as [md w1] eqn:Hone.
    specialize (IH (S n) w1).
    destruct (archive k rest (S n) w1) as [records w'].
    cbn [fst length map seq] in *.
    destruct IH as (Hlen & Hids & Henc).
    unfold archive_one in Hone. injection Hone as <- _.
    cbn [id encrypted].
    split; [now rewrite Hlen |]. split; [now rewrite Hids |].
    now constructor.
Qed.

(** The loop: either every thought is archived, or the loop stops at the
    first thought that cannot be stored, those before it archived. *)
Lemma store_thoughts_outcome (thoughts : list text) :
  forall (self : SecretAgent) (acc : list thought_metadata) (w : World),
    let k := key self in
    let n := private_thought_count self in
    (exists payloads,
       encoded thoughts payloads /\
       (thoughts = [] \/ Encryption.aes_key_check k = Ok tt) /\
       store_thoughts self thoughts acc w
       = (Ok (acc ++ fst (archive k payloads n w)),
          mkAgent k (n + length thoughts),
          snd (archive k payloads n w))) \/
    (exists good bad rest payloads e w',
       thoughts = good ++ bad :: rest /\
       encoded good payloads /\
       store_thoughts self thoughts acc w
       = (Raise e, mkAgent k (n + length good), w') /\
       ((forallb Py.scalar_value bad = false /\
         (good = [] \/ Encryption.aes_key_check k = Ok tt) /\
         e = UnicodeEncodeError /\
         w' = snd (archive k payloads n w)) \/
        (forallb Py.scalar_value bad = true /\
         good = [] /\
         Encryption.aes_key_check k = Raise ValueError /\
         e = ValueError /\ w' = tick w))).
Proof.
  induction thoughts as [| t ts IH]; intros self acc w k n.
  - left. exists []. split; [constructor |]. split; [now left |].
    cbn [Agent.store_thoughts archive fst snd length].
    rewrite app_nil_r, Nat.add_0_r. subst k n. now destruct self.
  - cbn [Agent.store_thoughts].
    pose proof (store_thought_outcome self t w) as Hstep.
    destruct (Py.encode_utf8 t) as [p | e] eqn:Hp.
    + destruct (Encryption.aes_key_check (key self)) as [[] | e] eqn:Hkey.
      * rewrite Hstep.
        destruct (archive_one os_urandom E datetime_now time_time
                    (key self) p (private_thought_count self) w)
          as [md w1] eqn:Hone.
        cbn [fst snd].
        specialize (IH (mkAgent k (S n)) (acc ++ [md]) w1).
        cbn [key private_thought_count] in IH. cbv zeta in IH.
        destruct IH as [(ps & Hps & _ & Hrun)
                       | (good & bad & rest & ps & e & w' & Hts & Hps
                          & Hrun & Hwhy)].
        -- left. exists (p :: ps).
           split; [now constructor |]. split; [now right |].
           fold k n. rewrite Hrun. cbn [archive]. fold k n in Hone.
           rewrite Hone.
           destruct (archive k ps (S n) w1) as [records w'].
           cbn [fst snd length]. rewrite <- app_assoc.
           cbn [app]. do 2 f_equal. f_equal. lia.
        -- right. exists (t :: good), bad, rest, (p :: ps), e, w'.
           split; [now rewrite Hts |].
           split; [now constructor |].
           fold k n. rewrite Hrun. cbn [length].
           split; [do 2 f_equal; f_equal; lia |].
           destruct Hwhy as [(Hbad & _ & He & Hw)
                            | (_ & _ & Hk & _)].
           ++ left. split; [exact Hbad |]. split; [now right |].
              split; [exact He |].
              cbn [archive]. fold k n in Hone. rewrite Hone.
              destruct (archive k ps (S n) w1) as [records w''].
              exact Hw.
           ++ subst k. congruence.
      * right. exists [], t, ts, [], ValueError, (tick w).
        split; [reflexivity |]. split; [constructor |].
        rewrite Hstep. cbn [length]. rewrite Nat.add_0_r.
        split; [subst k n; now destruct self |].
        right. split; [exact (encode_utf8_ok_scalar t p Hp) |].
        split; [reflexivity |].
        pose proof (aes_key_check_raises _ _ Hkey) as ->.
        subst k. auto.
    + destruct Hstep as [Hbad Hstep].
      right. exists [], t, ts, [], UnicodeEncodeError, w.
      split; [reflexivity |]. split; [constructor |].
      rewrite Hstep. cbn [length]. rewrite Nat.add_0_r.
      split; [subst k n; now destruct self |].
      left. split; [exact Hbad |]. split; [now left |].
      split; reflexivity.
Qed.

Lemma process_message_outcome (self : SecretAgent) (message : text)
      (w : World) :
  let private := snd (Processor.process_output isalnum message) in
  let k := key self in
  let n := private_thought_count self in
  (exists payloads,
     encoded private payloads /\
     (private = [] \/ Encryption.aes_key_check k = Ok tt) /\
     process_message self message w
     = (Ok (fst (Processor.process_output isalnum message),
            fst (archive k payloads n w)),
        mkAgent k (n + length private),
        snd (archive k payloads n w))) \/
  (exists good bad rest payloads e w',
     private = good ++ bad :: rest /\
     encoded good payloads /\
     process_message self message w
     = (Raise e, mkAgent k (n + length good), w') /\
     ((forallb Py.scalar_value bad = false /\
       (good = [] \/ Encryption.aes_key_check k = Ok tt) /\
       e = UnicodeEncodeError /\
       w' = snd (archive k payloads n w)) \/
      (forallb Py.scalar_value bad = true /\
       good = [] /\
       Encryption.aes_key_check k = Raise ValueError /\
       e = ValueError /\ w' = tick w))).
Proof.
  intros private k n. unfold Agent.process_message.
  subst private.
  destruct (Processor.process_output isalnum message) as [pub priv].
  cbn [fst snd].
  destruct (store_thoughts_outcome priv self [] w)
    as [(ps & Hps & Hkey & Hrun)
       | (good & bad & rest & ps & e & w' & Hts & Hps & Hrun & Hwhy)];
    rewrite Hrun.
  - left. exists ps. auto.
  - right. exists good, bad, rest, ps, e, w'. auto.
Qed.

(** C2, as the code has it.  [process_output] returns the public
    segments joined by single spaces, in order, and the private
    segments, in order.  [process_message] returns exactly when there is
    no private segment, or the key is one that AES accepts (16, 24 or
    32 bytes) and every private segment can be encoded; it then returns the public text and
    one record per private segment, each segment having been encrypted
    and saved in turn, and with no private segment it returns no record
    and leaves the world as it was.  In every other case it raises, at
    the first private segment that cannot be stored: the segments before
    that one have been archived, the counter has moved by their number,
    and neither the public text nor any record is returned. *)
Theorem process_message_routes :
  forall (self : SecretAgent) (message : text) (w : World),
    let segments := Processor._split_into_segments isalnum message in
    let public_text :=
      Py.join [32%N] (List.filter (fun s => negb (is_private s)) segments) in
    let private := List.filter is_private segments in
    let k := key self in
    let n := private_thought_count self in
    Processor.process_output isalnum message = (public_text, private) /\
    (private = [] ->
     process_message self message w = (Ok (public_text, []), self, w)) /\
    (Encryption.aes_key_check k = Ok tt <->
     length k = 16 \/ length k = 24 \/ length k = 32) /\
    ((exists out self' w',
        process_message self message w = (Ok out, self', w')) <->
     private = [] \/
     (Encryption.aes_key_check k = Ok tt /\
      Forall (fun s => forallb Py.scalar_value s = true) private)) /\
    (forall out self' w',
       process_message self message w = (Ok out, self', w') ->
       exists payloads,
         encoded private payloads /\
         out = (public_text, fst (archive k payloads n w)) /\
         length (snd out) = length private /\
         self' = mkAgent k (n + length private) /\
         w' = snd (archive k payloads n w)) /\
    (forall e self' w',
       process_message self message w = (Raise e, self', w') ->
       exists good bad rest payloads,
         private = good ++ bad :: rest /\
         encoded good payloads /\
         self' = mkAgent k (n + length good) /\
         ((forallb Py.scalar_value bad = false /\
           e = UnicodeEncodeError /\
           w' = snd (archive k payloads n w)) \/
          (forallb Py.scalar_value bad = true /\
           good = [] /\
           Encryption.aes_key_check k = Raise ValueError /\
           e = ValueError /\ w' = tick w))).
Proof.
  intros self message w segments public_text private k n.
  pose proof (process_output_filter isalnum message) as Hout.
  fold segments in Hout. fold public_text in Hout. fold private in Hout.
  pose proof (process_message_outcome self message w) as Hcases.
  rewrite Hout in Hcases. cbn [fst snd] in Hcases. cbv zeta in Hcases.
  fold k n in Hcases.
  split; [exact Hout |].
  split; [| split; [apply aes_key_check_sizes | split; [| split]]].
  - intros Hnil. unfold Agent.process_message. rewrite Hout, Hnil.
    reflexivity.
  - split.
    + intros (out & self' & w' & Hrun).
      destruct Hcases as [(ps & Hps & Hkey & _)
                         | (good & bad & rest & ps & e & w0 & _ & _
                            & Hraise & _)];
        [| congruence].
      destruct Hkey as [Hnil | Hkey]; [now left | right].
      split; [exact Hkey | exact (encoded_scalar _ _ Hps)].
    + intros Hwhy.
      destruct Hcases as [(ps & _ & _ & Hrun)
                         | (good & bad & rest & ps & e & w0 & Hpriv & Hps
                            & _ & Hbad)];
        [eauto |].
      exfalso. destruct Hwhy as [Hnil | [Hkey Hall]].
      * rewrite Hnil in Hpriv. now destruct good.
      * rewrite Hpriv in Hall. apply Forall_app in Hall as [_ Hall].
        inversion Hall as [| ? ? Hb _]; subst.
        destruct Hbad as [(Hbad & _) | (_ & _ & Hk & _)]; congruence.
  - intros out self' w' Hrun.
    destruct Hcases as [(ps & Hps & _ & Hrun')
                       | (good & bad & rest & ps & e & w0 & _ & _
                          & Hraise & _)];
      [| congruence].
    rewrite Hrun' in Hrun. injection Hrun as <- <- <-.
    exists ps. split; [exact Hps |]. split; [reflexivity |].
    split; [| split; reflexivity].
    cbn [snd].
    rewrite (proj1 (archive_records k ps n w)).
    exact (encoded_length _ _ Hps).
  - intros e self' w' Hrun.
    destruct Hcases as [(ps & _ & _ & Hrun')
                       | (good & bad & rest & ps & e0 & w0 & Hpriv & Hps
                          & Hraise & Hwhy)];
      [congruence |].
    rewrite Hraise in Hrun. injection Hrun as <- <- <-.
    exists good, bad, rest, ps.
    split; [exact Hpriv |]. split; [exact Hps |].
    split; [reflexivity |].
    destruct Hwhy as [(Hbad & _ & He & Hw) | Hkey]; [left | right]; auto.
Qed.

End LoopOutcomes.

(** C2 fails as stated: a text whose private segment holds a lone
    surrogate makes [process_message] raise; no public text is
    returned, no record, and nothing is saved. *)
Lemma process_message_raises_on_surrogate :
  Agent.process_message ascii_isalnum zero_entropy toy_block
    fixed_now fixed_time agent0 (lit "secret " ++ [0xD800%N]) empty_world
  = (Raise UnicodeEncodeError, agent0, empty_world).
Proof. vm_compute. reflexivity. Qed.

(** ** The counter across calls *)

Lemma seq_app_sorted (m : nat) :
  forall (n : nat) (l : list nat),
    StronglySorted lt l ->
    Forall (fun i => n + m <= i) l ->
    StronglySorted lt (seq n m ++ l).
Proof.
  induction m as [| m IH]; intros n l Hl Hge; [exact Hl |].
  cbn [seq app]. constructor.
  - apply IH; [exact Hl |].
    eapply Forall_impl; [exact Hge |]. cbv beta. intros i Hi. lia.
  - apply Forall_app. split.
    + apply List.Forall_forall. intros i Hi. apply in_seq in Hi. lia.
    + eapply Forall_impl; [exact Hge |]. cbv beta. intros i Hi. lia.
Qed.

Section CounterAcrossCalls.

Variable isalnum : N -> bool.
Variable os_urandom : nat -> nat -> bytes.
Variable E : bytes -> bytes -> bytes.
Variable datetime_now : nat -> datetime.
Variable time_time : nat -> float.

Local Notation "'store_thought'" :=
  (Agent.store_thought os_urandom E datetime_now time_time).
Local Notation "'process_message'" :=
  (Agent.process_message isalnum os_urandom E datetime_now time_time).
Local Notation "'calls'" :=
  (successive_calls isalnum os_urandom E datetime_now time_time).
Local Notation "'archive'" :=
  (archive os_urandom E datetime_now time_time).

(** One call: the counter and the ids, by the outcome of the call. *)
Lemma process_message_counter (self : SecretAgent) (message : text)
      (w : World) :
  let private := snd (Processor.process_output isalnum message) in
  let n := private_thought_count self in
  match process_message self message w with
  | (Ok (_, records), self', _) =>
    key self' = key self /\
    private_thought_count self' = n + length private /\
    map (fun md => id md) records = seq n (length private) /\
    Forall (fun md => encrypted md = true) records
  | (Raise _, self', _) =>
    key self' = key self /\
    exists stored,
      stored < length private /\
      private_thought_count self' = n + stored
  end.
Proof.
  intros private n.
  destruct (process_message_outcome isalnum os_urandom E datetime_now
              time_time self message w)
    as [(ps & Hps & _ & Hrun)
       | (good & bad & rest & ps & e & w' & Hpriv & _ & Hrun & _)];
    rewrite Hrun; fold private in Hps || fold private in Hpriv;
    cbn [key private_thought_count].
  - split; [reflexivity |]. split; [reflexivity |].
    destruct (archive_records os_urandom E datetime_now time_time
                (key self) ps n w) as (_ & Hids & Henc).
    rewrite (encoded_length _ _ Hps) in Hids. now split.
  - split; [reflexivity |]. exists (length good).
    split; [| reflexivity].
    rewrite Hpriv, length_app. cbn [length]. lia.
Qed.

(** Several calls: the ids go up, within the range that the counter has
    covered, and no id is skipped as long as no call raises. *)
Lemma successive_calls_ids (messages : list text) :
  forall (self : SecretAgent) (w : World),
    let '(outcomes, self', _) := calls self messages w in
    let ids := map (fun md => id md) (records_of outcomes) in
    length outcomes = length messages /\
    key self' = key self /\
    private_thought_count self <= private_thought_count self' /\
    StronglySorted lt ids /\
    Forall (fun i => private_thought_count self <= i
                     < private_thought_count self') ids /\
    (all_returned outcomes = true ->
     ids = seq (private_thought_count self) (length ids) /\
     private_thought_count self'
     = private_thought_count self + length ids).
Proof.
  induction messages as [| m messages IH]; intros self w;
    cbn [successive_calls].
  - cbn. repeat split; try constructor; lia.
  - pose proof (process_message_counter self m w) as Hcall.
    cbv zeta in Hcall.
    destruct (process_message self m w) as [[outcome self1] w1].
    specialize (IH self1 w1).
    destruct (calls self1 messages w1)
      as [[outcomes self'] w'].
    cbv zeta in IH.
    destruct IH as (Hlen & Hkey & Hle & Hsorted & Hrange & Hall).
    unfold records_of in *. cbn [map concat length all_returned forallb].
    split; [now rewrite Hlen |].
    destruct outcome as [[pub records] | e].
    + destruct Hcall as (Hkey1 & Hcount & Hids & _).
      split; [congruence |]. split; [lia |].
      rewrite map_app, Hids. split; [| split].
      * apply seq_app_sorted; [exact Hsorted |].
        eapply Forall_impl; [exact Hrange |]. cbv beta.
        intros i Hi. lia.
      * apply Forall_app. split.
        -- apply List.Forall_forall. intros i Hi. apply in_seq in Hi. lia.
        -- eapply Forall_impl; [exact Hrange |]. cbv beta.
           intros i Hi. lia.
      * cbn [andb]. intros Hret. destruct (Hall Hret) as [Hseq Hend].
        rewrite length_app, length_seq.
        split; [| lia].
        rewrite seq_app. f_equal. rewrite <- Hcount. exact Hseq.
    + destruct Hcall as (Hkey1 & stored & Hlt & Hcount).
      cbn [app]. split; [congruence |]. split; [lia |].
      split; [exact Hsorted |]. split.
      * eapply Forall_impl; [exact Hrange |]. cbv beta.
        intros i Hi. lia.
      * cbn [andb]. discriminate.
Qed.

(** C7, as the code has it.  The counter of a fresh agent is zero.  A
    call that returns moves the counter by the number of private
    segments it found, and its records carry the ids from the counter's
    value at entry on, one after the other; a call that raises returns no
    record, and has moved the counter by the number of segments it
    stored before it failed, which is less than the number it found.
    Across the calls on one agent the ids of the records therefore go
    strictly up, and they are consecutive as long as no call has raised.
    Every record says [encrypted = true] and gives the byte length of the
    blob that its step wrote at its path; and a record is made of the
    counter, two clock readings and the length of the encoded segment,
    and of nothing else. *)
Theorem metadata_ids_increase :
  (forall w0 agent w0',
     Agent.init os_urandom w0 = (Ok agent, w0') ->
     private_thought_count agent = 0) /\
  (forall (self : SecretAgent) (message : text) (w : World),
     let private := snd (Processor.process_output isalnum message) in
     let n := private_thought_count self in
     match process_message self message w with
     | (Ok (_, records), self', _) =>
       key self' = key self /\
       private_thought_count self' = n + length private /\
       map (fun md => id md) records = seq n (length private) /\
       Forall (fun md => encrypted md = true) records
     | (Raise _, self', _) =>
       key self' = key self /\
       exists stored,
         stored < length private /\
         private_thought_count self' = n + stored
     end) /\
  (forall (messages : list text) (self : SecretAgent) (w : World),
     let '(outcomes, self', _) := calls self messages w in
     let ids := map (fun md => id md) (records_of outcomes) in
     length outcomes = length messages /\
     key self' = key self /\
     private_thought_count self <= private_thought_count self' /\
     StronglySorted lt ids /\
     Forall (fun i => private_thought_count self <= i
                      < private_thought_count self') ids /\
     (all_returned outcomes = true ->
      ids = seq (private_thought_count self) (length ids) /\
      private_thought_count self'
      = private_thought_count self + length ids)) /\
  (forall self self' thought w w' md,
     store_thought self thought w = (Ok md, self', w') ->
     exists blob,
       files w' !! filepath md = Some blob /\
       size_bytes md = length blob /\
       id md = private_thought_count self /\
       encrypted md = true /\
       private_thought_count self' = S (private_thought_count self)) /\
  ((forall t n, length (os_urandom t n) = n) ->
   (forall k b, length b = Encryption.BLOCK ->
                length (E k b) = Encryption.BLOCK) ->
   forall self self' thought payload w w' md,
     Py.encode_utf8 thought = Ok payload ->
     store_thought self thought w = (Ok md, self', w') ->
     md = mkMetadata
            (private_thought_count self)
            (time_time (S (S (ticks w))))
            ("private/private_thought_"
             +:+ Storage.strftime (datetime_now (S (ticks w))) +:+ ".enc")
            (16 + 16 * (length payload / 16 + 1))
            true).
Proof.
  split; [| split; [| split; [| split]]].
  - intros w0 agent w0'. unfold Agent.init.
    destruct (Encryption._load_or_create_key os_urandom w0) as [[k0 | e] w1];
      [| discriminate].
    intros H. now injection H as <- _.
  - exact process_message_counter.
  - exact successive_calls_ids.
  - intros self self' thought w0 w0' md. apply store_thought_record.
  - intros Hrnd HE self self' thought payload w0 w0' md Hpay.
    pose proof (store_thought_outcome os_urandom E datetime_now time_time
                  self thought w0) as Hstep.
    rewrite Hpay in Hstep.
    destruct (Encryption.aes_key_check (key self)) as [[] | e] eqn:Hkey;
      rewrite Hstep; [| discriminate].
    intros H. injection H as <- _ _.
    unfold archive_one, blob_at. cbn [fst]. f_equal.
    exact (blob_length os_urandom E Hrnd HE (key self) payload w0).
Qed.

End CounterAcrossCalls.

(** C7 fails as stated: the first call finds two private segments,
    stores the first and raises at the second, so that it returns no
    record and leaves the counter at one; the record of the next call
    has the id 1, and no record has the id 0. *)
Lemma ids_skip_after_failed_call :
  length (snd (Processor.process_output ascii_isalnum half_stored)) = 2 /\
  exists public_text md w',
    successive_calls ascii_isalnum zero_entropy toy_block fixed_now
      fixed_time agent0 [half_stored; lit "my secret"] empty_world
    = ([Raise UnicodeEncodeError; Ok (public_text, [md])],
       mkAgent key32 2, w') /\
    id md = 1.
Proof.
  split; [vm_compute; reflexivity |].
  eexists _, _, _. split; [vm_compute; reflexivity | reflexivity].
Qed.

(** ** Where the segmenter splits *)

Section SplitPoints.

Variable isalnum : N -> bool.

Local Notation "'segments'" := (Processor._split_into_segments isalnum).

(** [re.split] cuts the text at matches of the pattern and nowhere
    else. *)
Lemma split_from_separated (r : regex) (gap : text -> text -> Prop) :
  (forall b a n,
     Re.match_at isalnum r b a = Some (S n) ->
     gap (rev b) (take (S n) a)) ->
  forall (a b : text) (skip : nat) (cur b0 : text),
    skip = 0 \/ cur = [] ->
    b = cur ++ b0 ->
    separated gap (rev b0 ++ take skip a) (rev cur ++ drop skip a)
              (Re.split_from isalnum r b a skip cur).
Proof.
  intros Hgap a.
  induction a as [| c a IH]; intros b skip cur b0 Hskip Hb.
  - cbn [Re.split_from]. rewrite drop_nil, app_nil_r. constructor.
  - cbn [Re.split_from]. destruct skip as [| n].
    + assert (Hgrow : separated gap (rev b0 ++ take 0 (c :: a))
                        (rev cur ++ drop 0 (c :: a))
                        (Re.split_from isalnum r (c :: b) a 0 (c :: cur))).
      { pose proof (IH (c :: b) 0 (c :: cur) b0 (or_introl eq_refl)
                      ltac:(now rewrite Hb)) as H.
        cbn [rev take drop] in *. now rewrite <- app_assoc in H. }
      destruct (Re.match_at isalnum r b (c :: a)) as [[| n] |] eqn:Em;
        try exact Hgrow.
      cbn [take drop] in *. rewrite app_nil_r.
      rewrite <- (take_drop (S n) (c :: a)) at 1.
      constructor.
      * replace (rev b0 ++ rev cur) with (rev b)
          by (now rewrite Hb, rev_app_distr).
        now apply Hgap.
      * pose proof (IH (c :: b) n [] (c :: b) (or_intror eq_refl) eq_refl)
          as H.
        cbn [rev app take drop] in *.
        replace (rev b0 ++ rev cur ++ c :: take n a)
          with ((rev b ++ [c]) ++ take n a); [exact H |].
        rewrite Hb, rev_app_distr, <- !app_assoc. reflexivity.
    + pose proof (IH (c :: b) n [] (c :: b) (or_intror eq_refl) eq_refl)
          as H.
      cbn [rev app take drop] in *.
      destruct Hskip as [Hskip | ->]; [discriminate Hskip |].
      cbn [app] in Hb. subst b0. cbn [rev app].
      now rewrite <- app_assoc in H.
Qed.

Lemma paragraphs_separated (t : text) :
  separated paragraph_gap [] t
            (Re.split isalnum Processor.PARAGRAPH_BREAK t).
Proof.
  unfold Re.split.
  apply (split_from_separated Processor.PARAGRAPH_BREAK paragraph_gap)
    with (a := t) (b := []) (skip := 0) (cur := []) (b0 := []);
    [| now left | reflexivity].
  intros b a n H. apply match_at_matches in H as [_ H].
  now apply paragraph_break_shape in H.
Qed.

Lemma sentences_separated (p : text) :
  separated sentence_gap [] p
            (Re.split isalnum Processor.SENTENCE_BREAK p).
Proof.
  unfold Re.split.
  apply (split_from_separated Processor.SENTENCE_BREAK sentence_gap)
    with (a := p) (b := []) (skip := 0) (cur := []) (b0 := []);
    [| now left | reflexivity].
  intros b a n H. apply match_at_matches in H as [_ H].
  apply sentence_break_shape in H as (Hne & Hsp & c & b' & -> & Hc).
  split; [| split; [exact Hsp |]].
  - intros Hnil. apply (f_equal (@length N)) in Hnil.
    apply Hne. destruct a; [| discriminate Hnil].
    now rewrite take_nil in *.
  - exists (rev b'), c. split; [reflexivity |].
    unfold sentence_end. destruct Hc as [-> | [-> | ->]]; reflexivity.
Qed.

Lemma kept_flat_map (f : text -> list text) (l : list text) :
  kept (flat_map f l) = concat (map (fun p => kept (f p)) l).
Proof.
  unfold kept. induction l as [| p l IH]; [reflexivity |].
  cbn [flat_map map concat].
  now rewrite List.filter_app, map_app, IH.
Qed.

(** C4: the segments, concatenated, hold the non-whitespace characters
    of the text, all of them and in order, and every segment is trimmed
    and non-empty.  The text is cut at blank-line boundaries (a newline,
    whitespace if any, a newline) into paragraphs, none of which has
    such a boundary left inside; a paragraph of at most 500 characters
    after trimming is not cut further; a longer one is cut at whitespace
    that follows [.], [!] or [?], and at all such places; the segments
    are the pieces so obtained that are not blank, trimmed, in order.  A
    text without a blank-line boundary, and of at most 500 characters
    after trimming or without whitespace after [.], [!], [?], is one
    segment at most, single newlines or not. *)
Theorem segments_preserve_non_whitespace :
  forall t : text,
    non_whitespace (concat (segments t)) = non_whitespace t /\
    Forall trimmed_nonempty (segments t) /\
    (exists paragraphs groups,
       separated paragraph_gap [] t paragraphs /\
       Forall no_paragraph_break paragraphs /\
       Forall2 (fun p group =>
                  if 500 <? length (Py.strip p) then
                    exists sentences,
                      separated sentence_gap [] p sentences /\
                      Forall no_sentence_break sentences /\
                      group = kept sentences
                  else group = kept [p])
               paragraphs groups /\
       segments t = concat groups) /\
    (no_paragraph_break t ->
     length (Py.strip t) <= 500 \/ no_sentence_break t ->
     segments t = kept [t]).
Proof.
  intros t.
  split; [apply segments_non_whitespace |].
  split; [apply segments_trimmed |]. split.
  - exists (Re.split isalnum Processor.PARAGRAPH_BREAK t).
    exists (map (fun p => kept (if 500 <? length (Py.strip p)
                                then Re.split isalnum
                                       Processor.SENTENCE_BREAK p
                                else [p]))
                (Re.split isalnum Processor.PARAGRAPH_BREAK t)).
    split; [apply paragraphs_separated |].
    split; [apply paragraph_pieces |]. split.
    + induction (Re.split isalnum Processor.PARAGRAPH_BREAK t)
        as [| p l IH]; cbn [map]; constructor; [| exact IH].
      destruct (500 <? length (Py.strip p)); [| reflexivity].
      exists (Re.split isalnum Processor.SENTENCE_BREAK p).
      split; [apply sentences_separated |].
      split; [apply sentence_pieces | reflexivity].
    + unfold Processor._split_into_segments. cbv zeta.
      exact (kept_flat_map _ _).
  - intros Hpara Hsent.
    unfold Processor._split_into_segments.
    rewrite (split_no_paragraph_break isalnum t Hpara). cbn [flat_map].
    rewrite app_nil_r.
    destruct (Nat.ltb_spec 500 (length (Py.strip t))) as [Hlong | Hshort];
      [| reflexivity].
    destruct Hsent as [Hlen | Hsent]; [lia |].
    now rewrite (split_no_sentence_break isalnum t Hsent).
Qed.

End SplitPoints.
